(** * Parse-torrent-title: the rule engine, its transforms and the normalizer

    A shallow embedding of [ptt.go], of the transforms, the validators and
    the rules without pattern of the Go rule table, of [normalizer.go], and
    of the engine, the transforms and the normalizer of the Kotlin port.

    Conventions of the embedding:
    - a Go [string] is a byte string; it is a Rocq [string] (one [ascii] per
      byte), and offsets are byte offsets in [Z];
    - a Go [int] is a 64-bit integer: a [Z] with the wrap-around written out
      ([wrap]);
    - a run-time panic is a value of [exec]: [Ok a] or [Panic p];
    - the regular expressions of the rule table are data of the table: a
      pattern is the function that [FindStringSubmatchIndex] computes for it;
    - the order of a [range] over a Go map is not specified: every [range]
      statement that is executed takes its order from an argument.
*)

From Stdlib Require Import ZArith String Ascii List Lia Bool DecimalString.
From stdpp Require Import base option list gmap strings fin_maps.

Import ListNotations.
Local Open Scope string_scope.
Local Open Scope Z_scope.

(** ** Run-time conventions *)

(** What [panic] carries: a value that implements [error] (every fault raised
    by the Go runtime is a [runtime.Error]) or any other value. *)
Inductive panic_value : Type :=
  | RuntimeError (msg : string)
  | PanicOther (msg : string).

Inductive exec (A : Type) : Type :=
  | Ok (a : A)
  | Panic (p : panic_value).
Arguments Ok {A} a.
Arguments Panic {A} p.

Definition ebind {A B : Type} (c : exec A) (k : A -> exec B) : exec B :=
  match c with
  | Ok a => k a
  | Panic p => Panic p
  end.

#[global] Instance exec_bind : MBind exec := fun A B k c => ebind c k.
#[global] Instance exec_ret : MRet exec := @Ok.

Definition min_int : Z := - 2 ^ 63.
Definition max_int : Z := 2 ^ 63 - 1.

(** Two's complement wrap-around of a 64-bit [int]. *)
Definition wrap (z : Z) : Z := (z + 2 ^ 63) mod 2 ^ 64 - 2 ^ 63.

Definition slen (s : string) : Z := Z.of_nat (String.length s).

(** [s[lo:hi]]: panics unless [0 <= lo <= hi <= len(s)]. *)
Definition slice (s : string) (lo hi : Z) : exec string :=
  if (0 <=? lo) && (lo <=? hi) && (hi <=? slen s)
  then Ok (substring (Z.to_nat lo) (Z.to_nat (hi - lo)) s)
  else Panic (RuntimeError "slice bounds out of range").

(** [xs[i]] on a slice of ints: panics out of range. *)
Definition index (xs : list Z) (i : Z) : exec Z :=
  if (0 <=? i) && (i <? Z.of_nat (List.length xs))
  then match nth_error xs (Z.to_nat i) with
       | Some x => Ok x
       | None => Panic (RuntimeError "index out of range")
       end
  else Panic (RuntimeError "index out of range").

(** The largest length [make([]int, n)] accepts on a 64-bit runtime
    ([maxAlloc] is 2^48 bytes, an [int] is 8 bytes). *)
Definition max_slice_len : Z := 2 ^ 45.

(** [make([]int, n)] followed by [seq[i] = first + i] for every [i]. *)
Definition make_run (first n : Z) : exec (list Z) :=
  if (n <? 0) || (max_slice_len <? n)
  then Panic (RuntimeError "makeslice: len out of range")
  else Ok (List.map (fun i => wrap (first + Z.of_nat i)) (seq 0 (Z.to_nat n))).

(** ** [strconv] and [strings] *)

Definition is_digit (c : ascii) : bool :=
  let n := Z.of_nat (nat_of_ascii c) in (48 <=? n) && (n <=? 57).

Definition digit_value (c : ascii) : Z := Z.of_nat (nat_of_ascii c) - 48.

(** The value of a string of decimal digits, [None] when a byte is not one. *)
Fixpoint digits_value (s : string) (acc : Z) : option Z :=
  match s with
  | EmptyString => Some acc
  | String c r =>
      if is_digit c then digits_value r (10 * acc + digit_value c) else None
  end.

(** [strconv.Atoi]: an optional sign, then at least one decimal digit; [None]
    stands for [err != nil] (syntax or range). *)
Definition Atoi (s : string) : option Z :=
  let '(neg, body) :=
    match s with
    | String "-" r => (true, r)
    | String "+" r => (false, r)
    | _ => (false, s)
    end in
  match body with
  | EmptyString => None
  | _ =>
      match digits_value body 0 with
      | None => None
      | Some v =>
          let v' := if neg then - v else v in
          if (min_int <=? v') && (v' <=? max_int) then Some v' else None
      end
  end.

(** [strconv.Itoa]. *)
Definition Itoa (z : Z) : string := NilZero.string_of_int (Z.to_int z).

(** [re.Split(s, -1)] for a pattern that matches the maximal runs of the bytes
    in [sep] (as [\D+] does for non-digits): the pieces between the runs, an
    empty piece before a leading run and after a trailing one. [cur] is the
    piece being read, [insep] tells whether the previous byte was in a run. *)
Fixpoint split_runs (sep : ascii -> bool) (s cur : string) (insep : bool)
  : list string :=
  match s with
  | EmptyString => [cur]
  | String c r =>
      if sep c then
        if insep then split_runs sep r "" true
        else cur :: split_runs sep r "" true
      else split_runs sep r (cur +:+ String c "") false
  end.

(** [re.ReplaceAllString(s, by)] for the same kind of pattern. *)
Fixpoint replace_runs (sep : ascii -> bool) (by_ s : string) (insep : bool)
  : string :=
  match s with
  | EmptyString => ""
  | String c r =>
      if sep c then
        if insep then replace_runs sep by_ r true
        else by_ +:+ replace_runs sep by_ r true
      else String c (replace_runs sep by_ r false)
  end.

Definition non_digit (c : ascii) : bool := negb (is_digit c).

(** [non_digits_regex] is [\D+]. *)
Definition non_digits_Split (s : string) : list string :=
  split_runs non_digit s "" false.
Definition non_digits_ReplaceAll (s by_ : string) : string :=
  replace_runs non_digit by_ s false.

Fixpoint trim_left (c : ascii) (s : string) : string :=
  match s with
  | String d r => if Ascii.eqb d c then trim_left c r else s
  | EmptyString => ""
  end.

Fixpoint string_rev (s acc : string) : string :=
  match s with
  | EmptyString => acc
  | String c r => string_rev r (String c acc)
  end.

(** [strings.Trim(s, cutset)] for a one-byte cutset. *)
Definition strings_Trim (s : string) (c : ascii) : string :=
  string_rev (trim_left c (string_rev (trim_left c s) "")) "".

(** [strings.Split(s, sep)] for a one-byte separator: every occurrence
    splits, so adjacent separators give empty pieces. *)
Fixpoint strings_Split (s : string) (c : ascii) (cur : string) : list string :=
  match s with
  | EmptyString => [cur]
  | String d r =>
      if Ascii.eqb d c then cur :: strings_Split r c ""
      else strings_Split r c (cur +:+ String d "")
  end.

(** [strings.Contains(s, substr)]. *)
Fixpoint strings_Contains (s substr : string) : bool :=
  if String.prefix substr s then true
  else match s with
       | EmptyString => false
       | String _ r => strings_Contains r substr
       end.

(** [whitespaces_regex] is [\s+] (RE2: tab, line feed, form feed, carriage
    return, space) and [underscores_regex] is [_+]. *)
Definition is_space (c : ascii) : bool :=
  let n := nat_of_ascii c in
  (n =? 9)%nat || (n =? 10)%nat || (n =? 12)%nat || (n =? 13)%nat
  || (n =? 32)%nat.
Definition is_underscore (c : ascii) : bool := Ascii.eqb c "_".

Definition whitespaces_ReplaceAll (s by_ : string) : string :=
  replace_runs is_space by_ s false.
Definition underscores_ReplaceAll (s by_ : string) : string :=
  replace_runs is_underscore by_ s false.

(** ** Field state *)

(** The dynamically typed slot [value any] of a field: [nil], a string, a
    bool, a [[]int], or a [*value_set[any]] (its [values] slice; [existMap]
    holds the same elements, every element the table appends is a string). *)
Inductive any : Type :=
  | Nil
  | Str (s : string)
  | Bool (b : bool)
  | Ints (l : list Z)
  | ValueSet (values : list string).

Definition is_nil (v : any) : bool :=
  match v with Nil => true | _ => false end.

Record parseMeta : Type := mkMeta {
  mIndex : Z;
  mValue : string;
  value : any;
  remove : bool;
  processed : bool
}.

(** [&parseMeta{}] *)
Definition blank : parseMeta := mkMeta 0 "" Nil false false.

Definition set_mIndex (i : Z) (m : parseMeta) : parseMeta :=
  mkMeta i (mValue m) (value m) (remove m) (processed m).
Definition set_mValue (s : string) (m : parseMeta) : parseMeta :=
  mkMeta (mIndex m) s (value m) (remove m) (processed m).
Definition set_value (v : any) (m : parseMeta) : parseMeta :=
  mkMeta (mIndex m) (mValue m) v (remove m) (processed m).
Definition set_remove (b : bool) (m : parseMeta) : parseMeta :=
  mkMeta (mIndex m) (mValue m) (value m) b (processed m).
Definition set_processed (b : bool) (m : parseMeta) : parseMeta :=
  mkMeta (mIndex m) (mValue m) (value m) (remove m) b.

(** [map[string]*parseMeta] *)
Abbreviation resmap := (gmap string parseMeta).

(** The order in which one [range] over the map visits its entries. Go leaves
    it unspecified; every definition that ranges over the map takes it as an
    argument. *)
Abbreviation range_order := (resmap -> list (string * parseMeta)).

Definition valid_order (order : range_order) : Prop :=
  forall result : resmap, order result ≡ₚ map_to_list result.

(** The [range] statements that one turn of the rule loop of ptt.go can reach:
    the loop of the skip-if-first test and the loop of a processor. Each of
    them draws an order of its own. *)
Inductive range_site : Type := SkipIfFirstRange | ProcessorRange.

Abbreviation turn_order := (range_site -> range_order).

Definition valid_turn (order : turn_order) : Prop :=
  forall site : range_site, valid_order (order site).

(** The orders of one call of [parse] of ptt.go: those of the turn of every
    rule, by the position of the rule in the list, and the order of the loop
    that copies the map into the record. *)
Record parse_order : Type := mkOrders {
  turn_ranges : nat -> turn_order;
  assembly_range : range_order
}.

Definition valid_orders (orders : parse_order) : Prop :=
  (forall i : nat, valid_turn (turn_ranges orders i))
  /\ valid_order (assembly_range orders).

(** Closures of a rule. A closure gets the cell [m] of its field and the map,
    and gives both back as it leaves them: the cell it returns is the cell it
    was given, and the engine keeps that cell under the rule's field. A
    processor also gets the order of the [range] it makes over the map. *)
Definition hMatchValidator : Type := string -> list Z -> exec bool.
Definition hTransformer : Type :=
  string -> parseMeta -> resmap -> exec (parseMeta * resmap).
Definition hProcessor : Type :=
  range_order -> string -> parseMeta -> resmap -> exec (parseMeta * resmap).

Record handler : Type := mkHandler {
  Field : string;
  (** [Pattern.FindStringSubmatchIndex]; the empty list is "no match" *)
  Pattern : option (string -> list Z);
  ValidateMatch : option hMatchValidator;
  Transform : option hTransformer;
  Process : option hProcessor;
  Remove : bool;
  KeepMatching : bool;
  SkipIfFirst : bool;
  SkipIfBefore : list string;
  SkipFromTitle : bool;
  MatchGroup : Z;
  ValueGroup : Z
}.

Definition value_set_field_map : list string :=
  ["audio"; "channels"; "hdr"; "languages"; "releaseTypes"].

Definition has_value_set (field : string) : bool :=
  existsb (String.eqb field) value_set_field_map.

(** ** Transforms of the rule table *)

(** [vs.append(v)] *)
Definition vs_append (values : list string) (v : string) : list string :=
  if existsb (String.eqb v) values then values else values ++ [v].

Definition to_value (v : string) : hTransformer :=
  fun _ m result => Ok (set_value (Str v) m, result).

Definition to_boolean : hTransformer :=
  fun _ m result => Ok (set_value (Bool true) m, result).

Definition to_with_suffix (suffix : string) : hTransformer :=
  fun _ m result =>
    match value m with
    | Str v => Ok (set_value (Str (v +:+ suffix)) m, result)
    | _ => Ok (set_value (Str "") m, result)
    end.

Definition to_value_set (v : string) : hTransformer :=
  fun _ m result =>
    match value m with
    | ValueSet val => Ok (set_value (ValueSet (vs_append val v)) m, result)
    | _ => Ok (m, result)
    end.

Definition to_int_array : hTransformer :=
  fun _ m result =>
    match value m with
    | Str v =>
        match Atoi v with
        | Some num => Ok (set_value (Ints [num]) m, result)
        | None => Ok (set_value (Ints []) m, result)
        end
    | _ => Ok (set_value (Ints []) m, result)
    end.

Definition to_year : hTransformer :=
  fun _ m result =>
    match value m with
    | Str vstr =>
        match non_digits_Split vstr with
        | [] => Panic (RuntimeError "index out of range")
        | [p] => Ok (set_value (Str p) m, result)
        | start :: end_ :: _ =>
            match Atoi end_ with
            | None => Ok (set_value (Str start) m, result)
            | Some endYear =>
                match Atoi start with
                | None => Ok (set_value (Str "") m, result)
                | Some startYear =>
                    let endYear :=
                      if endYear <? 100
                      then wrap (wrap (endYear + startYear)
                                 - Z.rem startYear 100)
                      else endYear in
                    if endYear <=? startYear
                    then Ok (set_value (Str "") m, result)
                    else Ok (set_value
                               (Str (Itoa startYear +:+ "-" +:+ Itoa endYear))
                               m, result)
                end
            end
        end
    | _ => Ok (set_value (Str "") m, result)
    end.

(** The last loop of [to_int_range]: every element but the last is followed
    by its successor. *)
Fixpoint in_sequence (nums : list Z) : bool :=
  match nums with
  | num :: (next :: _) as rest =>
      if wrap (num + 1) =? next then in_sequence rest else false
  | _ => true
  end.

Definition atoi_or_zero (part : string) : Z :=
  match Atoi part with
  | Some num => num
  | None => 0
  end.

(** [parts] of [to_int_range]. *)
Definition range_parts (v : string) : list string :=
  strings_Split (strings_Trim (non_digits_ReplaceAll v " ") " ") " " "".

Definition to_int_range : hTransformer :=
  fun _ m result =>
    match value m with
    | Str v =>
        let parts := range_parts v in
        let nums := List.map atoi_or_zero parts in
        nums ← match nums with
               | [a; b] =>
                   if a <? b then make_run a (wrap (wrap (b - a) + 1))
                   else Ok nums
               | _ => Ok nums
               end;
        if in_sequence nums
        then Ok (set_value (Ints nums) m, result)
        else Ok (set_value Nil m, result)
    | _ => Ok (set_value Nil m, result)
    end.

(** [re.MatchString(s)] for [^\[.+]$]: an opening bracket, at least one byte
    other than a line feed, a closing bracket. *)
Fixpoint no_newline (s : string) : bool :=
  match s with
  | EmptyString => true
  | String c r => negb (Ascii.eqb c "010") && no_newline r
  end.

Definition bracketed_MatchString (s : string) : bool :=
  match s with
  | String "[" r =>
      match string_rev r "" with
      | String "]" inner =>
          negb (String.eqb inner "") && no_newline inner
      | _ => false
      end
  | _ => false
  end.

(** The loop of the last "group" rule: the first entry met whose offset lies
    strictly between 0 and [endIndex] ends it. *)
Fixpoint group_overlap (entries : list (string * parseMeta)) (endIndex : Z)
  : bool :=
  match entries with
  | [] => false
  | (_, km) :: rest =>
      if (0 <? mIndex km) && (mIndex km <? endIndex) then true
      else group_overlap rest endIndex
  end.

(** The processor of the last "group" rule of the table. *)
Definition group_processor : hProcessor :=
  fun order _ m result =>
    if negb (String.eqb (mValue m) "") && bracketed_MatchString (mValue m)
       && group_overlap (order result) (wrap (mIndex m + slen (mValue m)))
    then Ok (set_value (Str "") m, result)
    else Ok (set_mValue "" (set_mIndex 0 m), result).

(** ** The result record *)

(** [Result] of [ptt.go]. A nil slice and an empty slice are both [[]];
    [err] holds the message of the error, [None] for a nil error. *)
Record Result : Type := mkResult {
  Audio : list string;
  BitDepth : string;
  Channels : list string;
  Codec : string;
  Commentary : bool;
  Complete : bool;
  Container : string;
  Convert : bool;
  Date : string;
  Documentary : bool;
  Dubbed : bool;
  Edition : string;
  EpisodeCode : string;
  Episodes : list Z;
  Extended : bool;
  Extension : string;
  Group : string;
  HDR : list string;
  Hardcoded : bool;
  Languages : list string;
  Network : string;
  Proper : bool;
  Quality : string;
  Region : string;
  ReleaseTypes : list string;
  Remastered : bool;
  Repack : bool;
  Resolution : string;
  Retail : bool;
  Seasons : list Z;
  Site : string;
  Size : string;
  Subbed : bool;
  ThreeD : string;
  Title : string;
  Uncensored : bool;
  Unrated : bool;
  Upscaled : bool;
  Volumes : list Z;
  Year : string;
  err : option string;
  is_normalized : bool
}.

(** [&Result{}]: every field at the zero value of its type. *)
Definition zero_Result : Result :=
  mkResult [] "" [] "" false false "" false "" false false "" "" [] false ""
    "" [] false [] "" false "" "" [] false false "" false [] "" "" false "" ""
    false false false [] "" None false.

Definition set_Audio (v : list string) (r : Result) : Result :=
  let 'mkResult _ x1 x2 x3 x4 x5 x6 x7 x8 x9 x10 x11 x12 x13 x14 x15 x16 x17
    x18 x19 x20 x21 x22 x23 x24 x25 x26 x27 x28 x29 x30 x31 x32 x33 x34 x35
    x36 x37 x38 x39 x40 x41 := r in
  mkResult v x1 x2 x3 x4 x5 x6 x7 x8 x9 x10 x11 x12 x13 x14 x15 x16 x17 x18
    x19 x20 x21 x22 x23 x24 x25 x26 x27 x28 x29 x30 x31 x32 x33 x34 x35 x36
    x37 x38 x39 x40 x41.
Definition set_BitDepth (v : string) (r : Result) : Result :=
  let 'mkResult x0 _ x2 x3 x4 x5 x6 x7 x8 x9 x10 x11 x12 x13 x14 x15 x16 x17
    x18 x19 x20 x21 x22 x23 x24 x25 x26 x27 x28 x29 x30 x31 x32 x33 x34 x35
    x36 x37 x38 x39 x40 x41 := r in
  mkResult x0 v x2 x3 x4 x5 x6 x7 x8 x9 x10 x11 x12 x13 x14 x15 x16 x17 x18
    x19 x20 x21 x22 x23 x24 x25 x26 x27 x28 x29 x30 x31 x32 x33 x34 x35 x36
    x37 x38 x39 x40 x41.
Definition set_Channels (v : list string) (r : Result) : Result :=
  let 'mkResult x0 x1 _ x3 x4 x5 x6 x7 x8 x9 x10 x11 x12 x13 x14 x15 x16 x17
    x18 x19 x20 x21 x22 x23 x24 x25 x26 x27 x28 x29 x30 x31 x32 x33 x34 x35
    x36 x37 x38 x39 x40 x41 := r in
  mkResult x0 x1 v x3 x4 x5 x6 x7 x8 x9 x10 x11 x12 x13 x14 x15 x16 x17 x18
    x19 x20 x21 x22 x23 x24 x25 x26 x27 x28 x29 x30 x31 x32 x33 x34 x35 x36
    x37 x38 x39 x40 x41.
Definition set_Codec (v : string) (r : Result) : Result :=
  let 'mkResult x0 x1 x2 _ x4 x5 x6 x7 x8 x9 x10 x11 x12 x13 x14 x15 x16 x17
    x18 x19 x20 x21 x22 x23 x24 x25 x26 x27 x28 x29 x30 x31 x32 x33 x34 x35
    x36 x37 x38 x39 x40 x41 := r in
  mkResult x0 x1 x2 v x4 x5 x6 x7 x8 x9 x10 x11 x12 x13 x14 x15 x16 x17 x18
    x19 x20 x21 x22 x23 x24 x25 x26 x27 x28 x29 x30 x31 x32 x33 x34 x35 x36
    x37 x38 x39 x40 x41.
Definition set_Commentary (v : bool) (r : Result) : Result :=
  let 'mkResult x0 x1 x2 x3 _ x5 x6 x7 x8 x9 x10 x11 x12 x13 x14 x15 x16 x17
    x18 x19 x20 x21 x22 x23 x24 x25 x26 x27 x28 x29 x30 x31 x32 x33 x34 x35
    x36 x37 x38 x39 x40 x41 := r in
  mkResult x0 x1 x2 x3 v x5 x6 x7 x8 x9 x10 x11 x12 x13 x14 x15 x16 x17 x18
    x19 x20 x21 x22 x23 x24 x25 x26 x27 x28 x29 x30 x31 x32 x33 x34 x35 x36
    x37 x38 x39 x40 x41.
Definition set_Complete (v : bool) (r : Result) : Result :=
  let 'mkResult x0 x1 x2 x3 x4 _ x6 x7 x8 x9 x10 x11 x12 x13 x14 x15 x16 x17
    x18 x19 x20 x21 x22 x23 x24 x25 x26 x27 x28 x29 x30 x31 x32 x33 x34 x35
    x36 x37 x38 x39 x40 x41 := r in
  mkResult x0 x1 x2 x3 x4 v x6 x7 x8 x9 x10 x11 x12 x13 x14 x15 x16 x17 x18
    x19 x20 x21 x22 x23 x24 x25 x26 x27 x28 x29 x30 x31 x32 x33 x34 x35 x36
    x37 x38 x39 x40 x41.
Definition set_Container (v : string) (r : Result) : Result :=
  let 'mkResult x0 x1 x2 x3 x4 x5 _ x7 x8 x9 x10 x11 x12 x13 x14 x15 x16 x17
    x18 x19 x20 x21 x22 x23 x24 x25 x26 x27 x28 x29 x30 x31 x32 x33 x34 x35
    x36 x37 x38 x39 x40 x41 := r in
  mkResult x0 x1 x2 x3 x4 x5 v x7 x8 x9 x10 x11 x12 x13 x14 x15 x16 x17 x18
    x19 x20 x21 x22 x23 x24 x25 x26 x27 x28 x29 x30 x31 x32 x33 x34 x35 x36
    x37 x38 x39 x40 x41.
Definition set_Convert (v : bool) (r : Result) : Result :=
  let 'mkResult x0 x1 x2 x3 x4 x5 x6 _ x8 x9 x10 x11 x12 x13 x14 x15 x16 x17
    x18 x19 x20 x21 x22 x23 x24 x25 x26 x27 x28 x29 x30 x31 x32 x33 x34 x35
    x36 x37 x38 x39 x40 x41 := r in
  mkResult x0 x1 x2 x3 x4 x5 x6 v x8 x9 x10 x11 x12 x13 x14 x15 x16 x17 x18
    x19 x20 x21 x22 x23 x24 x25 x26 x27 x28 x29 x30 x31 x32 x33 x34 x35 x36
    x37 x38 x39 x40 x41.
Definition set_Date (v : string) (r : Result) : Result :=
  let 'mkResult x0 x1 x2 x3 x4 x5 x6 x7 _ x9 x10 x11 x12 x13 x14 x15 x16 x17
    x18 x19 x20 x21 x22 x23 x24 x25 x26 x27 x28 x29 x30 x31 x32 x33 x34 x35
    x36 x37 x38 x39 x40 x41 := r in
  mkResult x0 x1 x2 x3 x4 x5 x6 x7 v x9 x10 x11 x12 x13 x14 x15 x16 x17 x18
    x19 x20 x21 x22 x23 x24 x25 x26 x27 x28 x29 x30 x31 x32 x33 x34 x35 x36
    x37 x38 x39 x40 x41.
Definition set_Documentary (v : bool) (r : Result) : Result :=
  let 'mkResult x0 x1 x2 x3 x4 x5 x6 x7 x8 _ x10 x11 x12 x13 x14 x15 x16 x17
    x18 x19 x20 x21 x22 x23 x24 x25 x26 x27 x28 x29 x30 x31 x32 x33 x34 x35
    x36 x37 x38 x39 x40 x41 := r in
  mkResult x0 x1 x2 x3 x4 x5 x6 x7 x8 v x10 x11 x12 x13 x14 x15 x16 x17 x18
    x19 x20 x21 x22 x23 x24 x25 x26 x27 x28 x29 x30 x31 x32 x33 x34 x35 x36
    x37 x38 x39 x40 x41.
Definition set_Dubbed (v : bool) (r : Result) : Result :=
  let 'mkResult x0 x1 x2 x3 x4 x5 x6 x7 x8 x9 _ x11 x12 x13 x14 x15 x16 x17
    x18 x19 x20 x21 x22 x23 x24 x25 x26 x27 x28 x29 x30 x31 x32 x33 x34 x35
    x36 x37 x38 x39 x40 x41 := r in
  mkResult x0 x1 x2 x3 x4 x5 x6 x7 x8 x9 v x11 x12 x13 x14 x15 x16 x17 x18 x19
    x20 x21 x22 x23 x24 x25 x26 x27 x28 x29 x30 x31 x32 x33 x34 x35 x36 x37
    x38 x39 x40 x41.
Definition set_Edition (v : string) (r : Result) : Result :=
  let 'mkResult x0 x1 x2 x3 x4 x5 x6 x7 x8 x9 x10 _ x12 x13 x14 x15 x16 x17
    x18 x19 x20 x21 x22 x23 x24 x25 x26 x27 x28 x29 x30 x31 x32 x33 x34 x35
    x36 x37 x38 x39 x40 x41 := r in
  mkResult x0 x1 x2 x3 x4 x5 x6 x7 x8 x9 x10 v x12 x13 x14 x15 x16 x17 x18 x19
    x20 x21 x22 x23 x24 x25 x26 x27 x28 x29 x30 x31 x32 x33 x34 x35 x36 x37
    x38 x39 x40 x41.
Definition set_EpisodeCode (v : string) (r : Result) : Result :=
  let 'mkResult x0 x1 x2 x3 x4 x5 x6 x7 x8 x9 x10 x11 _ x13 x14 x15 x16 x17
    x18 x19 x20 x21 x22 x23 x24 x25 x26 x27 x28 x29 x30 x31 x32 x33 x34 x35
    x36 x37 x38 x39 x40 x41 := r in
  mkResult x0 x1 x2 x3 x4 x5 x6 x7 x8 x9 x10 x11 v x13 x14 x15 x16 x17 x18 x19
    x20 x21 x22 x23 x24 x25 x26 x27 x28 x29 x30 x31 x32 x33 x34 x35 x36 x37
    x38 x39 x40 x41.
Definition set_Episodes (v : list Z) (r : Result) : Result :=
  let 'mkResult x0 x1 x2 x3 x4 x5 x6 x7 x8 x9 x10 x11 x12 _ x14 x15 x16 x17
    x18 x19 x20 x21 x22 x23 x24 x25 x26 x27 x28 x29 x30 x31 x32 x33 x34 x35
    x36 x37 x38 x39 x40 x41 := r in
  mkResult x0 x1 x2 x3 x4 x5 x6 x7 x8 x9 x10 x11 x12 v x14 x15 x16 x17 x18 x19
    x20 x21 x22 x23 x24 x25 x26 x27 x28 x29 x30 x31 x32 x33 x34 x35 x36 x37
    x38 x39 x40 x41.
Definition set_Extended (v : bool) (r : Result) : Result :=
  let 'mkResult x0 x1 x2 x3 x4 x5 x6 x7 x8 x9 x10 x11 x12 x13 _ x15 x16 x17
    x18 x19 x20 x21 x22 x23 x24 x25 x26 x27 x28 x29 x30 x31 x32 x33 x34 x35
    x36 x37 x38 x39 x40 x41 := r in
  mkResult x0 x1 x2 x3 x4 x5 x6 x7 x8 x9 x10 x11 x12 x13 v x15 x16 x17 x18 x19
    x20 x21 x22 x23 x24 x25 x26 x27 x28 x29 x30 x31 x32 x33 x34 x35 x36 x37
    x38 x39 x40 x41.
Definition set_Extension (v : string) (r : Result) : Result :=
  let 'mkResult x0 x1 x2 x3 x4 x5 x6 x7 x8 x9 x10 x11 x12 x13 x14 _ x16 x17
    x18 x19 x20 x21 x22 x23 x24 x25 x26 x27 x28 x29 x30 x31 x32 x33 x34 x35
    x36 x37 x38 x39 x40 x41 := r in
  mkResult x0 x1 x2 x3 x4 x5 x6 x7 x8 x9 x10 x11 x12 x13 x14 v x16 x17 x18 x19
    x20 x21 x22 x23 x24 x25 x26 x27 x28 x29 x30 x31 x32 x33 x34 x35 x36 x37
    x38 x39 x40 x41.
Definition set_Group (v : string) (r : Result) : Result :=
  let 'mkResult x0 x1 x2 x3 x4 x5 x6 x7 x8 x9 x10 x11 x12 x13 x14 x15 _ x17
    x18 x19 x20 x21 x22 x23 x24 x25 x26 x27 x28 x29 x30 x31 x32 x33 x34 x35
    x36 x37 x38 x39 x40 x41 := r in
  mkResult x0 x1 x2 x3 x4 x5 x6 x7 x8 x9 x10 x11 x12 x13 x14 x15 v x17 x18 x19
    x20 x21 x22 x23 x24 x25 x26 x27 x28 x29 x30 x31 x32 x33 x34 x35 x36 x37
    x38 x39 x40 x41.
Definition set_HDR (v : list string) (r : Result) : Result :=
  let 'mkResult x0 x1 x2 x3 x4 x5 x6 x7 x8 x9 x10 x11 x12 x13 x14 x15 x16 _
    x18 x19 x20 x21 x22 x23 x24 x25 x26 x27 x28 x29 x30 x31 x32 x33 x34 x35
    x36 x37 x38 x39 x40 x41 := r in
  mkResult x0 x1 x2 x3 x4 x5 x6 x7 x8 x9 x10 x11 x12 x13 x14 x15 x16 v x18 x19
    x20 x21 x22 x23 x24 x25 x26 x27 x28 x29 x30 x31 x32 x33 x34 x35 x36 x37
    x38 x39 x40 x41.
Definition set_Hardcoded (v : bool) (r : Result) : Result :=
  let 'mkResult x0 x1 x2 x3 x4 x5 x6 x7 x8 x9 x10 x11 x12 x13 x14 x15 x16 x17
    _ x19 x20 x21 x22 x23 x24 x25 x26 x27 x28 x29 x30 x31 x32 x33 x34 x35 x36
    x37 x38 x39 x40 x41 := r in
  mkResult x0 x1 x2 x3 x4 x5 x6 x7 x8 x9 x10 x11 x12 x13 x14 x15 x16 x17 v x19
    x20 x21 x22 x23 x24 x25 x26 x27 x28 x29 x30 x31 x32 x33 x34 x35 x36 x37
    x38 x39 x40 x41.
Definition set_Languages (v : list string) (r : Result) : Result :=
  let 'mkResult x0 x1 x2 x3 x4 x5 x6 x7 x8 x9 x10 x11 x12 x13 x14 x15 x16 x17
    x18 _ x20 x21 x22 x23 x24 x25 x26 x27 x28 x29 x30 x31 x32 x33 x34 x35 x36
    x37 x38 x39 x40 x41 := r in
  mkResult x0 x1 x2 x3 x4 x5 x6 x7 x8 x9 x10 x11 x12 x13 x14 x15 x16 x17 x18 v
    x20 x21 x22 x23 x24 x25 x26 x27 x28 x29 x30 x31 x32 x33 x34 x35 x36 x37
    x38 x39 x40 x41.
Definition set_Network (v : string) (r : Result) : Result :=
  let 'mkResult x0 x1 x2 x3 x4 x5 x6 x7 x8 x9 x10 x11 x12 x13 x14 x15 x16 x17
    x18 x19 _ x21 x22 x23 x24 x25 x26 x27 x28 x29 x30 x31 x32 x33 x34 x35 x36
    x37 x38 x39 x40 x41 := r in
  mkResult x0 x1 x2 x3 x4 x5 x6 x7 x8 x9 x10 x11 x12 x13 x14 x15 x16 x17 x18
    x19 v x21 x22 x23 x24 x25 x26 x27 x28 x29 x30 x31 x32 x33 x34 x35 x36 x37
    x38 x39 x40 x41.
Definition set_Proper (v : bool) (r : Result) : Result :=
  let 'mkResult x0 x1 x2 x3 x4 x5 x6 x7 x8 x9 x10 x11 x12 x13 x14 x15 x16 x17
    x18 x19 x20 _ x22 x23 x24 x25 x26 x27 x28 x29 x30 x31 x32 x33 x34 x35 x36
    x37 x38 x39 x40 x41 := r in
  mkResult x0 x1 x2 x3 x4 x5 x6 x7 x8 x9 x10 x11 x12 x13 x14 x15 x16 x17 x18
    x19 x20 v x22 x23 x24 x25 x26 x27 x28 x29 x30 x31 x32 x33 x34 x35 x36 x37
    x38 x39 x40 x41.
Definition set_Quality (v : string) (r : Result) : Result :=
  let 'mkResult x0 x1 x2 x3 x4 x5 x6 x7 x8 x9 x10 x11 x12 x13 x14 x15 x16 x17
    x18 x19 x20 x21 _ x23 x24 x25 x26 x27 x28 x29 x30 x31 x32 x33 x34 x35 x36
    x37 x38 x39 x40 x41 := r in
  mkResult x0 x1 x2 x3 x4 x5 x6 x7 x8 x9 x10 x11 x12 x13 x14 x15 x16 x17 x18
    x19 x20 x21 v x23 x24 x25 x26 x27 x28 x29 x30 x31 x32 x33 x34 x35 x36 x37
    x38 x39 x40 x41.
Definition set_Region (v : string) (r : Result) : Result :=
  let 'mkResult x0 x1 x2 x3 x4 x5 x6 x7 x8 x9 x10 x11 x12 x13 x14 x15 x16 x17
    x18 x19 x20 x21 x22 _ x24 x25 x26 x27 x28 x29 x30 x31 x32 x33 x34 x35 x36
    x37 x38 x39 x40 x41 := r in
  mkResult x0 x1 x2 x3 x4 x5 x6 x7 x8 x9 x10 x11 x12 x13 x14 x15 x16 x17 x18
    x19 x20 x21 x22 v x24 x25 x26 x27 x28 x29 x30 x31 x32 x33 x34 x35 x36 x37
    x38 x39 x40 x41.
Definition set_ReleaseTypes (v : list string) (r : Result) : Result :=
  let 'mkResult x0 x1 x2 x3 x4 x5 x6 x7 x8 x9 x10 x11 x12 x13 x14 x15 x16 x17
    x18 x19 x20 x21 x22 x23 _ x25 x26 x27 x28 x29 x30 x31 x32 x33 x34 x35 x36
    x37 x38 x39 x40 x41 := r in
  mkResult x0 x1 x2 x3 x4 x5 x6 x7 x8 x9 x10 x11 x12 x13 x14 x15 x16 x17 x18
    x19 x20 x21 x22 x23 v x25 x26 x27 x28 x29 x30 x31 x32 x33 x34 x35 x36 x37
    x38 x39 x40 x41.
Definition set_Remastered (v : bool) (r : Result) : Result :=
  let 'mkResult x0 x1 x2 x3 x4 x5 x6 x7 x8 x9 x10 x11 x12 x13 x14 x15 x16 x17
    x18 x19 x20 x21 x22 x23 x24 _ x26 x27 x28 x29 x30 x31 x32 x33 x34 x35 x36
    x37 x38 x39 x40 x41 := r in
  mkResult x0 x1 x2 x3 x4 x5 x6 x7 x8 x9 x10 x11 x12 x13 x14 x15 x16 x17 x18
    x19 x20 x21 x22 x23 x24 v x26 x27 x28 x29 x30 x31 x32 x33 x34 x35 x36 x37
    x38 x39 x40 x41.
Definition set_Repack (v : bool) (r : Result) : Result :=
  let 'mkResult x0 x1 x2 x3 x4 x5 x6 x7 x8 x9 x10 x11 x12 x13 x14 x15 x16 x17
    x18 x19 x20 x21 x22 x23 x24 x25 _ x27 x28 x29 x30 x31 x32 x33 x34 x35 x36
    x37 x38 x39 x40 x41 := r in
  mkResult x0 x1 x2 x3 x4 x5 x6 x7 x8 x9 x10 x11 x12 x13 x14 x15 x16 x17 x18
    x19 x20 x21 x22 x23 x24 x25 v x27 x28 x29 x30 x31 x32 x33 x34 x35 x36 x37
    x38 x39 x40 x41.
Definition set_Resolution (v : string) (r : Result) : Result :=
  let 'mkResult x0 x1 x2 x3 x4 x5 x6 x7 x8 x9 x10 x11 x12 x13 x14 x15 x16 x17
    x18 x19 x20 x21 x22 x23 x24 x25 x26 _ x28 x29 x30 x31 x32 x33 x34 x35 x36
    x37 x38 x39 x40 x41 := r in
  mkResult x0 x1 x2 x3 x4 x5 x6 x7 x8 x9 x10 x11 x12 x13 x14 x15 x16 x17 x18
    x19 x20 x21 x22 x23 x24 x25 x26 v x28 x29 x30 x31 x32 x33 x34 x35 x36 x37
    x38 x39 x40 x41.
Definition set_Retail (v : bool) (r : Result) : Result :=
  let 'mkResult x0 x1 x2 x3 x4 x5 x6 x7 x8 x9 x10 x11 x12 x13 x14 x15 x16 x17
    x18 x19 x20 x21 x22 x23 x24 x25 x26 x27 _ x29 x30 x31 x32 x33 x34 x35 x36
    x37 x38 x39 x40 x41 := r in
  mkResult x0 x1 x2 x3 x4 x5 x6 x7 x8 x9 x10 x11 x12 x13 x14 x15 x16 x17 x18
    x19 x20 x21 x22 x23 x24 x25 x26 x27 v x29 x30 x31 x32 x33 x34 x35 x36 x37
    x38 x39 x40 x41.
Definition set_Seasons (v : list Z) (r : Result) : Result :=
  let 'mkResult x0 x1 x2 x3 x4 x5 x6 x7 x8 x9 x10 x11 x12 x13 x14 x15 x16 x17
    x18 x19 x20 x21 x22 x23 x24 x25 x26 x27 x28 _ x30 x31 x32 x33 x34 x35 x36
    x37 x38 x39 x40 x41 := r in
  mkResult x0 x1 x2 x3 x4 x5 x6 x7 x8 x9 x10 x11 x12 x13 x14 x15 x16 x17 x18
    x19 x20 x21 x22 x23 x24 x25 x26 x27 x28 v x30 x31 x32 x33 x34 x35 x36 x37
    x38 x39 x40 x41.
Definition set_Site (v : string) (r : Result) : Result :=
  let 'mkResult x0 x1 x2 x3 x4 x5 x6 x7 x8 x9 x10 x11 x12 x13 x14 x15 x16 x17
    x18 x19 x20 x21 x22 x23 x24 x25 x26 x27 x28 x29 _ x31 x32 x33 x34 x35 x36
    x37 x38 x39 x40 x41 := r in
  mkResult x0 x1 x2 x3 x4 x5 x6 x7 x8 x9 x10 x11 x12 x13 x14 x15 x16 x17 x18
    x19 x20 x21 x22 x23 x24 x25 x26 x27 x28 x29 v x31 x32 x33 x34 x35 x36 x37
    x38 x39 x40 x41.
Definition set_Size (v : string) (r : Result) : Result :=
  let 'mkResult x0 x1 x2 x3 x4 x5 x6 x7 x8 x9 x10 x11 x12 x13 x14 x15 x16 x17
    x18 x19 x20 x21 x22 x23 x24 x25 x26 x27 x28 x29 x30 _ x32 x33 x34 x35 x36
    x37 x38 x39 x40 x41 := r in
  mkResult x0 x1 x2 x3 x4 x5 x6 x7 x8 x9 x10 x11 x12 x13 x14 x15 x16 x17 x18
    x19 x20 x21 x22 x23 x24 x25 x26 x27 x28 x29 x30 v x32 x33 x34 x35 x36 x37
    x38 x39 x40 x41.
Definition set_Subbed (v : bool) (r : Result) : Result :=
  let 'mkResult x0 x1 x2 x3 x4 x5 x6 x7 x8 x9 x10 x11 x12 x13 x14 x15 x16 x17
    x18 x19 x20 x21 x22 x23 x24 x25 x26 x27 x28 x29 x30 x31 _ x33 x34 x35 x36
    x37 x38 x39 x40 x41 := r in
  mkResult x0 x1 x2 x3 x4 x5 x6 x7 x8 x9 x10 x11 x12 x13 x14 x15 x16 x17 x18
    x19 x20 x21 x22 x23 x24 x25 x26 x27 x28 x29 x30 x31 v x33 x34 x35 x36 x37
    x38 x39 x40 x41.
Definition set_ThreeD (v : string) (r : Result) : Result :=
  let 'mkResult x0 x1 x2 x3 x4 x5 x6 x7 x8 x9 x10 x11 x12 x13 x14 x15 x16 x17
    x18 x19 x20 x21 x22 x23 x24 x25 x26 x27 x28 x29 x30 x31 x32 _ x34 x35 x36
    x37 x38 x39 x40 x41 := r in
  mkResult x0 x1 x2 x3 x4 x5 x6 x7 x8 x9 x10 x11 x12 x13 x14 x15 x16 x17 x18
    x19 x20 x21 x22 x23 x24 x25 x26 x27 x28 x29 x30 x31 x32 v x34 x35 x36 x37
    x38 x39 x40 x41.
Definition set_Title (v : string) (r : Result) : Result :=
  let 'mkResult x0 x1 x2 x3 x4 x5 x6 x7 x8 x9 x10 x11 x12 x13 x14 x15 x16 x17
    x18 x19 x20 x21 x22 x23 x24 x25 x26 x27 x28 x29 x30 x31 x32 x33 _ x35 x36
    x37 x38 x39 x40 x41 := r in
  mkResult x0 x1 x2 x3 x4 x5 x6 x7 x8 x9 x10 x11 x12 x13 x14 x15 x16 x17 x18
    x19 x20 x21 x22 x23 x24 x25 x26 x27 x28 x29 x30 x31 x32 x33 v x35 x36 x37
    x38 x39 x40 x41.
Definition set_Uncensored (v : bool) (r : Result) : Result :=
  let 'mkResult x0 x1 x2 x3 x4 x5 x6 x7 x8 x9 x10 x11 x12 x13 x14 x15 x16 x17
    x18 x19 x20 x21 x22 x23 x24 x25 x26 x27 x28 x29 x30 x31 x32 x33 x34 _ x36
    x37 x38 x39 x40 x41 := r in
  mkResult x0 x1 x2 x3 x4 x5 x6 x7 x8 x9 x10 x11 x12 x13 x14 x15 x16 x17 x18
    x19 x20 x21 x22 x23 x24 x25 x26 x27 x28 x29 x30 x31 x32 x33 x34 v x36 x37
    x38 x39 x40 x41.
Definition set_Unrated (v : bool) (r : Result) : Result :=
  let 'mkResult x0 x1 x2 x3 x4 x5 x6 x7 x8 x9 x10 x11 x12 x13 x14 x15 x16 x17
    x18 x19 x20 x21 x22 x23 x24 x25 x26 x27 x28 x29 x30 x31 x32 x33 x34 x35 _
    x37 x38 x39 x40 x41 := r in
  mkResult x0 x1 x2 x3 x4 x5 x6 x7 x8 x9 x10 x11 x12 x13 x14 x15 x16 x17 x18
    x19 x20 x21 x22 x23 x24 x25 x26 x27 x28 x29 x30 x31 x32 x33 x34 x35 v x37
    x38 x39 x40 x41.
Definition set_Upscaled (v : bool) (r : Result) : Result :=
  let 'mkResult x0 x1 x2 x3 x4 x5 x6 x7 x8 x9 x10 x11 x12 x13 x14 x15 x16 x17
    x18 x19 x20 x21 x22 x23 x24 x25 x26 x27 x28 x29 x30 x31 x32 x33 x34 x35
    x36 _ x38 x39 x40 x41 := r in
  mkResult x0 x1 x2 x3 x4 x5 x6 x7 x8 x9 x10 x11 x12 x13 x14 x15 x16 x17 x18
    x19 x20 x21 x22 x23 x24 x25 x26 x27 x28 x29 x30 x31 x32 x33 x34 x35 x36 v
    x38 x39 x40 x41.
Definition set_Volumes (v : list Z) (r : Result) : Result :=
  let 'mkResult x0 x1 x2 x3 x4 x5 x6 x7 x8 x9 x10 x11 x12 x13 x14 x15 x16 x17
    x18 x19 x20 x21 x22 x23 x24 x25 x26 x27 x28 x29 x30 x31 x32 x33 x34 x35
    x36 x37 _ x39 x40 x41 := r in
  mkResult x0 x1 x2 x3 x4 x5 x6 x7 x8 x9 x10 x11 x12 x13 x14 x15 x16 x17 x18
    x19 x20 x21 x22 x23 x24 x25 x26 x27 x28 x29 x30 x31 x32 x33 x34 x35 x36
    x37 v x39 x40 x41.
Definition set_Year (v : string) (r : Result) : Result :=
  let 'mkResult x0 x1 x2 x3 x4 x5 x6 x7 x8 x9 x10 x11 x12 x13 x14 x15 x16 x17
    x18 x19 x20 x21 x22 x23 x24 x25 x26 x27 x28 x29 x30 x31 x32 x33 x34 x35
    x36 x37 x38 _ x40 x41 := r in
  mkResult x0 x1 x2 x3 x4 x5 x6 x7 x8 x9 x10 x11 x12 x13 x14 x15 x16 x17 x18
    x19 x20 x21 x22 x23 x24 x25 x26 x27 x28 x29 x30 x31 x32 x33 x34 x35 x36
    x37 x38 v x40 x41.
Definition set_err (v : option string) (r : Result) : Result :=
  let 'mkResult x0 x1 x2 x3 x4 x5 x6 x7 x8 x9 x10 x11 x12 x13 x14 x15 x16 x17
    x18 x19 x20 x21 x22 x23 x24 x25 x26 x27 x28 x29 x30 x31 x32 x33 x34 x35
    x36 x37 x38 x39 _ x41 := r in
  mkResult x0 x1 x2 x3 x4 x5 x6 x7 x8 x9 x10 x11 x12 x13 x14 x15 x16 x17 x18
    x19 x20 x21 x22 x23 x24 x25 x26 x27 x28 x29 x30 x31 x32 x33 x34 x35 x36
    x37 x38 x39 v x41.
Definition set_is_normalized (v : bool) (r : Result) : Result :=
  let 'mkResult x0 x1 x2 x3 x4 x5 x6 x7 x8 x9 x10 x11 x12 x13 x14 x15 x16 x17
    x18 x19 x20 x21 x22 x23 x24 x25 x26 x27 x28 x29 x30 x31 x32 x33 x34 x35
    x36 x37 x38 x39 x40 _ := r in
  mkResult x0 x1 x2 x3 x4 x5 x6 x7 x8 x9 x10 x11 x12 x13 x14 x15 x16 x17 x18
    x19 x20 x21 x22 x23 x24 x25 x26 x27 x28 x29 x30 x31 x32 x33 x34 x35 x36
    x37 x38 x39 x40 v.

(** The cases of the [switch field] that fills the record. *)
Inductive slot : Type :=
  | SAudio | SBitDepth | SChannels | SCodec | SCommentary | SComplete |
  SContainer | SConvert | SDate | SDocumentary | SDubbed | SEdition |
  SEpisodeCode | SEpisodes | SExtended | SExtension | SGroup | SHardcoded |
  SHDR | SLanguages | SNetwork | SProper | SRegion | SRemastered | SRepack |
  SResolution | SRetail | SSeasons | SSize | SSite | SQuality | SReleaseTypes
  | SSubbed | SThreeD | SUncensored | SUnrated | SUpscaled | SVolumes | SYear.

Definition slot_name (s : slot) : string :=
  match s with
  | SAudio => "audio"
  | SBitDepth => "bitDepth"
  | SChannels => "channels"
  | SCodec => "codec"
  | SCommentary => "commentary"
  | SComplete => "complete"
  | SContainer => "container"
  | SConvert => "convert"
  | SDate => "date"
  | SDocumentary => "documentary"
  | SDubbed => "dubbed"
  | SEdition => "edition"
  | SEpisodeCode => "episodeCode"
  | SEpisodes => "episodes"
  | SExtended => "extended"
  | SExtension => "extension"
  | SGroup => "group"
  | SHardcoded => "hardcoded"
  | SHDR => "hdr"
  | SLanguages => "languages"
  | SNetwork => "network"
  | SProper => "proper"
  | SRegion => "region"
  | SRemastered => "remastered"
  | SRepack => "repack"
  | SResolution => "resolution"
  | SRetail => "retail"
  | SSeasons => "seasons"
  | SSize => "size"
  | SSite => "site"
  | SQuality => "quality"
  | SReleaseTypes => "releaseTypes"
  | SSubbed => "subbed"
  | SThreeD => "threeD"
  | SUncensored => "uncensored"
  | SUnrated => "unrated"
  | SUpscaled => "upscaled"
  | SVolumes => "volumes"
  | SYear => "year"
  end.

Definition slot_of_field (field : string) : option slot :=
  if String.eqb field "audio" then Some SAudio
  else if String.eqb field "bitDepth" then Some SBitDepth
  else if String.eqb field "channels" then Some SChannels
  else if String.eqb field "codec" then Some SCodec
  else if String.eqb field "commentary" then Some SCommentary
  else if String.eqb field "complete" then Some SComplete
  else if String.eqb field "container" then Some SContainer
  else if String.eqb field "convert" then Some SConvert
  else if String.eqb field "date" then Some SDate
  else if String.eqb field "documentary" then Some SDocumentary
  else if String.eqb field "dubbed" then Some SDubbed
  else if String.eqb field "edition" then Some SEdition
  else if String.eqb field "episodeCode" then Some SEpisodeCode
  else if String.eqb field "episodes" then Some SEpisodes
  else if String.eqb field "extended" then Some SExtended
  else if String.eqb field "extension" then Some SExtension
  else if String.eqb field "group" then Some SGroup
  else if String.eqb field "hardcoded" then Some SHardcoded
  else if String.eqb field "hdr" then Some SHDR
  else if String.eqb field "languages" then Some SLanguages
  else if String.eqb field "network" then Some SNetwork
  else if String.eqb field "proper" then Some SProper
  else if String.eqb field "region" then Some SRegion
  else if String.eqb field "remastered" then Some SRemastered
  else if String.eqb field "repack" then Some SRepack
  else if String.eqb field "resolution" then Some SResolution
  else if String.eqb field "retail" then Some SRetail
  else if String.eqb field "seasons" then Some SSeasons
  else if String.eqb field "size" then Some SSize
  else if String.eqb field "site" then Some SSite
  else if String.eqb field "quality" then Some SQuality
  else if String.eqb field "releaseTypes" then Some SReleaseTypes
  else if String.eqb field "subbed" then Some SSubbed
  else if String.eqb field "threeD" then Some SThreeD
  else if String.eqb field "uncensored" then Some SUncensored
  else if String.eqb field "unrated" then Some SUnrated
  else if String.eqb field "upscaled" then Some SUpscaled
  else if String.eqb field "volumes" then Some SVolumes
  else if String.eqb field "year" then Some SYear
  else None.

Definition conversion_panic {A : Type} : exec A :=
  Panic (RuntimeError "interface conversion").

(** The body of a case: the type assertion on [v], then the assignment. *)
Definition assign (s : slot) (v : any) (r : Result) : exec Result :=
  match s, v with
  | SAudio, ValueSet x => Ok (set_Audio x r)
  | SBitDepth, Str x => Ok (set_BitDepth x r)
  | SChannels, ValueSet x => Ok (set_Channels x r)
  | SCodec, Str x => Ok (set_Codec x r)
  | SCommentary, Bool x => Ok (set_Commentary x r)
  | SComplete, Bool x => Ok (set_Complete x r)
  | SContainer, Str x => Ok (set_Container x r)
  | SConvert, Bool x => Ok (set_Convert x r)
  | SDate, Str x => Ok (set_Date x r)
  | SDocumentary, Bool x => Ok (set_Documentary x r)
  | SDubbed, Bool x => Ok (set_Dubbed x r)
  | SEdition, Str x => Ok (set_Edition x r)
  | SEpisodeCode, Str x => Ok (set_EpisodeCode x r)
  | SEpisodes, Ints x => Ok (set_Episodes x r)
  | SExtended, Bool x => Ok (set_Extended x r)
  | SExtension, Str x => Ok (set_Extension x r)
  | SGroup, Str x => Ok (set_Group x r)
  | SHardcoded, Bool x => Ok (set_Hardcoded x r)
  | SHDR, ValueSet x => Ok (set_HDR x r)
  | SLanguages, ValueSet x => Ok (set_Languages x r)
  | SNetwork, Str x => Ok (set_Network x r)
  | SProper, Bool x => Ok (set_Proper x r)
  | SRegion, Str x => Ok (set_Region x r)
  | SRemastered, Bool x => Ok (set_Remastered x r)
  | SRepack, Bool x => Ok (set_Repack x r)
  | SResolution, Str x => Ok (set_Resolution x r)
  | SRetail, Bool x => Ok (set_Retail x r)
  | SSeasons, Ints x => Ok (set_Seasons x r)
  | SSize, Str x => Ok (set_Size x r)
  | SSite, Str x => Ok (set_Site x r)
  | SQuality, Str x => Ok (set_Quality x r)
  | SReleaseTypes, ValueSet x => Ok (set_ReleaseTypes x r)
  | SSubbed, Bool x => Ok (set_Subbed x r)
  | SThreeD, Str x => Ok (set_ThreeD x r)
  | SUncensored, Bool x => Ok (set_Uncensored x r)
  | SUnrated, Bool x => Ok (set_Unrated x r)
  | SUpscaled, Bool x => Ok (set_Upscaled x r)
  | SVolumes, Ints x => Ok (set_Volumes x r)
  | SYear, Str x => Ok (set_Year x r)
  | _, _ => conversion_panic
  end.

(** The field a case writes, read back as an [any]. *)
Definition get (s : slot) (r : Result) : any :=
  match s with
  | SAudio => ValueSet (Audio r)
  | SBitDepth => Str (BitDepth r)
  | SChannels => ValueSet (Channels r)
  | SCodec => Str (Codec r)
  | SCommentary => Bool (Commentary r)
  | SComplete => Bool (Complete r)
  | SContainer => Str (Container r)
  | SConvert => Bool (Convert r)
  | SDate => Str (Date r)
  | SDocumentary => Bool (Documentary r)
  | SDubbed => Bool (Dubbed r)
  | SEdition => Str (Edition r)
  | SEpisodeCode => Str (EpisodeCode r)
  | SEpisodes => Ints (Episodes r)
  | SExtended => Bool (Extended r)
  | SExtension => Str (Extension r)
  | SGroup => Str (Group r)
  | SHardcoded => Bool (Hardcoded r)
  | SHDR => ValueSet (HDR r)
  | SLanguages => ValueSet (Languages r)
  | SNetwork => Str (Network r)
  | SProper => Bool (Proper r)
  | SRegion => Str (Region r)
  | SRemastered => Bool (Remastered r)
  | SRepack => Bool (Repack r)
  | SResolution => Str (Resolution r)
  | SRetail => Bool (Retail r)
  | SSeasons => Ints (Seasons r)
  | SSize => Str (Size r)
  | SSite => Str (Site r)
  | SQuality => Str (Quality r)
  | SReleaseTypes => ValueSet (ReleaseTypes r)
  | SSubbed => Bool (Subbed r)
  | SThreeD => Str (ThreeD r)
  | SUncensored => Bool (Uncensored r)
  | SUnrated => Bool (Unrated r)
  | SUpscaled => Bool (Upscaled r)
  | SVolumes => Ints (Volumes r)
  | SYear => Str (Year r)
  end.

(** ** The rule engine of [ptt.go] *)

(** [before_title_regex.FindString(title)] for [^\[([^[\]]+)]]: the leading
    bracketed segment, or the empty string. *)
Fixpoint bracket_free_prefix (s : string) : string * string :=
  match s with
  | EmptyString => ("", "")
  | String c r =>
      if Ascii.eqb c "[" || Ascii.eqb c "]" then ("", s)
      else let '(p, rest) := bracket_free_prefix r in (String c p, rest)
  end.

Definition before_title_FindString (title : string) : string :=
  match title with
  | String "[" r =>
      match bracket_free_prefix r with
      | (String c p, String "]" _) => "[" +:+ String c p +:+ "]"
      | _ => ""
      end
  | _ => ""
  end.

(** The variables of the loop that outlive one rule. *)
Record loop_state : Type := mkState {
  title : string;
  result : resmap;
  endOfTitle : Z
}.

(** How the evaluation of one rule ends: [continue], or a match that goes on
    to title mutation and boundary tracking, with the cell [m] of the field
    and the [skipFromTitle] of this application. *)
Inductive verdict : Type :=
  | Continue (st : loop_state)
  | Survive (st : loop_state) (m : parseMeta) (skipFromTitle : bool).

(** What a call of [parse] does: it returns a record, or a panic leaves it. *)
Inductive outcome : Type :=
  | Returned (r : Result)
  | Propagated (p : panic_value).

Module Go.

(** The skip-if-first loop: [(hasOther, hasBefore)] after ranging over the
    entries, leaving at the first other field at or before [idx0]. *)
Fixpoint skip_if_first_loop (entries : list (string * parseMeta))
    (field : string) (idx0 : Z) (hasOther hasBefore : bool) : bool * bool :=
  match entries with
  | [] => (hasOther, hasBefore)
  | (f, fm) :: rest =>
      if negb (String.eqb f field) then
        if idx0 >=? mIndex fm then (true, true)
        else skip_if_first_loop rest field idx0 true hasBefore
      else skip_if_first_loop rest field idx0 hasOther hasBefore
  end.

Definition skip_if_first (entries : list (string * parseMeta))
    (field : string) (idx0 : Z) : bool :=
  let '(hasOther, hasBefore) :=
    skip_if_first_loop entries field idx0 false false in
  hasOther && negb hasBefore.

(** The skip-if-before loop. *)
Fixpoint skip_if_before (result : resmap) (fields : list string) (idx0 : Z)
  : bool :=
  match fields with
  | [] => false
  | skipField :: rest =>
      match result !! skipField with
      | Some fm =>
          if idx0 <? mIndex fm then true
          else skip_if_before result rest idx0
      | None => skip_if_before result rest idx0
      end
  end.

Section Engine.

Section Turn.

Variable order : turn_order.

(** Group extraction and field state update, the end of the part of the loop
    body guarded by [handler.Pattern != nil]: the cell of the field, the map
    and the [skipFromTitle] of this application. *)
Definition record_match (h : handler) (st : loop_state) (idxs : list Z)
    (idx0 : Z) : exec (option (parseMeta * resmap * bool)) :=
  let field := Field h in
  let title := title st in
  let m := result st !! field in
  let n := Z.of_nat (List.length idxs) in
  idx1 ← index idxs 1;
  rawMatchedPart ← slice title idx0 idx1;
  matchedPart ←
    (if 2 <? n then
       if ValueGroup h =? 0 then
         lo ← index idxs 2; hi ← index idxs 3; slice title lo hi
       else if ValueGroup h * 2 <? n then
         lo ← index idxs (ValueGroup h * 2);
         hi ← index idxs (ValueGroup h * 2 + 1);
         slice title lo hi
       else Ok rawMatchedPart
     else Ok rawMatchedPart);
  let skipFromTitle :=
    if strings_Contains (before_title_FindString title) rawMatchedPart
    then true else SkipFromTitle h in
  let m :=
    match m with
    | Some m => m
    | None =>
        if has_value_set field then set_value (ValueSet []) blank else blank
    end in
  let m := set_mValue rawMatchedPart (set_mIndex idx0 m) in
  let m := if has_value_set field then m else set_value (Str matchedPart) m in
  m ← (if MatchGroup h =? 0 then Ok m else
         lo ← index idxs (MatchGroup h * 2);
         hi ← index idxs (MatchGroup h * 2 + 1);
         part ← slice title lo hi;
         Ok (set_mValue part (set_mIndex lo m)));
  Ok (Some (m, <[field := m]> (result st), skipFromTitle)).

(** The part of the loop body guarded by [handler.Pattern != nil]: [None] is
    [continue]. *)
Definition match_pattern (h : handler) (re : string -> list Z)
    (st : loop_state) : exec (option (parseMeta * resmap * bool)) :=
  let field := Field h in
  let title := title st in
  let m := result st !! field in
  if bool_decide (is_Some m) && negb (KeepMatching h) then Ok None else
  let idxs := re title in
  let n := Z.of_nat (List.length idxs) in
  if n =? 0 then Ok None else
  valid ← match ValidateMatch h with
          | Some validate => validate title idxs
          | None => Ok true
          end;
  if negb valid then Ok None else
  idx0 ← index idxs 0;
  if SkipIfFirst h
     && skip_if_first (order SkipIfFirstRange (result st)) field idx0
  then Ok None else
  if skip_if_before (result st) (SkipIfBefore h) idx0 then Ok None else
  record_match h st idxs idx0.

(** The loop body up to and including the second [continue] test. *)
Definition evaluate (h : handler) (st : loop_state) : exec verdict :=
  let field := Field h in
  matched ← match Pattern h with
            | Some re =>
                r ← match_pattern h re st;
                Ok (match r with
                    | Some (m, result, skip) => Some (Some m, result, skip)
                    | None => None
                    end)
            | None => Ok (Some (result st !! field, result st, SkipFromTitle h))
            end;
  match matched with
  | None => Ok (Continue st)
  | Some (m, result, skipFromTitle) =>
      '(m, mFound, result) ←
        match Process h with
        | Some process =>
            match m with
            | Some m =>
                '(m, result) ←
                  process (order ProcessorRange) (title st) m result;
                Ok (Some m, true, <[field := m]> result)
            | None =>
                '(m, result) ←
                  process (order ProcessorRange) (title st) blank result;
                if negb (is_nil (value m))
                then Ok (Some m, true, <[field := m]> result)
                else Ok (Some m, false, result)
            end
        | None => Ok (m, bool_decide (is_Some m), result)
        end;
      match m with
      | None => Panic (RuntimeError "nil pointer dereference")
      | Some m =>
          '(m, result) ←
            match Transform h with
            | Some transform =>
                if negb (is_nil (value m)) then
                  '(m, result) ← transform (title st) m result;
                  Ok (m, <[field := m]> result)
                else Ok (m, result)
            | None => Ok (m, result)
            end;
          if is_nil (value m)
          then Ok (Continue (mkState (title st) (delete field result)
                                     (endOfTitle st)))
          else if negb mFound
                  || (processed m && negb (KeepMatching h)
                      && negb (has_value_set field))
          then Ok (Continue (mkState (title st) result (endOfTitle st)))
          else Ok (Survive (mkState (title st) result (endOfTitle st))
                           m skipFromTitle)
      end
  end.

(** Title boundary tracking: the two [if]s on [endOfTitle]. [m] is the cell
    after title mutation, so [remove m] tells whether its text was removed. *)
Definition track_boundary (skipFromTitle : bool) (m : parseMeta)
    (endOfTitle : Z) : Z :=
  let endOfTitle :=
    if negb skipFromTitle && negb (mIndex m =? 0) && (mIndex m <? endOfTitle)
    then mIndex m else endOfTitle in
  if remove m && skipFromTitle && (mIndex m <? endOfTitle)
  then wrap (endOfTitle - slen (mValue m)) else endOfTitle.

(** The rest of the loop body: title mutation, boundary tracking, finalize. *)
Definition commit (h : handler) (st : loop_state) (m : parseMeta)
    (skipFromTitle : bool) : exec loop_state :=
  '(m, title) ←
    (if Remove h || remove m then
       before ← slice (title st) 0 (mIndex m);
       after ← slice (title st) (wrap (mIndex m + slen (mValue m)))
                     (slen (title st));
       Ok (set_remove true m, before +:+ after)
     else Ok (m, title st));
  let endOfTitle := track_boundary skipFromTitle m (endOfTitle st) in
  let m := set_processed true (set_remove false m) in
  Ok (mkState title (<[Field h := m]> (result st)) endOfTitle).

(** One turn of [for _, handler := range handlers]. *)
Definition step (h : handler) (st : loop_state) : exec loop_state :=
  v ← evaluate h st;
  match v with
  | Continue st => Ok st
  | Survive st m skipFromTitle => commit h st m skipFromTitle
  end.

End Turn.

Variable orders : parse_order.

(** [for _, handler := range handlers], from the turn of position [i] on. *)
Fixpoint run_handlers (i : nat) (handlers : list handler) (st : loop_state)
  : exec loop_state :=
  match handlers with
  | [] => Ok st
  | h :: rest =>
      st ← step (turn_ranges orders i) h st; run_handlers (S i) rest st
  end.

(** The statements of [parse] before the loop. *)
Definition init_state (input : string) : loop_state :=
  let title := whitespaces_ReplaceAll input " " in
  let title := underscores_ReplaceAll title " " in
  mkState title ∅ (slen title).

Definition run_rules (input : string) (handlers : list handler)
  : exec loop_state :=
  run_handlers 0 handlers (init_state input).

(** The loop that copies the map into the record: it stops at the first
    failed type assertion, with the fields assigned so far. *)
Fixpoint assemble (entries : list (string * parseMeta)) (r : Result)
  : Result * option panic_value :=
  match entries with
  | [] => (r, None)
  | (field, fieldMeta) :: rest =>
      match slot_of_field field with
      | Some s =>
          match assign s (value fieldMeta) r with
          | Ok r => assemble rest r
          | Panic p => (r, Some p)
          end
      | None => assemble rest r
      end
  end.

Variable clean_title : string -> string.

(** The deferred function: a recovered value that is an [error] goes to
    [r.err], any other value is raised again. *)
Definition recover (r : Result) (p : panic_value) : outcome :=
  match p with
  | RuntimeError e => Returned (set_err (Some e) r)
  | PanicOther _ => Propagated p
  end.

Definition parse (input : string) (handlers : list handler) : outcome :=
  match run_rules input handlers with
  | Panic p => recover zero_Result p
  | Ok st =>
      match assemble (assembly_range orders (result st)) zero_Result with
      | (r, Some p) => recover r p
      | (r, None) =>
          let hi := Z.max (Z.min (endOfTitle st) (slen (title st))) 0 in
          match slice (title st) 0 hi with
          | Ok prefix => Returned (set_Title (clean_title prefix) r)
          | Panic p => recover r p
          end
      end
  end.

(** The rule table [handlers] is a package variable. *)
Variable handlers : list handler.

Definition Parse (input : string) : outcome := parse input handlers.

(** The loop of [GetPartialParser] that appends the selected rules. *)
Fixpoint select_handlers (selectedFieldMap : gset string)
    (table selectedHandlers : list handler) : list handler :=
  match table with
  | [] => selectedHandlers
  | h :: rest =>
      if bool_decide (Field h ∈ selectedFieldMap)
      then select_handlers selectedFieldMap rest (selectedHandlers ++ [h])
      else select_handlers selectedFieldMap rest selectedHandlers
  end.

Definition GetPartialParser (fieldNames : list string) : string -> outcome :=
  let selectedFieldMap : gset string := list_to_set fieldNames in
  let selectedHandlers := select_handlers selectedFieldMap handlers [] in
  fun input => parse input selectedHandlers.

End Engine.
End Go.

(** ** The normalizer of [normalizer.go] *)

Definition normalize_audio_item (item : string) : string :=
  if String.eqb item "AC3" then "DD"
  else if String.eqb item "EAC3" then "DDP"
  else item.

(** The second loop of [normalize_audio]: the first occurrence of every item,
    [seenMap] being the items met so far. *)
Fixpoint dedupe (audio seenMap : list string) : list string :=
  match audio with
  | [] => []
  | item :: rest =>
      if existsb (String.eqb item) seenMap then dedupe rest seenMap
      else item :: dedupe rest (item :: seenMap)
  end.

Definition normalize_audio (audio : list string) : list string :=
  let isChanged :=
    existsb (fun item => String.eqb item "AC3" || String.eqb item "EAC3")
            audio in
  let audio := List.map normalize_audio_item audio in
  if negb isChanged then audio else dedupe audio [].

Definition normalize_release_types (rtypes : list string) : list string :=
  List.map (fun t => if String.eqb t "OAV" then "OVA"
                     else if String.eqb t "ODA" then "OAD" else t) rtypes.

Section Normalizer.

(** [strings.ToLower] (and [lowercase()] of the port). *)
Variable ToLower : string -> string.

Definition normalize_codec (codec : string) : string :=
  let codec := ToLower codec in
  if String.eqb codec "avc" || String.eqb codec "h264"
     || String.eqb codec "x264" then "AVC"
  else if String.eqb codec "hevc" || String.eqb codec "h265"
          || String.eqb codec "x265" then "HEVC"
  else if String.eqb codec "mpeg2" then "MPEG-2"
  else if String.eqb codec "divx" || String.eqb codec "dvix" then "DivX"
  else if String.eqb codec "xvid" then "Xvid"
  else codec.

Definition normalize_resolution (resolution : string) : string :=
  let resolution := ToLower resolution in
  if String.eqb resolution "2160p" then "4k"
  else if String.eqb resolution "1440p" then "2k"
  else resolution.

(** [(r *Result) Normalize()]: the record it returns (and leaves in [r]). *)
Definition Normalize (r : Result) : Result :=
  match err r with
  | Some _ => r
  | None =>
      if negb (is_normalized r) then
        let r := set_Audio (normalize_audio (Audio r)) r in
        let r := set_Codec (normalize_codec (Codec r)) r in
        let r :=
          set_ReleaseTypes (normalize_release_types (ReleaseTypes r)) r in
        let r := set_Resolution (normalize_resolution (Resolution r)) r in
        set_is_normalized true r
      else r
  end.

(** [Normalizer.kt]: the codec and the resolution keep their spelling when no
    case applies. *)
Definition normalizeCodec (codec : string) : string :=
  let lower := ToLower codec in
  if String.eqb lower "avc" || String.eqb lower "h264"
     || String.eqb lower "x264" then "AVC"
  else if String.eqb lower "hevc" || String.eqb lower "h265"
          || String.eqb lower "x265" then "HEVC"
  else if String.eqb lower "mpeg2" then "MPEG-2"
  else if String.eqb lower "divx" || String.eqb lower "dvix" then "DivX"
  else if String.eqb lower "xvid" then "Xvid"
  else codec.

Definition normalizeResolution (resolution : string) : string :=
  let lower := ToLower resolution in
  if String.eqb lower "2160p" then "4k"
  else if String.eqb lower "1440p" then "2k"
  else resolution.

(** [Result.normalized()] of the port. *)
Definition normalized (r : Result) : Result :=
  match err r with
  | Some _ => r
  | None =>
      if is_normalized r then r
      else
        set_is_normalized true
          (mkResult (normalize_audio (Audio r)) (BitDepth r) (Channels r)
             (normalizeCodec (Codec r)) (Commentary r) (Complete r)
             (Container r) (Convert r) (Date r) (Documentary r) (Dubbed r)
             (Edition r) (EpisodeCode r) (Episodes r) (Extended r)
             (Extension r) (Group r) (HDR r) (Hardcoded r) (Languages r)
             (Network r) (Proper r) (Quality r) (Region r)
             (normalize_release_types (ReleaseTypes r)) (Remastered r)
             (Repack r) (normalizeResolution (Resolution r)) (Retail r)
             (Seasons r) (Site r) (Size r) (Subbed r) (ThreeD r) (Title r)
             (Uncensored r) (Unrated r) (Upscaled r) (Volumes r) (Year r)
             None false)
  end.

End Normalizer.

(** ** The engine of the Kotlin port

    A Kotlin [String] is a sequence of UTF-16 units: it is a Rocq [string]
    with one [ascii] per unit, which covers the strings whose units are below
    256, and lengths and offsets count units. Such a string and a Go byte
    string are the same text only when they are equal and in ASCII: a
    statement that compares the two engines on one input takes it in ASCII
    ([ascii_text]). An [Exception] is [RuntimeError], any other [Throwable] is
    [PanicOther]. The map is a [LinkedHashMap]; the engine only looks keys up
    and asks whether any key or value satisfies a test. *)
Module Kt.

(** [\s] of [java.util.regex] also has the vertical tab. *)
Definition is_space (c : ascii) : bool :=
  let n := nat_of_ascii c in
  (n =? 9)%nat || (n =? 10)%nat || (n =? 11)%nat || (n =? 12)%nat
  || (n =? 13)%nat || (n =? 32)%nat.

Definition whitespaces_replace (s by_ : string) : string :=
  replace_runs is_space by_ s false.

(** [hasOther && !hasBefore] of the skip-if-first test. *)
Definition skip_if_first (result : resmap) (field : string) (idx0 : Z)
  : bool :=
  let hasOther :=
    existsb (fun kv => negb (String.eqb (fst kv) field))
            (map_to_list result) in
  let hasBefore :=
    existsb (fun kv => mIndex (snd kv) <=? idx0) (map_to_list result) in
  hasOther && negb hasBefore.

Section Engine.

(** The order in which a processor walks the map. *)
Variable order : range_order.

(** Group extraction and field state update. *)
Definition record_match (h : handler) (st : loop_state) (idxs : list Z)
    (idx0 : Z) : exec (option (parseMeta * resmap)) :=
  let field := Field h in
  let workingTitle := title st in
  let m := result st !! field in
  let n := Z.of_nat (List.length idxs) in
  idx1 ← index idxs 1;
  rawMatchedPart ← slice workingTitle idx0 idx1;
  matchedPart ←
    (if 2 <? n then
       if ValueGroup h =? 0 then
         lo ← index idxs 2; hi ← index idxs 3; slice workingTitle lo hi
       else if ValueGroup h * 2 <? n then
         lo ← index idxs (ValueGroup h * 2);
         hi ← index idxs (ValueGroup h * 2 + 1);
         if (0 <=? lo) && (0 <=? hi) then slice workingTitle lo hi
         else Ok rawMatchedPart
       else Ok rawMatchedPart
     else Ok rawMatchedPart);
  let m :=
    match m with
    | Some m => m
    | None =>
        if has_value_set field then set_value (ValueSet []) blank else blank
    end in
  let m := set_mValue rawMatchedPart (set_mIndex idx0 m) in
  let m := if has_value_set field then m else set_value (Str matchedPart) m in
  m ← (if MatchGroup h =? 0 then Ok m else
         lo ← index idxs (MatchGroup h * 2);
         hi ← index idxs (MatchGroup h * 2 + 1);
         if (0 <=? lo) && (0 <=? hi) then
           part ← slice workingTitle lo hi;
           Ok (set_mValue part (set_mIndex lo m))
         else Ok m);
  Ok (Some (m, <[field := m]> (result st))).

Definition match_pattern (h : handler) (re : string -> list Z)
    (st : loop_state) : exec (option (parseMeta * resmap)) :=
  let field := Field h in
  let workingTitle := title st in
  let m := result st !! field in
  if bool_decide (is_Some m) && negb (KeepMatching h) then Ok None else
  let idxs := re workingTitle in
  let n := Z.of_nat (List.length idxs) in
  if n =? 0 then Ok None else
  valid ← match ValidateMatch h with
          | Some validate => validate workingTitle idxs
          | None => Ok true
          end;
  if negb valid then Ok None else
  idx0 ← index idxs 0;
  if SkipIfFirst h && skip_if_first (result st) field idx0 then Ok None else
  if Go.skip_if_before (result st) (SkipIfBefore h) idx0 then Ok None else
  record_match h st idxs idx0.

(** The loop body up to the second [continue] test; [skipFromTitle] is the
    flag of the rule ([shouldSkipFromTitle] is computed and not read). *)
Definition evaluate (h : handler) (st : loop_state) : exec verdict :=
  let field := Field h in
  let skipFromTitle := SkipFromTitle h in
  matched ← match Pattern h with
            | Some re =>
                r ← match_pattern h re st;
                Ok (match r with
                    | Some (m, result) => Some (Some m, result)
                    | None => None
                    end)
            | None => Ok (Some (result st !! field, result st))
            end;
  match matched with
  | None => Ok (Continue st)
  | Some (m, result) =>
      '(m, result) ←
        match Process h with
        | Some process =>
            match m with
            | Some m =>
                '(m, result) ← process order (title st) m result;
                Ok (Some m, <[field := m]> result)
            | None =>
                '(newM, result) ← process order (title st) blank result;
                if negb (is_nil (value newM))
                then Ok (Some newM, <[field := newM]> result)
                else Ok (None, result)
            end
        | None => Ok (m, result)
        end;
      '(m, result) ←
        match m, Transform h with
        | Some m0, Some transform =>
            if negb (is_nil (value m0)) then
              '(m1, result) ← transform (title st) m0 result;
              Ok (Some m1, <[field := m1]> result)
            else Ok (m, result)
        | _, _ => Ok (m, result)
        end;
      match m with
      | Some m =>
          if is_nil (value m)
          then Ok (Continue (mkState (title st) (delete field result)
                                     (endOfTitle st)))
          else if processed m && negb (KeepMatching h)
                  && negb (has_value_set field)
          then Ok (Continue (mkState (title st) result (endOfTitle st)))
          else Ok (Survive (mkState (title st) result (endOfTitle st))
                           m skipFromTitle)
      | None =>
          Ok (Continue (mkState (title st) (delete field result)
                                (endOfTitle st)))
      end
  end.

Definition track_boundary (skipFromTitle : bool) (m : parseMeta)
    (endOfTitle : Z) : Z :=
  let endOfTitle :=
    if negb skipFromTitle && negb (mIndex m =? 0) && (mIndex m <? endOfTitle)
    then mIndex m else endOfTitle in
  if remove m && skipFromTitle && (mIndex m <? endOfTitle)
  then endOfTitle - slen (mValue m) else endOfTitle.

Definition commit (h : handler) (st : loop_state) (m : parseMeta)
    (skipFromTitle : bool) : exec loop_state :=
  '(m, workingTitle) ←
    (if Remove h || remove m then
       before ← slice (title st) 0 (mIndex m);
       after ← slice (title st) (mIndex m + slen (mValue m))
                     (slen (title st));
       Ok (set_remove true m, before +:+ after)
     else Ok (m, title st));
  let endOfTitle := track_boundary skipFromTitle m (endOfTitle st) in
  let m := set_processed true (set_remove false m) in
  Ok (mkState workingTitle (<[Field h := m]> (result st)) endOfTitle).

Definition step (h : handler) (st : loop_state) : exec loop_state :=
  v ← evaluate h st;
  match v with
  | Continue st => Ok st
  | Survive st m skipFromTitle => commit h st m skipFromTitle
  end.

Fixpoint run_handlers (handlers : list handler) (st : loop_state)
  : exec loop_state :=
  match handlers with
  | [] => Ok st
  | h :: rest => st ← step h st; run_handlers rest st
  end.

(** The statements of [parse] before the loop; [workingTitle.length] counts
    the UTF-16 units of the title. *)
Definition init_state (input : string) : loop_state :=
  let workingTitle := whitespaces_replace input " " in
  let workingTitle := underscores_ReplaceAll workingTitle " " in
  mkState workingTitle ∅ (slen workingTitle).

Definition run_rules (input : string) (handlers : list handler)
  : exec loop_state :=
  run_handlers handlers (init_state input).

Definition extractString (meta : option parseMeta) : string :=
  match meta with
  | Some (mkMeta _ _ (Str s) _ _) => s
  | _ => ""
  end.

Definition extractBoolean (meta : option parseMeta) : bool :=
  match meta with
  | Some (mkMeta _ _ (Bool b) _ _) => b
  | _ => false
  end.

Definition extractStringList (meta : option parseMeta) : list string :=
  match meta with
  | Some (mkMeta _ _ (ValueSet values) _ _) => values
  | Some (mkMeta _ _ (Ints l) _ _) => List.map Itoa l
  | _ => []
  end.

Definition extractIntList (meta : option parseMeta) : list Z :=
  match meta with
  | Some (mkMeta _ _ (Ints l) _ _) => l
  | _ => []
  end.

Variable cleanTitle : string -> string.

Definition parse (input : string) (handlers : list handler) : outcome :=
  let attempt :=
    st ← run_rules input handlers;
    let result := result st in
    let hi := Z.max (Z.min (endOfTitle st) (slen (title st))) 0 in
    prefix ← slice (title st) 0 hi;
    Ok (mkResult
          (extractStringList (result !! "audio"))
          (extractString (result !! "bitDepth"))
          (extractStringList (result !! "channels"))
          (extractString (result !! "codec"))
          (extractBoolean (result !! "commentary"))
          (extractBoolean (result !! "complete"))
          (extractString (result !! "container"))
          (extractBoolean (result !! "convert"))
          (extractString (result !! "date"))
          (extractBoolean (result !! "documentary"))
          (extractBoolean (result !! "dubbed"))
          (extractString (result !! "edition"))
          (extractString (result !! "episodeCode"))
          (extractIntList (result !! "episodes"))
          (extractBoolean (result !! "extended"))
          (extractString (result !! "extension"))
          (extractString (result !! "group"))
          (extractStringList (result !! "hdr"))
          (extractBoolean (result !! "hardcoded"))
          (extractStringList (result !! "languages"))
          (extractString (result !! "network"))
          (extractBoolean (result !! "proper"))
          (extractString (result !! "quality"))
          (extractString (result !! "region"))
          (extractStringList (result !! "releaseTypes"))
          (extractBoolean (result !! "remastered"))
          (extractBoolean (result !! "repack"))
          (extractString (result !! "resolution"))
          (extractBoolean (result !! "retail"))
          (extractIntList (result !! "seasons"))
          (extractString (result !! "site"))
          (extractString (result !! "size"))
          (extractBoolean (result !! "subbed"))
          (extractString (result !! "threeD"))
          (cleanTitle prefix)
          (extractBoolean (result !! "uncensored"))
          (extractBoolean (result !! "unrated"))
          (extractBoolean (result !! "upscaled"))
          (extractIntList (result !! "volumes"))
          (extractString (result !! "year"))
          None false) in
  match attempt with
  | Ok r => Returned r
  | Panic (RuntimeError e) => Returned (set_err (Some e) zero_Result)
  | Panic (PanicOther e) => Propagated (PanicOther e)
  end.

Variable handlers : list handler.

Definition getPartialParser (fieldNames : list string) : string -> outcome :=
  let selectedFieldMap : gset string := list_to_set fieldNames in
  let selectedHandlers :=
    List.filter (fun h => bool_decide (Field h ∈ selectedFieldMap)) handlers in
  fun input => parse input selectedHandlers.

End Engine.
End Kt.

(** ** Vocabulary of the statements *)

(** The rule [h] without its skip-if-first mark. *)
Definition clear_SkipIfFirst (h : handler) : handler :=
  mkHandler (Field h) (Pattern h) (ValidateMatch h) (Transform h) (Process h)
            (Remove h) (KeepMatching h) false (SkipIfBefore h)
            (SkipFromTitle h) (MatchGroup h) (ValueGroup h).

(** A rule whose pattern matches at [idx0] and whose match is validated
    reaches the skip policies. *)
Definition candidate (h : handler) (re : string -> list Z) (st : loop_state)
    (idx0 : Z) (rest : list Z) : Prop :=
  Pattern h = Some re /\
  (result st !! Field h = None \/ KeepMatching h = true) /\
  re (title st) = idx0 :: rest /\
  match ValidateMatch h with
  | Some validate => validate (title st) (idx0 :: rest) = Ok true
  | None => True
  end.

(** The candidate at [idx0] would come first: another field is recorded and
    every other field is recorded strictly after [idx0]. *)
Definition comes_first (result : resmap) (field : string) (idx0 : Z) : Prop :=
  (exists f fm, result !! f = Some fm /\ f <> field) /\
  (forall f fm, result !! f = Some fm -> f <> field -> idx0 < mIndex fm).

(** The rule [h] finds nothing in [title] while no field is recorded: its
    pattern has no match; or it has no pattern and its processor, given a
    blank cell and the empty map, returns a cell without value and leaves the
    map empty. (A rule with neither pattern nor processor is a fault of
    [ptt.go] on such a title.) *)
Definition finds_nothing (title : string) (h : handler) : Prop :=
  match Pattern h with
  | Some re => re title = []
  | None =>
      match Process h with
      | Some process =>
          forall order : range_order,
            exists m, process order title blank ∅ = Ok (m, ∅)
                      /\ is_nil (value m) = true
      | None => False
      end
  end.

(** The reduced list as the specification words it: the rules of the
    requested fields, and the rules that declare no field. *)
Definition requested_or_fieldless (fieldNames : list string)
    (handlers : list handler) : list handler :=
  List.filter
    (fun h => bool_decide (Field h ∈ fieldNames) || String.eqb (Field h) "")
    handlers.

(** The closures of [h] that range over the map do not depend on the order
    of the range. *)
Definition order_insensitive (h : handler) : Prop :=
  match Process h with
  | Some process =>
      forall (o1 o2 : range_order) t m result,
        valid_order o1 -> valid_order o2 ->
        process o1 t m result = process o2 t m result
  | None => True
  end.

(** The closures of [h] raise runtime errors only: none of them calls
    [panic] with a value that is not an [error]. *)
Definition raises_errors_only (h : handler) : Prop :=
  (forall validate t idxs p,
     ValidateMatch h = Some validate -> validate t idxs = Panic p ->
     exists msg, p = RuntimeError msg) /\
  (forall transform t m r p,
     Transform h = Some transform -> transform t m r = Panic p ->
     exists msg, p = RuntimeError msg) /\
  (forall process o t m r p,
     Process h = Some process -> process o t m r = Panic p ->
     exists msg, p = RuntimeError msg).

(** The type assertion of the case [s] succeeds on [v]. *)
Definition accepts (s : slot) (v : any) : bool :=
  match assign s v zero_Result with
  | Ok _ => true
  | Panic _ => false
  end.

(** An entry whose value has the type its case asserts. *)
Definition typed_entry (kv : string * parseMeta) : bool :=
  match slot_of_field (fst kv) with
  | Some s => accepts s (value (snd kv))
  | None => true
  end.

(** Every cell of the map holds a value of the type its case asserts. *)
Definition typed_map (result : resmap) : bool :=
  forallb typed_entry (map_to_list result).

(** Strings made of digits, and of digits and spaces. *)
Fixpoint all_digits (s : string) : bool :=
  match s with
  | EmptyString => true
  | String c r => is_digit c && all_digits r
  end.

Fixpoint digits_or_spaces (s : string) : bool :=
  match s with
  | EmptyString => true
  | String c r => (is_digit c || Ascii.eqb c " ") && digits_or_spaces r
  end.

(** Each element but the last is followed by its successor. *)
Fixpoint consecutive (l : list Z) : Prop :=
  match l with
  | x :: (y :: _) as rest => y = x + 1 /\ consecutive rest
  | _ => True
  end.

(** The numbers from [a] to [b], both included. *)
Definition inclusive_run (a b : Z) : list Z :=
  List.map (fun i => a + Z.of_nat i) (seq 0 (Z.to_nat (b - a + 1))).

(** ** Rules and readings for the examples *)

(** [literal_index lit] is what [FindStringSubmatchIndex] computes for the
    pattern that matches the literal text [lit] and has no group. *)
Definition literal_index (lit : string) (s : string) : list Z :=
  match String.index 0 lit s with
  | Some i => [Z.of_nat i; Z.of_nat i + slen lit]
  | None => []
  end.

(** A rule that matches the literal [lit]; [removing] tells whether it is
    marked remove. *)
Definition literal_rule (field lit : string) (transform : option hTransformer)
    (removing : bool) : handler :=
  mkHandler field (Some (literal_index lit)) None transform None
            removing false false [] false 0 0.

(** The stand-ins of the examples for the range orders and for the title
    cleanup; no example depends on what they are. *)
Definition example_order : range_order := map_to_list.
Definition example_turn : turn_order := fun _ => example_order.
Definition example_orders : parse_order :=
  mkOrders (fun _ => example_turn) example_order.
Definition example_clean : string -> string := fun s => s.

(** Another order of a range: the reverse of [example_order]. *)
Definition reverse_order : range_order :=
  fun result => List.rev (map_to_list result).

(** Other orders of a call: the ranges of the skip-if-first test alternate
    between the two orders from one turn to the next, the other ranges take
    the reverse order. *)
Definition mixed_orders : parse_order :=
  mkOrders
    (fun i site =>
       match site with
       | SkipIfFirstRange =>
           if Nat.even i then reverse_order else example_order
       | ProcessorRange => reverse_order
       end)
    reverse_order.

(** A "year" rule followed by a "region" rule marked skip-if-first. *)
Definition region_table : list handler :=
  [ literal_rule "year" "2020" (Some to_year) false;
    mkHandler "region" (Some (literal_index "R5")) None None None
              false false true [] false 0 0 ].

(** A "year" rule followed by a "site" rule marked remove and
    skip-from-title. *)
Definition site_table : list handler :=
  [ literal_rule "year" "2020" (Some to_year) false;
    mkHandler "site" (Some (literal_index "www")) None None None
              true false false [] true 0 0 ].

(** A "resolution" rule marked remove. *)
Definition bracket_table : list handler :=
  [ literal_rule "resolution" "720p" None true ].

(** Two "languages" rules that keep matching, the second marked
    skip-if-first, around a "year" rule. *)
Definition languages_table : list handler :=
  [ mkHandler "languages" (Some (literal_index "EN")) None
              (Some (to_value_set "en")) None false true false [] false 0 0;
    literal_rule "year" "2020" (Some to_year) false;
    mkHandler "languages" (Some (literal_index "FR")) None
              (Some (to_value_set "fr")) None false true true [] false 0 0 ].

(** A "year" rule, then a rule whose match group does not exist. *)
Definition faulty_table : list handler :=
  [ literal_rule "year" "2020" None false;
    mkHandler "site" (Some (literal_index "www")) None None None
              false false false [] false 3 0 ].

(** A table with a bracketed "group", a rule marked skip-if-first and the
    processor of the last "group" rule. *)
Definition group_table : list handler :=
  [ mkHandler "group" (Some (literal_index "[2020 FR]")) None None None
              false false false [] false 0 0;
    literal_rule "year" "2020" (Some to_year) true;
    mkHandler "languages" (Some (literal_index "FR")) None
              (Some (to_value_set "fr")) None false true true [] false 0 0;
    mkHandler "group" None None None (Some group_processor)
              false false false [] false 0 0 ].

(** What the examples read in the state the rules leave: for a field, the
    offset and the value of its cell. *)
Definition cell_of (field : string) (st : exec loop_state)
  : exec (option (Z * any)) :=
  st ← st; Ok ((fun m => (mIndex m, value m)) <$> result st !! field).

(** What the examples read in the state the rules leave: the title and the
    boundary. *)
Definition boundary_of (st : exec loop_state) : exec (string * Z) :=
  st ← st; Ok (title st, endOfTitle st).

(** What the examples read in the record a call returns. *)
Definition read {A : Type} (f : Result -> A) (o : outcome) : option A :=
  match o with
  | Returned r => Some (f r)
  | Propagated _ => None
  end.

(** ** Further closures of the rule table *)

(** [vs.exists(v)] *)
Definition vs_exists (values : list string) (v : string) : bool :=
  existsb (String.eqb v) values.

(** [to_value_set_with_transform] and [to_value_set_multi_with_transform]:
    [to_v] computes the value, or the values, from the matched text. *)
Definition to_value_set_with_transform (to_v : string -> string)
  : hTransformer :=
  fun _ m result =>
    match value m with
    | ValueSet val =>
        Ok (set_value (ValueSet (vs_append val (to_v (mValue m)))) m, result)
    | _ => Ok (m, result)
    end.

Definition to_value_set_multi_with_transform (to_v : string -> list string)
  : hTransformer :=
  fun _ m result =>
    match value m with
    | ValueSet val =>
        Ok (set_value (ValueSet (fold_left vs_append (to_v (mValue m)) val)) m,
            result)
    | _ => Ok (m, result)
    end.

(** [to_lowercase], [to_uppercase] and [to_trimmed]: the type assertion on
    the value has no [ok], a value that is not a string is a fault.
    [strings.ToLower], [strings.ToUpper] and [strings.TrimSpace] are the
    argument. *)
Definition to_string_function (f : string -> string) : hTransformer :=
  fun _ m result =>
    match value m with
    | Str s => Ok (set_value (Str (f s)) m, result)
    | _ => conversion_panic
    end.

Definition to_lowercase (ToLower : string -> string) : hTransformer :=
  to_string_function ToLower.
Definition to_uppercase (ToUpper : string -> string) : hTransformer :=
  to_string_function ToUpper.
Definition to_trimmed (TrimSpace : string -> string) : hTransformer :=
  to_string_function TrimSpace.

(** [to_clean_date] and [to_clean_month]: the replacement that their regular
    expression makes is the argument; a value that is not a string is left
    as it is. *)
Definition to_clean_date (ReplaceAllString : string -> string)
  : hTransformer :=
  fun _ m result =>
    match value m with
    | Str v => Ok (set_value (Str (ReplaceAllString v)) m, result)
    | _ => Ok (m, result)
    end.

Definition to_clean_month (ReplaceAllStringFunc : string -> string)
  : hTransformer :=
  fun _ m result =>
    match value m with
    | Str v => Ok (set_value (Str (ReplaceAllStringFunc v)) m, result)
    | _ => Ok (m, result)
    end.

(** [to_date(format)]: [reformat] stands for the replacement of the
    separators, [time.Parse] with the format and [Format]; [None] is a parse
    error. *)
Definition to_date (reformat : string -> option string) : hTransformer :=
  fun _ m result =>
    match value m with
    | Str v =>
        match reformat v with
        | Some t => Ok (set_value (Str t) m, result)
        | None => Ok (set_value (Str "") m, result)
        end
    | _ => Ok (set_value (Str "") m, result)
    end.

(** [remove_from_value(re)]: [ReplaceAllString] is what the regular
    expression removes. *)
Definition remove_from_value (ReplaceAllString : string -> string)
  : hProcessor :=
  fun _ _ m result =>
    match value m with
    | Str v =>
        if negb (String.eqb v "")
        then Ok (set_value (Str (ReplaceAllString v)) m, result)
        else Ok (m, result)
    | _ => Ok (m, result)
    end.

(** [validate_and(validators...)]: the validators in order, up to the first
    that rejects. *)
Fixpoint validate_and (validators : list hMatchValidator) : hMatchValidator :=
  fun input idxs =>
    match validators with
    | [] => Ok true
    | validator :: rest =>
        ok ← validator input idxs;
        if negb ok then Ok false else validate_and rest input idxs
    end.

Definition validate_not_at_start : hMatchValidator :=
  fun _ match_ => m0 ← index match_ 0; Ok (negb (m0 =? 0)).

Definition validate_not_at_end : hMatchValidator :=
  fun input match_ => m1 ← index match_ 1; Ok (negb (m1 =? slen input)).

(** [validate_not_match(re)] and [validate_match(re)]: [MatchString] is
    [re.MatchString]. *)
Definition validate_not_match (MatchString : string -> bool)
  : hMatchValidator :=
  fun input match_ =>
    m0 ← index match_ 0; m1 ← index match_ 1;
    rv ← slice input m0 m1; Ok (negb (MatchString rv)).

Definition validate_match (MatchString : string -> bool) : hMatchValidator :=
  fun input match_ =>
    m0 ← index match_ 0; m1 ← index match_ 1;
    rv ← slice input m0 m1; Ok (MatchString rv).

(** [input[match[index*2]:match[index*2+1]]]: the text of a group. *)
Definition group_text (input : string) (match_ : list Z) (i : Z)
  : exec string :=
  lo ← index match_ (wrap (i * 2));
  hi ← index match_ (wrap (wrap (i * 2) + 1));
  slice input lo hi.

(** The loop of [validate_matched_groups_are_same]. *)
Fixpoint groups_same_loop (input : string) (match_ : list Z) (first : string)
    (indices : list Z) : exec bool :=
  match indices with
  | [] => Ok true
  | i :: rest =>
      other ← group_text input match_ i;
      if negb (String.eqb other first) then Ok false
      else groups_same_loop input match_ first rest
  end.

Definition validate_matched_groups_are_same (indices : list Z)
  : hMatchValidator :=
  fun input match_ =>
    match indices with
    | [] => Panic (RuntimeError "index out of range")
    | i0 :: rest =>
        first ← group_text input match_ i0;
        groups_same_loop input match_ first rest
    end.

(** The transform of the first two "year" rules of [ptt.go]: [to_year], then
    the cell of "complete" when the year is a range. *)
Definition year_range_transform : hTransformer :=
  fun title m result =>
    '(m, result) ← to_year title m result;
    if bool_decide (is_Some (result !! "complete")) then Ok (m, result)
    else
      match value m with
      | Str s =>
          if strings_Contains s "-"
          then Ok (m, <["complete" := set_value (Bool true) m]> result)
          else Ok (m, result)
      | _ => conversion_panic
      end.

(** The processor of the second "edition" rule. *)
Definition edition_processor : hProcessor :=
  fun _ _ m result =>
    match value m with
    | Str v =>
        if String.eqb v "Remastered" then
          match result !! "remastered" with
          | Some _ => Ok (m, result)
          | None =>
              Ok (m, <["remastered" :=
                         mkMeta (mIndex m) (mValue m) (Bool true) false false]>
                       result)
          end
        else Ok (m, result)
    | _ => Ok (m, result)
    end.

(** The processors of the "subbed" and "dubbed" rules without pattern. *)
Definition subbed_processor : hProcessor :=
  fun _ _ m result =>
    match result !! "languages" with
    | None => Ok (m, result)
    | Some lm =>
        match value lm with
        | ValueSet s =>
            if vs_exists s "multi subs"
            then Ok (set_value (Bool true) m, result)
            else Ok (m, result)
        | _ => Ok (m, result)
        end
    end.

Definition dubbed_processor : hProcessor :=
  fun _ _ m result =>
    match result !! "languages" with
    | None => Ok (m, result)
    | Some lm =>
        match value lm with
        | ValueSet s =>
            if vs_exists s "multi audio" || vs_exists s "dual audio"
            then Ok (set_value (Bool true) m, result)
            else Ok (m, result)
        | _ => Ok (m, result)
        end
    end.

(** The rules of the table that carry these processors. *)
Definition edition_rule : handler :=
  mkHandler "edition" None None None (Some edition_processor)
            false false false [] false 0 0.
Definition subbed_rule : handler :=
  mkHandler "subbed" None None None (Some subbed_processor)
            false false false [] false 0 0.
Definition dubbed_rule : handler :=
  mkHandler "dubbed" None None None (Some dubbed_processor)
            false false false [] false 0 0.

(** The last "group" rule of the table. *)
Definition group_rule : handler :=
  mkHandler "group" None None None (Some group_processor)
            false false false [] false 0 0.

(** ** Transforms of the port *)

Definition kt_min_int : Z := - 2 ^ 31.
Definition kt_max_int : Z := 2 ^ 31 - 1.

(** Two's complement wrap-around of an [Int]. *)
Definition kt_wrap (z : Z) : Z := (z + 2 ^ 31) mod 2 ^ 32 - 2 ^ 31.

(** [String.toIntOrNull()]: on the ASCII fragment the syntax is that of
    [strconv.Atoi], the range is that of an [Int]. *)
Definition toIntOrNull (s : string) : option Z :=
  match Atoi s with
  | Some n => if (kt_min_int <=? n) && (n <=? kt_max_int) then Some n else None
  | None => None
  end.

(** [Char.isWhitespace()] on the ASCII fragment. *)
Definition isWhitespace (c : ascii) : bool :=
  let n := nat_of_ascii c in
  ((9 <=? n)%nat && (n <=? 13)%nat) || ((28 <=? n)%nat && (n <=? 32)%nat).

Fixpoint trimStart (s : string) : string :=
  match s with
  | String c r => if isWhitespace c then trimStart r else s
  | EmptyString => ""
  end.

(** [String.trim()] *)
Definition trim (s : string) : string :=
  string_rev (trimStart (string_rev (trimStart s) "")) "".

(** [nums.zipWithNext().all { (a, b) -> b == a + 1 }] *)
Fixpoint isSequential (nums : list Z) : bool :=
  match nums with
  | a :: (b :: _) as rest => (b =? kt_wrap (a + 1)) && isSequential rest
  | _ => true
  end.

(** [toIntRange()]; the list that [toList()] builds is taken to fit the
    heap. *)
Definition toIntRange : hTransformer :=
  fun _ m result =>
    match value m with
    | Str v =>
        let parts := strings_Split (trim (non_digits_ReplaceAll v " ")) " " "" in
        let nums := omap toIntOrNull parts in
        let seq :=
          match nums with
          | [a; b] =>
              if a <? b then
                let seq := inclusive_run a b in
                if isSequential seq then Some seq else None
              else None
          | _ => None
          end in
        match seq with
        | Some seq => Ok (set_value (Ints seq) m, result)
        | None =>
            if isSequential nums then Ok (set_value (Ints nums) m, result)
            else Ok (set_value Nil m, result)
        end
    | _ => Ok (set_value Nil m, result)
    end.

Definition toYear : hTransformer :=
  fun _ m result =>
    match value m with
    | Str vstr =>
        match non_digits_Split vstr with
        | [] => Panic (RuntimeError "index out of bounds")
        | [p] => Ok (set_value (Str p) m, result)
        | start :: end_ :: _ =>
            match toIntOrNull end_ with
            | None => Ok (set_value (Str start) m, result)
            | Some endYear =>
                match toIntOrNull start with
                | None => Ok (set_value (Str "") m, result)
                | Some startYear =>
                    let adjustedEndYear :=
                      if endYear <? 100
                      then kt_wrap (kt_wrap (endYear + startYear)
                                    - Z.rem startYear 100)
                      else endYear in
                    if adjustedEndYear <=? startYear
                    then Ok (set_value (Str "") m, result)
                    else Ok (set_value
                               (Str (Itoa startYear +:+ "-"
                                     +:+ Itoa adjustedEndYear))
                               m, result)
                end
            end
        end
    | _ => Ok (set_value (Str "") m, result)
    end.

(** The transform of the first "year" rule of the port. *)
Definition yearRangeTransform : hTransformer :=
  fun title m result =>
    '(m, result) ← toYear title m result;
    if bool_decide (is_Some (result !! "complete")) then Ok (m, result)
    else
      match value m with
      | Str s =>
          if strings_Contains s "-"
          then Ok (m, <["complete" := set_value (Bool true) blank]> result)
          else Ok (m, result)
      | _ => conversion_panic
      end.

(** ** Vocabulary of the further statements *)

(** The codecs and the resolutions that the normalizer rewrites, in lower
    case. *)
Definition known_codec (lower : string) : bool :=
  String.eqb lower "avc" || String.eqb lower "h264" || String.eqb lower "x264"
  || String.eqb lower "hevc" || String.eqb lower "h265"
  || String.eqb lower "x265" || String.eqb lower "mpeg2"
  || String.eqb lower "divx" || String.eqb lower "dvix"
  || String.eqb lower "xvid".

Definition known_resolution (lower : string) : bool :=
  String.eqb lower "2160p" || String.eqb lower "1440p".

(** The rule [h] without its skip-if-before list. *)
Definition clear_SkipIfBefore (h : handler) : handler :=
  mkHandler (Field h) (Pattern h) (ValidateMatch h) (Transform h) (Process h)
            (Remove h) (KeepMatching h) (SkipIfFirst h) []
            (SkipFromTitle h) (MatchGroup h) (ValueGroup h).

(** One of the fields of the list is recorded strictly after [idx0]. *)
Definition recorded_after (result : resmap) (fields : list string) (idx0 : Z)
  : Prop :=
  exists f fm, f ∈ fields /\ result !! f = Some fm /\ idx0 < mIndex fm.

(** What the assembly reads for the case [s]: the value of the cell of that
    name, or what the zero record holds. *)
Definition cell_value (result : resmap) (s : slot) : any :=
  match result !! slot_name s with
  | Some m => value m
  | None => get s zero_Result
  end.

(** The part of the working title that [parse] hands to the title cleanup. *)
Definition title_prefix (st : loop_state) : string :=
  substring 0 (Z.to_nat (Z.max (Z.min (endOfTitle st) (slen (title st))) 0))
            (title st).

(** The bytes of a string, in order. *)
Definition bytes (s : string) : list ascii := list_ascii_of_string s.

(** The string is in ASCII: as a Go string and as a Kotlin string it is the
    same text, a byte of the one being a UTF-16 unit of the other. *)
Definition ascii_text (s : string) : bool :=
  forallb (fun c => (nat_of_ascii c <? 128)%nat) (bytes s).

(** The length of the string fits an [int], as the length of every Go string
    does. *)
Definition int_sized (s : string) : Prop := slen s <= max_int.

(** Every cell of the map satisfies [C]. *)
Definition cells (C : parseMeta -> Prop) (result : resmap) : Prop :=
  forall k m, result !! k = Some m -> C m.

(** The closures of [h], given a title that satisfies [T], a cell that
    satisfies [C] and a map whose cells do, leave a cell that satisfies [C]
    and a map whose cells do. *)
Definition closures_keep (T : string -> Prop) (C : parseMeta -> Prop)
    (h : handler) : Prop :=
  (forall transform t m res m' res',
     Transform h = Some transform -> T t -> C m -> cells C res ->
     transform t m res = Ok (m', res') -> C m' /\ cells C res') /\
  (forall process o t m res m' res',
     Process h = Some process -> T t -> C m -> cells C res ->
     process o t m res = Ok (m', res') -> C m' /\ cells C res').

(** The text matched by the cell fits an [int]. *)
Definition sized_cell (m : parseMeta) : Prop := int_sized (mValue m).

(** A value that is a value set holds no value twice. *)
Definition set_without_duplicates (m : parseMeta) : Prop :=
  match value m with
  | ValueSet values => NoDup values
  | _ => True
  end.

(** The transform writes the value of the cell and nothing else. *)
Definition writes_value_only (transform : hTransformer) : Prop :=
  forall t m res m' res',
    transform t m res = Ok (m', res') ->
    res' = res /\ mIndex m' = mIndex m /\ mValue m' = mValue m
    /\ remove m' = remove m /\ processed m' = processed m.

(** The transforms that the file of the rule table defines by name. *)
Inductive named_transform : hTransformer -> Prop :=
  | named_to_value v : named_transform (to_value v)
  | named_to_boolean : named_transform to_boolean
  | named_to_with_suffix suffix : named_transform (to_with_suffix suffix)
  | named_to_value_set v : named_transform (to_value_set v)
  | named_to_value_set_with_transform to_v :
      named_transform (to_value_set_with_transform to_v)
  | named_to_value_set_multi_with_transform to_v :
      named_transform (to_value_set_multi_with_transform to_v)
  | named_to_lowercase f : named_transform (to_lowercase f)
  | named_to_uppercase f : named_transform (to_uppercase f)
  | named_to_trimmed f : named_transform (to_trimmed f)
  | named_to_clean_date f : named_transform (to_clean_date f)
  | named_to_clean_month f : named_transform (to_clean_month f)
  | named_to_date f : named_transform (to_date f)
  | named_to_int_array : named_transform to_int_array
  | named_to_year : named_transform to_year
  | named_to_int_range : named_transform to_int_range.

(** A rule whose closures are among those the file defines by name: its
    transform, if it has one, and its processor, if it has one, which is then
    [remove_from_value]. *)
Definition plain_rule (h : handler) : Prop :=
  match Process h with
  | Some process => exists f, process = remove_from_value f
  | None => True
  end /\
  match Transform h with
  | Some transform => named_transform transform
  | None => True
  end.

(** What the working title is made of: no underscore, and no white space
    other than the space. *)
Definition title_byte (space : ascii -> bool) (c : ascii) : Prop :=
  c <> "_"%char /\ (space c = true -> c = " "%char).

(** The closures of [h] leave the map as it is. *)
Definition leaves_map (h : handler) : Prop :=
  (forall transform t m res m' res',
     Transform h = Some transform ->
     transform t m res = Ok (m', res') -> res' = res) /\
  (forall process o t m res m' res',
     Process h = Some process ->
     process o t m res = Ok (m', res') -> res' = res).

(** A rule of the field [f] has a pattern and does not keep matching. *)
Definition matches_once (f : string) (h : handler) : Prop :=
  Field h = f -> Pattern h <> None /\ KeepMatching h = false.

(** The validation returned [true]. *)
Definition accepted (c : exec bool) : bool :=
  match c with
  | Ok true => true
  | _ => false
  end.

(** No byte of the string is a digit. *)
Fixpoint no_digit (s : string) : bool :=
  match s with
  | EmptyString => true
  | String c r => non_digit c && no_digit r
  end.

(** The cell of "languages" holds the value [v]. *)
Definition languages_hold (result : resmap) (v : string) : bool :=
  match result !! "languages" with
  | Some lm =>
      match value lm with
      | ValueSet s => vs_exists s v
      | _ => false
      end
  | None => false
  end.

(** The value is a range of years, as [to_year] writes it. *)
Definition year_range (v : any) : Prop :=
  exists a b, a < b /\ v = Str (Itoa a +:+ "-" +:+ Itoa b).

(** The vertical tab, which [\s] of [java.util.regex] has and [\s] of RE2
    has not. *)
Definition vertical_tab : ascii := "011"%char.




(** Some cell of the map starts strictly inside the text that [m] matched,
    its first byte apart. *)
Definition holds_another_match (result : resmap) (m : parseMeta) : Prop :=
  exists k km,
    result !! k = Some km
    /\ 0 < mIndex km < wrap (mIndex m + slen (mValue m)).

(** ** Further rules and inputs for the examples *)

(** A table whose second rule leaves a string in the cell of "episodes",
    where the record takes a list of numbers. *)
Definition mistyped_table : list handler :=
  [ literal_rule "year" "2020" (Some to_year) false;
    literal_rule "episodes" "E01" None false ].

(** An input of the examples with an underscore and a tab. *)
Definition tabbed_title : string :=
  "My_Film" +:+ String "009" "2020 www".

(** Two lists of rules for the examples: a "resolution" rule, then another
    "resolution" rule and a "year" rule. *)
Definition first_rules : list handler :=
  [ literal_rule "resolution" "720p" None true ].
Definition next_rules : list handler :=
  [ literal_rule "resolution" "1080p" None true;
    literal_rule "year" "2020" (Some to_year) true ].

(** A state of the examples: a bracketed group that holds the year. *)
Definition bracketed_group_state : loop_state :=
  mkState "[2020 FR] Film"
          (<["year" := mkMeta 1 "2020" (Str "2020") false true]>
             (<["group" := mkMeta 0 "[2020 FR]" (Str "2020 FR") false true]>
                ∅))
          14.

(** A "year" rule, then rules without pattern as the table has them: the
    processors of "edition", "bitDepth", "subbed", "dubbed" and "group". *)
Definition patternless_table : list handler :=
  [ literal_rule "year" "2020" (Some to_year) true;
    edition_rule;
    mkHandler "bitDepth" None None None
              (Some (remove_from_value (fun s => s)))
              false false false [] false 0 0;
    subbed_rule; dubbed_rule; group_rule ].

(** The lower case of the ASCII letters, the stand-in of the examples for
    [strings.ToLower]. *)
Definition lower_byte (c : ascii) : ascii :=
  let n := nat_of_ascii c in
  if (65 <=? n)%nat && (n <=? 90)%nat then ascii_of_nat (n + 32) else c.
Fixpoint ascii_lower (s : string) : string :=
  match s with
  | EmptyString => EmptyString
  | String c r => String (lower_byte c) (ascii_lower r)
  end.

(** ** Tactics *)

(** Case analysis on the steps of a computation in [exec]. *)
Ltac exec_cases H :=
  repeat
    (unfold mbind, exec_bind, ebind, mret, exec_ret in H;
     match type of H with
     | Ok _ = Ok _ => fail 1
     | Panic _ = Ok _ => discriminate H
     | context [match ?c with _ => _ end] =>
         let E := fresh "E" in destruct c eqn:E
     end).

(** Case analysis on the steps of a computation that ends in a panic. *)
Ltac fault_cases H :=
  repeat
    (unfold mbind, exec_bind, ebind, mret, exec_ret in H;
     match type of H with
     | Ok _ = Panic _ => discriminate H
     | Panic _ = Panic _ => fail 1
     | context [match ?c with _ => _ end] =>
         lazymatch c with
         | context [match _ with _ => _ end] => fail
         | _ => let E := fresh "E" in destruct c eqn:E
         end
     end).

(** * Properties *)

Lemma append_cons (c : ascii) (a b : string) :
  String c a +:+ b = String c (a +:+ b).
Proof. reflexivity. Qed.

Lemma append_nil_l (s : string) : "" +:+ s = s.
Proof. reflexivity. Qed.



Lemma wrap_small (z : Z) : min_int <= z <= max_int -> wrap z = z.
Proof.
  unfold wrap, min_int, max_int. intros H.
  rewrite Z.mod_small; lia.
Qed.

Lemma wrap_range (z : Z) : min_int <= wrap z <= max_int.
Proof.
  unfold wrap, min_int, max_int.
  pose proof (Z.mod_pos_bound (z + 2 ^ 63) (2 ^ 64)). lia.
Qed.

Lemma wrap_wrap_sub (a b : Z) : wrap (wrap a - b) = wrap (a - b).
Proof.
  unfold wrap.
  replace ((a + 2 ^ 63) mod 2 ^ 64 - 2 ^ 63 - b + 2 ^ 63)
    with ((a + 2 ^ 63) mod 2 ^ 64 - b) by lia.
  rewrite Zminus_mod_idemp_l. f_equal. f_equal. lia.
Qed.

Lemma wrap_wrap_add (a b : Z) : wrap (wrap a + b) = wrap (a + b).
Proof.
  replace (wrap a + b) with (wrap a - (- b)) by lia.
  rewrite wrap_wrap_sub. f_equal. lia.
Qed.

(** *** Splitting on runs *)

Lemma split_runs_not_nil sep s cur b : split_runs sep s cur b <> [].
Proof.
  revert cur b. induction s as [|c r IH]; intros cur b; simpl; [done|].
  destruct (sep c); [destruct b|]; try done; apply IH.
Qed.


Lemma all_digits_app (a b : string) :
  all_digits (a +:+ b) = all_digits a && all_digits b.
Proof.
  induction a as [|c a IH]; [done|].
  rewrite append_cons. simpl. by rewrite IH, andb_assoc.
Qed.

Lemma split_runs_digits s cur b :
  all_digits cur = true ->
  Forall (fun p => all_digits p = true) (split_runs non_digit s cur b).
Proof.
  revert cur b. induction s as [|c r IH]; intros cur b Hcur; simpl.
  - by constructor.
  - destruct (non_digit c) eqn:Hc.
    + destruct b; [by apply IH | constructor; [done | by apply IH]].
    + apply IH. rewrite all_digits_app, Hcur. simpl.
      unfold non_digit in Hc. apply negb_false_iff in Hc. by rewrite Hc.
Qed.

(** *** [Atoi] on a piece made of digits *)

Lemma digit_value_bounds (c : ascii) :
  is_digit c = true -> 0 <= digit_value c <= 9.
Proof.
  unfold is_digit, digit_value. intros H.
  apply andb_true_iff in H as [H1 H2]. lia.
Qed.

Lemma digits_value_ge s acc v :
  0 <= acc -> digits_value s acc = Some v -> acc <= v.
Proof.
  revert acc. induction s as [|c r IH]; intros acc Hacc; simpl.
  - intros [= <-]. lia.
  - destruct (is_digit c) eqn:Hc; [|done]. intros H.
    pose proof (digit_value_bounds c Hc).
    apply IH in H; lia.
Qed.

Lemma Atoi_unsigned (c : ascii) (r : string) :
  is_digit c = true ->
  Atoi (String c r) =
    match digits_value (String c r) 0 with
    | Some v => if (min_int <=? v) && (v <=? max_int) then Some v else None
    | None => None
    end.
Proof.
  destruct c as [[] [] [] [] [] [] [] []]; intros H; try discriminate H;
    reflexivity.
Qed.

Lemma Atoi_digits (s : string) (v : Z) :
  all_digits s = true -> Atoi s = Some v -> 0 <= v <= max_int.
Proof.
  destruct s as [|c r]; [done|]. simpl. intros H.
  apply andb_true_iff in H as [Hc Hr]. rewrite (Atoi_unsigned c r Hc).
  destruct (digits_value (String c r) 0) as [w|] eqn:Hw; [|done].
  destruct ((min_int <=? w) && (w <=? max_int)) eqn:Hrange; [|done].
  intros [= <-]. apply digits_value_ge in Hw; [|lia].
  apply andb_true_iff in Hrange as [_ H2]. lia.
Qed.


(** *** The year-range transform *)



(** *** The integer-range transform *)

Lemma ebind_Ok {A B : Type} (a : A) (k : A -> exec B) :
  (Ok a ≫= k) = k a.
Proof. reflexivity. Qed.


Lemma digits_or_spaces_cons (c : ascii) (r : string) :
  digits_or_spaces (String c r)
  = (is_digit c || Ascii.eqb c " ") && digits_or_spaces r.
Proof. reflexivity. Qed.

Lemma trim_left_cons (c d : ascii) (r : string) :
  trim_left c (String d r)
  = if Ascii.eqb d c then trim_left c r else String d r.
Proof. reflexivity. Qed.

Lemma strings_Split_cons (c d : ascii) (r cur : string) :
  strings_Split (String d r) c cur
  = if Ascii.eqb d c then cur :: strings_Split r c ""
    else strings_Split r c (cur +:+ String d "").
Proof. reflexivity. Qed.

Lemma digits_or_spaces_replace s b :
  digits_or_spaces (replace_runs non_digit " " s b) = true.
Proof.
  revert b. induction s as [|c r IH]; intros b; [done|].
  cbn [replace_runs]. destruct (non_digit c) eqn:Hc.
  - destruct b; [apply IH|]. rewrite append_cons, append_nil_l.
    rewrite digits_or_spaces_cons, IH. by rewrite orb_true_r.
  - rewrite digits_or_spaces_cons, IH.
    unfold non_digit in Hc. apply negb_false_iff in Hc. by rewrite Hc.
Qed.

Lemma digits_or_spaces_trim_left s :
  digits_or_spaces s = true -> digits_or_spaces (trim_left " " s) = true.
Proof.
  induction s as [|c r IH]; [done|].
  rewrite trim_left_cons. destruct (Ascii.eqb c " ") eqn:Hsp; [|done].
  rewrite digits_or_spaces_cons. intros H.
  apply andb_true_iff in H as [_ Hr]. by apply IH.
Qed.

Lemma digits_or_spaces_rev s acc :
  digits_or_spaces s = true -> digits_or_spaces acc = true ->
  digits_or_spaces (string_rev s acc) = true.
Proof.
  revert acc. induction s as [|c r IH]; intros acc; [done|].
  rewrite digits_or_spaces_cons. cbn [string_rev].
  intros H Hacc. apply andb_true_iff in H as [Hc Hr].
  apply IH; [done|]. by rewrite digits_or_spaces_cons, Hc, Hacc.
Qed.

Lemma digits_or_spaces_Trim s :
  digits_or_spaces s = true -> digits_or_spaces (strings_Trim s " ") = true.
Proof.
  intros H. unfold strings_Trim.
  apply digits_or_spaces_rev; [|done].
  apply digits_or_spaces_trim_left.
  apply digits_or_spaces_rev; [|done].
  by apply digits_or_spaces_trim_left.
Qed.

Lemma strings_Split_digits s cur :
  digits_or_spaces s = true -> all_digits cur = true ->
  Forall (fun p => all_digits p = true) (strings_Split s " " cur).
Proof.
  revert cur. induction s as [|c r IH]; intros cur.
  - by constructor.
  - rewrite digits_or_spaces_cons, strings_Split_cons.
    intros H Hcur. apply andb_true_iff in H as [Hc Hr].
    destruct (Ascii.eqb c " ") eqn:Hsp.
    + constructor; [done | by apply IH].
    + apply IH; [done|]. rewrite all_digits_app, Hcur.
      rewrite orb_false_r in Hc. cbn [all_digits]. by rewrite Hc.
Qed.

Lemma range_parts_digits (v : string) :
  Forall (fun p => all_digits p = true) (range_parts v).
Proof.
  unfold range_parts. apply strings_Split_digits; [|done].
  apply digits_or_spaces_Trim. apply digits_or_spaces_replace.
Qed.



Lemma in_sequence_consecutive (l : list Z) :
  Forall (fun x => 0 <= x <= max_int) l ->
  in_sequence l = true <-> consecutive l.
Proof.
  induction l as [|x l IH]; [done|]. destruct l as [|y r]; [done|].
  intros H. inversion H as [|? ? Hx Hl]; subst.
  inversion Hl as [|? ? Hy _]; subst. specialize (IH Hl).
  change (in_sequence (x :: y :: r))
    with (if wrap (x + 1) =? y then in_sequence (y :: r) else false).
  change (consecutive (x :: y :: r)) with (y = x + 1 /\ consecutive (y :: r)).
  destruct (Z.eq_dec x max_int) as [->|Hne].
  - replace (wrap (max_int + 1)) with min_int by reflexivity.
    destruct (Z.eqb_spec min_int y) as [<-|_];
      unfold min_int, max_int in *; [lia|]. split; [done | lia].
  - rewrite wrap_small by (unfold min_int, max_int in *; lia).
    destruct (Z.eqb_spec (x + 1) y) as [<-|Hxy].
    + rewrite IH. tauto.
    + split; [done | intros [-> _]; lia].
Qed.

Lemma consecutive_run (a : Z) (k n : nat) :
  consecutive (List.map (fun i => a + Z.of_nat i) (seq k n)).
Proof.
  revert k. induction n as [|n IH]; intros k; [done|].
  destruct n as [|n]; [done|].
  change (seq k (S (S n))) with (k :: seq (S k) (S n)).
  specialize (IH (S k)). change (seq (S k) (S n)) with (S k :: seq (S (S k)) n) in *.
  simpl in *. split; [lia | exact IH].
Qed.

Lemma elem_of_inclusive_run (a b x : Z) :
  a <= b -> (x ∈ inclusive_run a b <-> a <= x <= b).
Proof.
  intros Hab. unfold inclusive_run. rewrite list_elem_of_In, in_map_iff.
  split.
  - intros (i & <- & Hi). apply in_seq in Hi. lia.
  - intros Hx. exists (Z.to_nat (x - a)). split; [lia|].
    apply in_seq. lia.
Qed.

Lemma make_run_inclusive (a b : Z) :
  0 <= a -> a < b -> b <= max_int -> b - a + 1 <= max_slice_len ->
  make_run a (wrap (wrap (b - a) + 1)) = Ok (inclusive_run a b).
Proof.
  intros Ha Hab Hb Hlen.
  assert (Hmax : max_slice_len < max_int) by reflexivity.
  rewrite (wrap_small (b - a)) by (unfold min_int, max_int in *; lia).
  rewrite wrap_small by (unfold min_int, max_int in *; lia).
  unfold make_run.
  destruct (Z.ltb_spec (b - a + 1) 0) as [?|_]; [lia|].
  destruct (Z.ltb_spec max_slice_len (b - a + 1)) as [?|_]; [lia|].
  simpl. f_equal. unfold inclusive_run. apply map_ext_in.
  intros i Hi. apply in_seq in Hi.
  apply wrap_small. unfold min_int, max_int in *. lia.
Qed.

Lemma inclusive_run_bounds (a b : Z) :
  0 <= a -> b <= max_int ->
  Forall (fun x => 0 <= x <= max_int) (inclusive_run a b).
Proof.
  intros Ha Hb. apply Forall_forall. intros x Hx.
  unfold inclusive_run in Hx. apply list_elem_of_In in Hx.
  apply in_map_iff in Hx as (i & <- & Hi).
  apply in_seq in Hi. lia.
Qed.

Lemma in_sequence_inclusive_run (a b : Z) :
  0 <= a -> b <= max_int -> in_sequence (inclusive_run a b) = true.
Proof.
  intros Ha Hb. apply in_sequence_consecutive.
  - by apply inclusive_run_bounds.
  - apply consecutive_run.
Qed.


(** The value [to_int_range] leaves, in terms of the numbers it read. *)
Lemma to_int_range_unfold (t : string) (m : parseMeta) (result : resmap)
    (v : string) :
  value m = Str v ->
  to_int_range t m result =
    (nums ← match List.map atoi_or_zero (range_parts v) with
            | [a; b] =>
                if a <? b then make_run a (wrap (wrap (b - a) + 1))
                else Ok [a; b]
            | nums => Ok nums
            end;
     if in_sequence nums then Ok (set_value (Ints nums) m, result)
     else Ok (set_value Nil m, result)).
Proof.
  intros Hv. unfold to_int_range. rewrite Hv.
  by destruct (List.map atoi_or_zero (range_parts v)) as [|a [|b [|c r]]].
Qed.




(** *** The normalizer *)

(** C6. [Normalize] is idempotent, and it leaves a record that is already
    normalized as it is; so does [normalized] of the port. *)
Theorem Normalize_idempotent (ToLower : string -> string) (r : Result) :
  Normalize ToLower (Normalize ToLower r) = Normalize ToLower r /\
  (is_normalized r = true -> Normalize ToLower r = r) /\
  normalized ToLower (normalized ToLower r) = normalized ToLower r /\
  (is_normalized r = true -> normalized ToLower r = r).
Proof.
  destruct r as [a0 a1 a2 a3 a4 a5 a6 a7 a8 a9 a10 a11 a12 a13 a14 a15 a16
                 a17 a18 a19 a20 a21 a22 a23 a24 a25 a26 a27 a28 a29 a30 a31
                 a32 a33 a34 a35 a36 a37 a38 a39 e n].
  unfold Normalize, normalized.
  destruct e as [msg|]; destruct n; simpl; repeat split; try done.
Qed.

Lemma Normalize_idempotent_witness :
  Normalize (fun s => s) (set_is_normalized true (set_Codec "x264" zero_Result))
  = set_is_normalized true (set_Codec "x264" zero_Result).
Proof.
  pose proof (Normalize_idempotent (fun s => s)
                (set_is_normalized true (set_Codec "x264" zero_Result)))
    as (_ & H & _).
  exact (H eq_refl).
Defined.

(** *** The partial parser *)

Lemma select_handlers_filter (sel : gset string) (table acc : list handler) :
  Go.select_handlers sel table acc
  = (acc ++ List.filter (fun h => bool_decide (Field h ∈ sel)) table)%list.
Proof.
  revert acc. induction table as [|h rest IH]; intros acc; simpl.
  - by rewrite app_nil_r.
  - destruct (bool_decide (Field h ∈ sel)); rewrite IH; [|done].
    by rewrite <- app_assoc.
Qed.

Lemma filter_requested (fieldNames : list string) (table : list handler) :
  List.filter
    (fun h => bool_decide (Field h ∈ (list_to_set fieldNames : gset string)))
    table
  = List.filter (fun h => bool_decide (Field h ∈ fieldNames)) table.
Proof.
  apply filter_ext. intros h. apply bool_decide_ext.
  apply elem_of_list_to_set.
Qed.

Lemma filter_sublist {A : Type} (f : A -> bool) (l : list A) :
  sublist (List.filter f l) l.
Proof.
  induction l as [|x l IH]; simpl; [constructor|].
  destruct (f x); by constructor.
Qed.

(** C8. The reduced rule list holds exactly the rules of the table whose
    field is one of the requested names, in the order of the table, and the
    parser that is returned is the engine run with that list, in [ptt.go] and
    in the port. [GetPartialParser] has no means to add a rule whose field
    is not requested; in a table in which every rule declares a field, as
    in both rule tables, there is no rule without a declared field to add,
    and the reduced list is the list of the requested fields together with
    the rules that declare none. *)
Theorem partial_parser_reduced_list (orders : parse_order)
    (korder : range_order) (clean_title cleanTitle : string -> string)
    (handlers : list handler) (fieldNames : list string) :
  let reduced :=
    List.filter (fun h => bool_decide (Field h ∈ fieldNames)) handlers in
  (forall input,
     Go.GetPartialParser orders clean_title handlers fieldNames input
     = Go.parse orders clean_title input reduced) /\
  (forall input,
     Kt.getPartialParser korder cleanTitle handlers fieldNames input
     = Kt.parse korder cleanTitle input reduced) /\
  (forall h, h ∈ reduced <-> h ∈ handlers /\ Field h ∈ fieldNames) /\
  sublist reduced handlers /\
  (Forall (fun h => Field h <> "") handlers ->
   reduced = requested_or_fieldless fieldNames handlers /\
   (forall input,
      Go.GetPartialParser orders clean_title handlers fieldNames input
      = Go.parse orders clean_title input
          (requested_or_fieldless fieldNames handlers)) /\
   (forall input,
      Kt.getPartialParser korder cleanTitle handlers fieldNames input
      = Kt.parse korder cleanTitle input
          (requested_or_fieldless fieldNames handlers))).
Proof.
  intros reduced.
  assert (HG : forall input,
     Go.GetPartialParser orders clean_title handlers fieldNames input
     = Go.parse orders clean_title input reduced).
  { intros input. unfold Go.GetPartialParser.
    by rewrite select_handlers_filter, filter_requested. }
  assert (HK : forall input,
     Kt.getPartialParser korder cleanTitle handlers fieldNames input
     = Kt.parse korder cleanTitle input reduced).
  { intros input. unfold Kt.getPartialParser. by rewrite filter_requested. }
  split; [exact HG|]. split; [exact HK|]. split; [|split].
  - intros h. split.
    + intros H. unfold reduced in H.
      apply list_elem_of_In, filter_In in H as [H1 H2]. split.
      * by apply list_elem_of_In.
      * by apply bool_decide_eq_true in H2.
    + intros [Hin Hf]. apply list_elem_of_In, filter_In. split.
      * by apply list_elem_of_In.
      * by apply bool_decide_eq_true.
  - apply filter_sublist.
  - intros Hall.
    assert (Heq : reduced = requested_or_fieldless fieldNames handlers).
    { unfold reduced, requested_or_fieldless. clear HG HK.
      induction Hall as [|h rest Hh _ IH]; [done|]. cbn [List.filter].
      apply String.eqb_neq in Hh. rewrite Hh, orb_false_r.
      by destruct (bool_decide _); rewrite IH. }
    split; [done|]. rewrite <- Heq. by split.
Qed.

Lemma partial_parser_reduced_list_witness :
  List.map Field (requested_or_fieldless ["region"] region_table)
  = ["region"] /\
  Go.GetPartialParser example_orders example_clean region_table ["region"]
                      "2020 R5"
  = Go.parse example_orders example_clean "2020 R5"
             (requested_or_fieldless ["region"] region_table).
Proof.
  split; [reflexivity|].
  destruct (partial_parser_reduced_list example_orders example_order
              example_clean example_clean region_table ["region"])
    as (_ & _ & _ & _ & H).
  destruct H as (_ & HG & _); [|apply HG].
  repeat (apply Forall_cons; split; [done|]). apply Forall_nil_2.
Defined.

(** *** The recover barrier *)

Lemma index_fault (xs : list Z) (i : Z) (p : panic_value) :
  index xs i = Panic p -> exists msg, p = RuntimeError msg.
Proof.
  unfold index. intros H. fault_cases H; injection H as <-; by eexists.
Qed.

Lemma slice_fault (s : string) (lo hi : Z) (p : panic_value) :
  slice s lo hi = Panic p -> exists msg, p = RuntimeError msg.
Proof.
  unfold slice. intros H. fault_cases H; injection H as <-; by eexists.
Qed.

(** The panic of a branch is a runtime error: it is raised by the engine, by
    an index, by a slice, or by a closure of the rule. *)
Ltac fault_done :=
  match goal with
  | E : true = false |- _ => discriminate E
  | E : false = true |- _ => discriminate E
  | H : Panic ?q = Panic ?p |- _ =>
      injection H as <-;
      first
        [ by eexists
        | match goal with
          | E : index _ _ = Panic _ |- _ => by apply index_fault in E
          end
        | match goal with
          | E : slice _ _ _ = Panic _ |- _ => by apply slice_fault in E
          end
        | match goal with
          | Hh : raises_errors_only _ |- _ =>
              let Hv := fresh in let Ht := fresh in let Hp := fresh in
              destruct Hh as (Hv & Ht & Hp);
              first [by eapply Hv | by eapply Ht | by eapply Hp]
          end ]
  end.

Lemma Go_record_match_fault h st idxs idx0 p :
  Go.record_match h st idxs idx0 = Panic p ->
  exists msg, p = RuntimeError msg.
Proof.
  unfold Go.record_match. intros H. fault_cases H. all: fault_done.
Qed.

Lemma Go_match_pattern_fault order h re st p :
  raises_errors_only h ->
  Go.match_pattern order h re st = Panic p ->
  exists msg, p = RuntimeError msg.
Proof.
  intros Hh. unfold Go.match_pattern. intros H.
  fault_cases H. all: try fault_done.
  all: by eapply Go_record_match_fault.
Qed.

Lemma Go_evaluate_fault order h st p :
  raises_errors_only h ->
  Go.evaluate order h st = Panic p -> exists msg, p = RuntimeError msg.
Proof.
  intros Hh. unfold Go.evaluate. intros H.
  fault_cases H. all: try fault_done.
  all: injection H as <-; by eapply Go_match_pattern_fault.
Qed.

Lemma Go_commit_fault h st m skip p :
  Go.commit h st m skip = Panic p -> exists msg, p = RuntimeError msg.
Proof.
  unfold Go.commit. intros H. fault_cases H. all: fault_done.
Qed.

Lemma Go_step_fault order h st p :
  raises_errors_only h ->
  Go.step order h st = Panic p -> exists msg, p = RuntimeError msg.
Proof.
  intros Hh. unfold Go.step. intros H.
  destruct (Go.evaluate order h st) as [[st1|st1 m skip]|q] eqn:Hev;
    cbn in H; try discriminate H.
  - by eapply Go_commit_fault.
  - injection H as <-. by eapply Go_evaluate_fault.
Qed.

Lemma Go_run_handlers_fault orders i handlers st p :
  Forall raises_errors_only handlers ->
  Go.run_handlers orders i handlers st = Panic p ->
  exists msg, p = RuntimeError msg.
Proof.
  intros Hall. revert i st.
  induction Hall as [|h rest Hh _ IH]; intros i st.
  - discriminate.
  - cbn [Go.run_handlers].
    destruct (Go.step (turn_ranges orders i) h st) as [st'|q] eqn:Hstep.
    + rewrite ebind_Ok. apply IH.
    + intros [= <-]. by eapply Go_step_fault.
Qed.

Lemma Go_assemble_fault entries r r' p :
  Go.assemble entries r = (r', Some p) -> exists msg, p = RuntimeError msg.
Proof.
  revert r. induction entries as [|[f fm] rest IH]; intros r; [done|].
  cbn [Go.assemble]. destruct (slot_of_field f) as [s|]; [|apply IH].
  destruct (assign s (value fm) r) as [r1|q] eqn:Has; [apply IH|].
  intros [= _ <-]. destruct s, (value fm); try discriminate Has;
    injection Has as <-; by eexists.
Qed.

Lemma Kt_record_match_fault h st idxs idx0 p :
  Kt.record_match h st idxs idx0 = Panic p ->
  exists msg, p = RuntimeError msg.
Proof.
  unfold Kt.record_match. intros H. fault_cases H. all: fault_done.
Qed.

Lemma Kt_match_pattern_fault h re st p :
  raises_errors_only h ->
  Kt.match_pattern h re st = Panic p -> exists msg, p = RuntimeError msg.
Proof.
  intros Hh. unfold Kt.match_pattern. intros H.
  fault_cases H. all: try fault_done.
  all: by eapply Kt_record_match_fault.
Qed.

Lemma Kt_evaluate_fault order h st p :
  raises_errors_only h ->
  Kt.evaluate order h st = Panic p -> exists msg, p = RuntimeError msg.
Proof.
  intros Hh. unfold Kt.evaluate. intros H.
  fault_cases H. all: try fault_done.
  all: injection H as <-; by eapply Kt_match_pattern_fault.
Qed.

Lemma Kt_commit_fault h st m skip p :
  Kt.commit h st m skip = Panic p -> exists msg, p = RuntimeError msg.
Proof.
  unfold Kt.commit. intros H. fault_cases H. all: fault_done.
Qed.

Lemma Kt_step_fault order h st p :
  raises_errors_only h ->
  Kt.step order h st = Panic p -> exists msg, p = RuntimeError msg.
Proof.
  intros Hh. unfold Kt.step. intros H.
  destruct (Kt.evaluate order h st) as [[st1|st1 m skip]|q] eqn:Hev;
    cbn in H; try discriminate H.
  - by eapply Kt_commit_fault.
  - injection H as <-. by eapply Kt_evaluate_fault.
Qed.

Lemma Kt_run_handlers_fault order handlers st p :
  Forall raises_errors_only handlers ->
  Kt.run_handlers order handlers st = Panic p ->
  exists msg, p = RuntimeError msg.
Proof.
  intros Hall. revert st. induction Hall as [|h rest Hh _ IH]; intros st.
  - discriminate.
  - cbn [Kt.run_handlers]. destruct (Kt.step order h st) as [st'|q] eqn:Hstep.
    + rewrite ebind_Ok. apply IH.
    + intros [= <-]. by eapply Kt_step_fault.
Qed.

(** A record returned for a fault: the error is set and nothing else. *)
Lemma error_record (msg : string) :
  err (set_err (Some msg) zero_Result) = Some msg /\
  Title (set_err (Some msg) zero_Result) = "" /\
  is_normalized (set_err (Some msg) zero_Result) = false /\
  forall s, get s (set_err (Some msg) zero_Result) = get s zero_Result.
Proof. repeat split. Qed.

(** C3. A runtime fault raised while the rules are evaluated does not leave
    [parse]: a record is returned whose error is set, to the message of the
    fault, and whose other fields, the title among them, are at their zero
    values. The engine itself raises runtime errors only, so with closures
    that raise runtime errors only every call returns a record, and that
    record has an error and its other fields at zero whenever the rule loop
    faulted. *)
Theorem parse_recovers_rule_faults (orders : parse_order)
    (korder : range_order) (clean_title cleanTitle : string -> string)
    (input : string) (handlers : list handler) :
  (forall msg,
     Go.run_rules orders input handlers = Panic (RuntimeError msg) ->
     exists r,
       Go.parse orders clean_title input handlers = Returned r /\
       err r = Some msg /\ Title r = "" /\ is_normalized r = false /\
       forall s, get s r = get s zero_Result) /\
  (forall msg,
     Kt.run_rules korder input handlers = Panic (RuntimeError msg) ->
     exists r,
       Kt.parse korder cleanTitle input handlers = Returned r /\
       err r = Some msg /\ Title r = "" /\ is_normalized r = false /\
       forall s, get s r = get s zero_Result) /\
  (Forall raises_errors_only handlers ->
   (exists r,
      Go.parse orders clean_title input handlers = Returned r /\
      forall p,
        Go.run_rules orders input handlers = Panic p ->
        err r <> None /\ Title r = "" /\
        forall s, get s r = get s zero_Result) /\
   (exists r,
      Kt.parse korder cleanTitle input handlers = Returned r /\
      forall p,
        Kt.run_rules korder input handlers = Panic p ->
        err r <> None /\ Title r = "" /\
        forall s, get s r = get s zero_Result)).
Proof.
  split; [|split].
  - intros msg H. eexists. split; [unfold Go.parse; by rewrite H|].
    apply error_record.
  - intros msg H. eexists. split; [unfold Kt.parse; by rewrite H|].
    apply error_record.
  - intros Hall. split.
    + unfold Go.parse, Go.run_rules.
      destruct (Go.run_handlers orders 0 handlers (Go.init_state input))
        as [st|p] eqn:Hrun.
      * destruct (Go.assemble (assembly_range orders (result st)) zero_Result)
          as [r [p|]] eqn:Has.
        -- apply Go_assemble_fault in Has as [msg ->]. by eexists.
        -- destruct (slice _ _ _) as [prefix|p] eqn:Hs; [by eexists|].
           apply slice_fault in Hs as [msg ->]. by eexists.
      * apply Go_run_handlers_fault in Hrun as [msg ->]; [|done].
        eexists. split; [reflexivity|]. intros p _.
        destruct (error_record msg) as (He & HT & _ & Hget).
        split; [by rewrite He|]. by split.
    + unfold Kt.parse, Kt.run_rules.
      destruct (Kt.run_handlers korder handlers (Kt.init_state input))
        as [st|p] eqn:Hrun.
      * rewrite ebind_Ok.
        destruct (slice _ _ _) as [prefix|p] eqn:Hs; [by eexists|].
        apply slice_fault in Hs as [msg ->]. by eexists.
      * apply Kt_run_handlers_fault in Hrun as [msg ->]; [|done].
        eexists. split; [reflexivity|]. intros p _.
        destruct (error_record msg) as (He & HT & _ & Hget).
        split; [by rewrite He|]. by split.
Qed.

(** *** Skip-if-first *)

Lemma existsb_Permutation {A : Type} (f : A -> bool) (l1 l2 : list A) :
  l1 ≡ₚ l2 -> existsb f l1 = existsb f l2.
Proof.
  induction 1 as [|x l1 l2 _ IH|x y l|l1 l2 l3 _ IH1 _ IH2]; simpl.
  - done.
  - by rewrite IH.
  - by rewrite !orb_assoc, (orb_comm (f y)).
  - by rewrite IH1.
Qed.

Lemma existsb_order (order : range_order) (result : resmap)
    (f : string * parseMeta -> bool) :
  valid_order order ->
  existsb f (order result) = true
  <-> exists k m, result !! k = Some m /\ f (k, m) = true.
Proof.
  intros Hord. rewrite (existsb_Permutation f _ _ (Hord result)).
  rewrite existsb_exists. split.
  - intros ([k m] & Hin & Hf). exists k, m. split; [|done].
    by apply elem_of_map_to_list, list_elem_of_In.
  - intros (k & m & Hk & Hf). exists (k, m). split; [|done].
    by apply list_elem_of_In, elem_of_map_to_list.
Qed.

(** The loop, without its early exit. *)
Lemma skip_if_first_loop_existsb (entries : list (string * parseMeta))
    (field : string) (idx0 : Z) (hasOther : bool) :
  Go.skip_if_first_loop entries field idx0 hasOther false
  = if existsb (fun kv => negb (String.eqb (fst kv) field)
                          && (idx0 >=? mIndex (snd kv))) entries
    then (true, true)
    else (hasOther
          || existsb (fun kv => negb (String.eqb (fst kv) field)) entries,
          false).
Proof.
  revert hasOther. induction entries as [|[f fm] rest IH]; intros hasOther.
  - simpl. by rewrite orb_false_r.
  - cbn [Go.skip_if_first_loop existsb fst snd].
    destruct (negb (String.eqb f field)); cbn [andb orb].
    + destruct (idx0 >=? mIndex fm); [done|]. rewrite IH.
      destruct (existsb _ rest); [done|]. by rewrite orb_true_r.
    + by rewrite IH.
Qed.

Lemma skip_if_first_existsb (entries : list (string * parseMeta))
    (field : string) (idx0 : Z) :
  Go.skip_if_first entries field idx0
  = existsb (fun kv => negb (String.eqb (fst kv) field)) entries
    && negb (existsb (fun kv => negb (String.eqb (fst kv) field)
                                && (idx0 >=? mIndex (snd kv))) entries).
Proof.
  unfold Go.skip_if_first. rewrite skip_if_first_loop_existsb.
  destruct (existsb (fun kv => _ && _) entries); simpl.
  - by rewrite andb_false_r.
  - by rewrite andb_true_r.
Qed.

Lemma skip_if_first_comes_first (order : range_order) (result : resmap)
    (field : string) (idx0 : Z) :
  valid_order order ->
  Go.skip_if_first (order result) field idx0 = true
  <-> comes_first result field idx0.
Proof.
  intros Hord. rewrite skip_if_first_existsb, andb_true_iff, negb_true_iff.
  rewrite existsb_order by done.
  rewrite <- not_true_iff_false, existsb_order by done.
  unfold comes_first. split.
  - intros [(f & fm & Hf & Hne) Hnone]. split.
    + exists f, fm. split; [done|]. simpl in Hne.
      apply negb_true_iff in Hne. by apply String.eqb_neq.
    + intros g gm Hg Hgne. destruct (Z_lt_ge_dec idx0 (mIndex gm)); [done|].
      exfalso. apply Hnone. exists g, gm. split; [done|]. simpl.
      apply andb_true_iff. split.
      * apply negb_true_iff. by apply String.eqb_neq.
      * apply Z.geb_le. lia.
  - intros [(f & fm & Hf & Hne) Hall]. split.
    + exists f, fm. split; [done|]. simpl.
      apply negb_true_iff. by apply String.eqb_neq.
    + intros (g & gm & Hg & Hb). simpl in Hb.
      apply andb_true_iff in Hb as [Hgne Hge].
      apply negb_true_iff, String.eqb_neq in Hgne.
      apply Z.geb_le in Hge. specialize (Hall g gm Hg Hgne). lia.
Qed.

Lemma index_head (x : Z) (xs : list Z) : index (x :: xs) 0 = Ok x.
Proof.
  unfold index. cbn [List.length]. rewrite Nat2Z.inj_succ.
  destruct (Z.ltb_spec 0 (Z.succ (Z.of_nat (List.length xs)))); [done | lia].
Qed.

Lemma candidate_clear h re st idx0 rest :
  candidate h re st idx0 rest -> candidate (clear_SkipIfFirst h) re st idx0 rest.
Proof. done. Qed.

Lemma eligible_test (h : handler) (st : loop_state) :
  result st !! Field h = None \/ KeepMatching h = true ->
  bool_decide (is_Some (result st !! Field h)) && negb (KeepMatching h)
  = false.
Proof.
  intros [Hnone|Hkeep].
  - rewrite Hnone. by rewrite bool_decide_eq_false_2 by (by intros [? ?]).
  - rewrite Hkeep. apply andb_false_r.
Qed.

Lemma Go_match_pattern_candidate (order : turn_order) h re st idx0 rest :
  candidate h re st idx0 rest ->
  Go.match_pattern order h re st
  = if SkipIfFirst h
       && Go.skip_if_first (order SkipIfFirstRange (result st)) (Field h) idx0
    then Ok None
    else if Go.skip_if_before (result st) (SkipIfBefore h) idx0 then Ok None
    else Go.record_match h st (idx0 :: rest) idx0.
Proof.
  intros (_ & Helig & Hre & Hval). unfold Go.match_pattern.
  rewrite (eligible_test h st Helig), Hre.
  cbn [List.length]. rewrite Nat2Z.inj_succ.
  destruct (Z.eqb_spec (Z.succ (Z.of_nat (List.length rest))) 0) as [?|_];
    [lia|].
  destruct (ValidateMatch h) as [validate|].
  - rewrite Hval, ebind_Ok. cbn [negb]. by rewrite index_head, ebind_Ok.
  - rewrite ebind_Ok. cbn [negb]. by rewrite index_head, ebind_Ok.
Qed.

Lemma Kt_match_pattern_candidate (h : handler) re st idx0 rest :
  candidate h re st idx0 rest ->
  Kt.match_pattern h re st
  = if SkipIfFirst h && Kt.skip_if_first (result st) (Field h) idx0
    then Ok None
    else if Go.skip_if_before (result st) (SkipIfBefore h) idx0 then Ok None
    else Kt.record_match h st (idx0 :: rest) idx0.
Proof.
  intros (_ & Helig & Hre & Hval). unfold Kt.match_pattern.
  rewrite (eligible_test h st Helig), Hre.
  cbn [List.length]. rewrite Nat2Z.inj_succ.
  destruct (Z.eqb_spec (Z.succ (Z.of_nat (List.length rest))) 0) as [?|_];
    [lia|].
  destruct (ValidateMatch h) as [validate|].
  - rewrite Hval, ebind_Ok. cbn [negb]. by rewrite index_head, ebind_Ok.
  - rewrite ebind_Ok. cbn [negb]. by rewrite index_head, ebind_Ok.
Qed.

(** In the port the test also reads the cell of the field itself; without
    such a cell it is the test of [ptt.go]. *)
Lemma Kt_skip_if_first_comes_first (result : resmap) (field : string)
    (idx0 : Z) :
  result !! field = None ->
  Kt.skip_if_first result field idx0 = true
  <-> comes_first result field idx0.
Proof.
  intros Hnone. unfold Kt.skip_if_first.
  rewrite andb_true_iff, negb_true_iff.
  assert (Hord : valid_order map_to_list) by (by intros ?).
  rewrite (existsb_order map_to_list) by done.
  rewrite <- not_true_iff_false, (existsb_order map_to_list) by done.
  unfold comes_first. split.
  - intros [(f & fm & Hf & Hne) Hnot]. split.
    + exists f, fm. split; [done|]. simpl in Hne.
      apply negb_true_iff in Hne. by apply String.eqb_neq.
    + intros g gm Hg _. destruct (Z_lt_ge_dec idx0 (mIndex gm)); [done|].
      exfalso. apply Hnot. exists g, gm. split; [done|]. simpl.
      apply Z.leb_le. lia.
  - intros [(f & fm & Hf & Hne) Hall]. split.
    + exists f, fm. split; [done|]. simpl.
      apply negb_true_iff. by apply String.eqb_neq.
    + intros (g & gm & Hg & Hb). simpl in Hb. apply Z.leb_le in Hb.
      assert (g <> field) by (intros ->; congruence).
      specialize (Hall g gm Hg ltac:(done)). lia.
Qed.

(** C1, the claim as stated fails, both ways. In "2020 R5" the year is
    recorded at offset 0, before the candidate "R5" at offset 5, and "region"
    has no cell: the candidate is kept. In "R5 2020" the year is recorded at
    offset 3, after the candidate at offset 0: the candidate is discarded. *)
Lemma skip_if_first_discards_the_first :
  cell_of "year" (Go.run_rules example_orders "2020 R5" region_table)
  = Ok (Some (0, Str "2020")) /\
  cell_of "region" (Go.run_rules example_orders "2020 R5" region_table)
  = Ok (Some (5, Str "R5")) /\
  cell_of "year" (Go.run_rules example_orders "R5 2020" region_table)
  = Ok (Some (3, Str "2020")) /\
  cell_of "region" (Go.run_rules example_orders "R5 2020" region_table)
  = Ok None.
Proof. repeat split; reflexivity. Qed.

(** C1, amended. For a rule marked skip-if-first whose pattern yields a
    validated candidate at [idx0], the engine discards the candidate (the
    state is left as it was) exactly when another field is recorded and
    every other field is recorded strictly after [idx0]; otherwise the rule
    goes on as it would without the mark. The cell of the field itself is
    not read; the port does the same when the field has no cell. *)
Theorem skip_if_first_policy (order : turn_order) (korder : range_order)
    (h : handler) (re : string -> list Z) (st : loop_state) (idx0 : Z)
    (rest : list Z)
    (Hord : valid_turn order) (Hmark : SkipIfFirst h = true)
    (Hcand : candidate h re st idx0 rest) :
  (comes_first (result st) (Field h) idx0 -> Go.step order h st = Ok st) /\
  (~ comes_first (result st) (Field h) idx0 ->
   Go.step order h st = Go.step order (clear_SkipIfFirst h) st) /\
  (result st !! Field h = None ->
   (comes_first (result st) (Field h) idx0 -> Kt.step korder h st = Ok st) /\
   (~ comes_first (result st) (Field h) idx0 ->
    Kt.step korder h st = Kt.step korder (clear_SkipIfFirst h) st)).
Proof.
  pose proof Hcand as (Hpat & _).
  pose proof (Go_match_pattern_candidate order _ _ _ _ _ Hcand) as HG.
  pose proof (Go_match_pattern_candidate order _ _ _ _ _
                (candidate_clear _ _ _ _ _ Hcand)) as HG'.
  pose proof (Kt_match_pattern_candidate _ _ _ _ _ Hcand) as HK.
  pose proof (Kt_match_pattern_candidate _ _ _ _ _
                (candidate_clear _ _ _ _ _ Hcand)) as HK'.
  rewrite Hmark in HG, HK. cbn [clear_SkipIfFirst SkipIfFirst andb] in HG', HK'.
  split; [|split].
  - intros Hfirst.
    apply (skip_if_first_comes_first (order SkipIfFirstRange)) in Hfirst;
      [|done].
    rewrite Hfirst in HG. unfold Go.step, Go.evaluate.
    by rewrite Hpat, HG.
  - intros Hnot.
    assert (Hskip : Go.skip_if_first (order SkipIfFirstRange (result st))
                      (Field h) idx0
                    = false).
    { apply not_true_iff_false. intros H. apply Hnot.
      by apply (skip_if_first_comes_first (order SkipIfFirstRange)). }
    rewrite Hskip in HG. cbn [andb] in HG.
    unfold Go.step, Go.evaluate.
    change (Pattern (clear_SkipIfFirst h)) with (Pattern h).
    rewrite Hpat, HG, HG'. reflexivity.
  - intros Hnone. split.
    + intros Hfirst. apply (Kt_skip_if_first_comes_first _ _ _ Hnone) in Hfirst.
      rewrite Hfirst in HK. unfold Kt.step, Kt.evaluate.
      by rewrite Hpat, HK.
    + intros Hnot.
      assert (Hskip : Kt.skip_if_first (result st) (Field h) idx0 = false).
      { apply not_true_iff_false. intros H. apply Hnot.
        by apply (Kt_skip_if_first_comes_first _ _ _ Hnone). }
      rewrite Hskip in HK. cbn [andb] in HK.
      unfold Kt.step, Kt.evaluate.
      change (Pattern (clear_SkipIfFirst h)) with (Pattern h).
      rewrite Hpat, HK, HK'. reflexivity.
Qed.

Lemma example_order_valid : valid_order example_order.
Proof. by intros result. Qed.

Lemma example_turn_valid : valid_turn example_turn.
Proof. intros site. apply example_order_valid. Qed.

Lemma example_orders_valid : valid_orders example_orders.
Proof.
  split; [intros i; apply example_turn_valid | apply example_order_valid].
Qed.

(** *** Title boundary tracking *)

Lemma Go_evaluate_survive (order : turn_order) (h : handler)
    (st st1 : loop_state) (m : parseMeta) (skip : bool) :
  Go.evaluate order h st = Ok (Survive st1 m skip) ->
  title st1 = title st /\ endOfTitle st1 = endOfTitle st.
Proof.
  unfold Go.evaluate. intros H. exec_cases H.
  all: try discriminate H.
  all: by injection H as <- <- <-.
Qed.

Lemma Kt_evaluate_survive (order : range_order) (h : handler)
    (st st1 : loop_state) (m : parseMeta) (skip : bool) :
  Kt.evaluate order h st = Ok (Survive st1 m skip) ->
  title st1 = title st /\ endOfTitle st1 = endOfTitle st
  /\ skip = SkipFromTitle h.
Proof.
  unfold Kt.evaluate. intros H. exec_cases H.
  all: try discriminate H.
  all: by injection H as <- <- <-.
Qed.

Lemma Go_commit_boundary (h : handler) (st st' : loop_state) (m : parseMeta)
    (skip : bool) :
  Go.commit h st m skip = Ok st' ->
  endOfTitle st'
  = if skip then
      if (Remove h || remove m) && (mIndex m <? endOfTitle st)
      then wrap (endOfTitle st - slen (mValue m)) else endOfTitle st
    else
      if negb (mIndex m =? 0) && (mIndex m <? endOfTitle st)
      then mIndex m else endOfTitle st.
Proof.
  unfold Go.commit. intros H.
  destruct m as [i v x rm pr]. cbn [mIndex mValue remove] in *.
  destruct (Remove h || rm) eqn:Hrem.
  - destruct (slice (title st) 0 i) as [before|]; [|discriminate H].
    destruct (slice (title st) _ _) as [after|]; [|discriminate H].
    injection H as <-. cbn. unfold Go.track_boundary. cbn.
    by destruct skip.
  - injection H as <-. cbn. unfold Go.track_boundary. cbn.
    apply orb_false_iff in Hrem as [_ ->].
    destruct skip; cbn [negb andb]; done.
Qed.

(** An application of a rule marked skip-from-title is skip-from-title. *)
Lemma Go_record_match_flag h st idxs idx0 m r skip :
  Go.record_match h st idxs idx0 = Ok (Some (m, r, skip)) ->
  SkipFromTitle h = true -> skip = true.
Proof.
  unfold Go.record_match. intros H Hflag. rewrite Hflag in H.
  exec_cases H; injection H as ? ? <-; by destruct (strings_Contains _ _).
Qed.

Lemma Go_match_pattern_flag order h re st m r skip :
  Go.match_pattern order h re st = Ok (Some (m, r, skip)) ->
  SkipFromTitle h = true -> skip = true.
Proof.
  unfold Go.match_pattern. intros H Hflag.
  exec_cases H; try discriminate H.
  all: by eapply Go_record_match_flag.
Qed.

Lemma Go_evaluate_flag order h st st1 m skip :
  Go.evaluate order h st = Ok (Survive st1 m skip) ->
  SkipFromTitle h = true -> skip = true.
Proof.
  unfold Go.evaluate. intros H Hflag.
  destruct (Pattern h) as [re|].
  - destruct (Go.match_pattern order h re st) as [[[[m0 r0] skip0]|]|p] eqn:Hm;
      try discriminate H.
    apply Go_match_pattern_flag in Hm; [|done]. subst skip0.
    exec_cases H; try discriminate H; by injection H as ? ? <-.
  - exec_cases H; try discriminate H; by injection H as ? ? <-.
Qed.

Lemma Kt_commit_boundary (h : handler) (st st' : loop_state) (m : parseMeta)
    (skip : bool) :
  Kt.commit h st m skip = Ok st' ->
  endOfTitle st'
  = if skip then
      if (Remove h || remove m) && (mIndex m <? endOfTitle st)
      then endOfTitle st - slen (mValue m) else endOfTitle st
    else
      if negb (mIndex m =? 0) && (mIndex m <? endOfTitle st)
      then mIndex m else endOfTitle st.
Proof.
  unfold Kt.commit. intros H.
  destruct m as [i v x rm pr]. cbn [mIndex mValue remove] in *.
  destruct (Remove h || rm) eqn:Hrem.
  - destruct (slice (title st) 0 i) as [before|]; [|discriminate H].
    destruct (slice (title st) _ _) as [after|]; [|discriminate H].
    injection H as <-. cbn. unfold Kt.track_boundary. cbn.
    by destruct skip.
  - injection H as <-. cbn. unfold Kt.track_boundary. cbn.
    apply orb_false_iff in Hrem as [_ ->].
    destruct skip; cbn [negb andb]; done.
Qed.

Lemma substring_full (s : string) : substring 0 (String.length s) s = s.
Proof. induction s as [|c r IH]; [done|]. simpl. by rewrite IH. Qed.

Lemma slice_full (s : string) :
  slice s 0 (Z.max (Z.min (slen s) (slen s)) 0) = Ok s.
Proof.
  unfold slice, slen. rewrite Z.min_id, Z.max_l by lia.
  destruct (Z.leb_spec 0 (Z.of_nat (String.length s))) as [_|?]; [|lia].
  destruct (Z.leb_spec (Z.of_nat (String.length s))
                       (Z.of_nat (String.length s))) as [_|?]; [|lia].
  cbn [Z.leb andb Z.compare]. rewrite Z.sub_0_r, Nat2Z.id.
  by rewrite substring_full.
Qed.

Lemma Go_step_nothing (order : turn_order) (h : handler) (st : loop_state) :
  finds_nothing (title st) h -> result st = ∅ -> Go.step order h st = Ok st.
Proof.
  intros Hno Hres. unfold finds_nothing in Hno.
  unfold Go.step, Go.evaluate.
  destruct (Pattern h) as [re|].
  - unfold Go.match_pattern. rewrite Hno. by destruct (_ && _).
  - destruct (Process h) as [process|]; [|done].
    rewrite ebind_Ok, Hres, lookup_empty.
    destruct (Hno (order ProcessorRange)) as (m & -> & Hnil).
    rewrite ebind_Ok. cbn beta iota. rewrite Hnil. cbn [negb].
    rewrite ebind_Ok. cbn beta iota.
    assert (Hst : mkState (title st) (delete (Field h) ∅) (endOfTitle st)
                  = st).
    { rewrite delete_empty, <- Hres. by destruct st. }
    destruct (Transform h); rewrite ?Hnil; cbn [negb]; rewrite ebind_Ok;
      cbn beta iota; rewrite Hnil; by rewrite Hst.
Qed.

Lemma Kt_step_nothing (order : range_order) (h : handler) (st : loop_state) :
  finds_nothing (title st) h -> result st = ∅ -> Kt.step order h st = Ok st.
Proof.
  intros Hno Hres. unfold finds_nothing in Hno.
  unfold Kt.step, Kt.evaluate.
  destruct (Pattern h) as [re|].
  - unfold Kt.match_pattern. rewrite Hno. by destruct (_ && _).
  - destruct (Process h) as [process|]; [|done].
    rewrite ebind_Ok, Hres, lookup_empty.
    destruct (Hno order) as (m & -> & Hnil).
    rewrite ebind_Ok. cbn beta iota. rewrite Hnil. cbn [negb].
    rewrite !ebind_Ok. cbn beta iota.
    rewrite delete_empty, <- Hres. by destruct st.
Qed.

Lemma Go_run_handlers_nothing (orders : parse_order) (i : nat)
    (handlers : list handler) (st : loop_state) :
  Forall (finds_nothing (title st)) handlers -> result st = ∅ ->
  Go.run_handlers orders i handlers st = Ok st.
Proof.
  intros Hall Hres. revert i.
  induction Hall as [|h rest Hh _ IH]; intros i; [done|].
  cbn [Go.run_handlers]. by rewrite Go_step_nothing, ebind_Ok.
Qed.

Lemma Kt_run_handlers_nothing (order : range_order) (handlers : list handler)
    (st : loop_state) :
  Forall (finds_nothing (title st)) handlers -> result st = ∅ ->
  Kt.run_handlers order handlers st = Ok st.
Proof.
  intros Hall Hres. induction Hall as [|h rest Hh _ IH]; [done|].
  cbn [Kt.run_handlers]. by rewrite Kt_step_nothing, ebind_Ok.
Qed.

(** The rules without pattern of the table whose processors do not search
    the title find nothing while no field is recorded. *)
Lemma patternless_rules_idle (title : string) (h : handler) :
  h = edition_rule \/ h = subbed_rule \/ h = dubbed_rule \/ h = group_rule
  \/ (Pattern h = None /\ exists f, Process h = Some (remove_from_value f)) ->
  finds_nothing title h.
Proof.
  unfold finds_nothing.
  intros [->|[->|[->|[->|[Hp [f Hf]]]]]]; [| | | |rewrite Hp, Hf];
    intros order; by eexists.
Qed.

Lemma order_empty (order : range_order) :
  valid_order order -> order ∅ = [].
Proof.
  intros Hord. specialize (Hord ∅). rewrite map_to_list_empty in Hord.
  by apply Permutation_nil_r in Hord.
Qed.

(** C2, the claim as stated fails: in "Film 2020 www" the year puts the
    boundary at 5; "www" at offset 10 is removed under a skip-from-title rule
    and the boundary stays at 5, it is not retracted by 3. *)
Lemma boundary_not_retracted_past_it :
  boundary_of (Go.run_rules example_orders "Film 2020 www" (take 1 site_table))
  = Ok ("Film 2020 www", 5) /\
  boundary_of (Go.run_rules example_orders "Film 2020 www" site_table)
  = Ok ("Film 2020 ", 5) /\
  cell_of "site" (Go.run_rules example_orders "Film 2020 www" site_table)
  = Ok (Some (10, Str "www")).
Proof. repeat split; reflexivity. Qed.

(** C2, amended. After a rule application that survives rejection: when the
    application is not skip-from-title, the boundary becomes the offset of
    the match if that offset is not 0 and is below the boundary, and stays
    otherwise; when it is skip-from-title, the boundary is never set to the
    offset, it is retracted by the length of the removed text if the match
    was removed and its offset is below the boundary, and stays otherwise;
    an application of a rule marked skip-from-title is skip-from-title.
    So a match at offset 0 under a rule that is not skip-from-title leaves
    the boundary as it is, and for a title in which no rule finds anything
    (no pattern has a match, and the processor of every rule without pattern
    leaves its blank cell without value) the clean title is the cleanup of
    the whole working title. *)
Theorem title_boundary_tracking (orders : parse_order)
    (korder : range_order) (clean_title cleanTitle : string -> string)
    (Hord : valid_orders orders) :
  (forall order h st st1 m skip st',
     Go.evaluate order h st = Ok (Survive st1 m skip) ->
     Go.step order h st = Ok st' ->
     endOfTitle st'
     = if skip then
         if (Remove h || remove m) && (mIndex m <? endOfTitle st)
         then wrap (endOfTitle st - slen (mValue m)) else endOfTitle st
       else
         if negb (mIndex m =? 0) && (mIndex m <? endOfTitle st)
         then mIndex m else endOfTitle st) /\
  (forall h st st1 m skip st',
     Kt.evaluate korder h st = Ok (Survive st1 m skip) ->
     Kt.step korder h st = Ok st' ->
     endOfTitle st'
     = if SkipFromTitle h then
         if (Remove h || remove m) && (mIndex m <? endOfTitle st)
         then endOfTitle st - slen (mValue m) else endOfTitle st
       else
         if negb (mIndex m =? 0) && (mIndex m <? endOfTitle st)
         then mIndex m else endOfTitle st) /\
  (forall order h st st1 m skip,
     Go.evaluate order h st = Ok (Survive st1 m skip) ->
     SkipFromTitle h = true -> skip = true) /\
  (forall order h st st1 m st',
     Go.evaluate order h st = Ok (Survive st1 m false) ->
     Go.step order h st = Ok st' -> mIndex m = 0 ->
     endOfTitle st' = endOfTitle st) /\
  (forall input handlers,
     Forall (finds_nothing (title (Go.init_state input))) handlers ->
     Go.parse orders clean_title input handlers
     = Returned
         (set_Title (clean_title (title (Go.init_state input))) zero_Result))
  /\
  (forall input handlers,
     Forall (finds_nothing (title (Kt.init_state input))) handlers ->
     Kt.parse korder cleanTitle input handlers
     = Returned
         (set_Title (cleanTitle (title (Kt.init_state input))) zero_Result)).
Proof.
  assert (HG : forall order h st st1 m skip st',
     Go.evaluate order h st = Ok (Survive st1 m skip) ->
     Go.step order h st = Ok st' ->
     endOfTitle st'
     = if skip then
         if (Remove h || remove m) && (mIndex m <? endOfTitle st)
         then wrap (endOfTitle st - slen (mValue m)) else endOfTitle st
       else
         if negb (mIndex m =? 0) && (mIndex m <? endOfTitle st)
         then mIndex m else endOfTitle st).
  { intros order h st st1 m skip st' Hev Hstep. unfold Go.step in Hstep.
    rewrite Hev, ebind_Ok in Hstep.
    apply Go_evaluate_survive in Hev as [_ <-].
    by apply Go_commit_boundary. }
  split; [exact HG|]. split; [|split; [|split; [|split]]].
  - intros h st st1 m skip st' Hev Hstep. unfold Kt.step in Hstep.
    rewrite Hev, ebind_Ok in Hstep.
    apply Kt_evaluate_survive in Hev as (_ & <- & <-).
    by apply Kt_commit_boundary.
  - intros order h st st1 m skip. apply Go_evaluate_flag.
  - intros order h st st1 m st' Hev Hstep H0.
    rewrite (HG _ _ _ _ _ _ _ Hev Hstep), H0. done.
  - intros input handlers Hall. unfold Go.parse, Go.run_rules.
    rewrite Go_run_handlers_nothing by done.
    cbn [Go.init_state result]. rewrite order_empty by apply Hord.
    cbn [Go.assemble endOfTitle title]. by rewrite slice_full.
  - intros input handlers Hall. unfold Kt.parse, Kt.run_rules.
    rewrite Kt_run_handlers_nothing by done.
    rewrite ebind_Ok. cbn [Kt.init_state result endOfTitle title].
    by rewrite slice_full.
Qed.

(** *** The leading bracketed segment *)

Lemma index_second (x y : Z) (xs : list Z) : index (x :: y :: xs) 1 = Ok y.
Proof.
  unfold index. cbn [List.length]. rewrite !Nat2Z.inj_succ.
  destruct (Z.ltb_spec 1 (Z.succ (Z.succ (Z.of_nat (List.length xs)))));
    [done | lia].
Qed.

(** In [ptt.go] a match whose text occurs in the leading bracketed segment is
    skip-from-title for this application, whatever the flag of the rule. *)
Lemma Go_record_match_bracket (h : handler) (st : loop_state)
    (idx0 idx1 : Z) (rest : list Z) (raw : string) m r skip :
  slice (title st) idx0 idx1 = Ok raw ->
  strings_Contains (before_title_FindString (title st)) raw = true ->
  Go.record_match h st (idx0 :: idx1 :: rest) idx0 = Ok (Some (m, r, skip)) ->
  skip = true.
Proof.
  intros Hraw Hin. unfold Go.record_match.
  rewrite index_second, ebind_Ok, Hraw, ebind_Ok, Hin.
  intros H. exec_cases H; by injection H as ? ? <-.
Qed.

Lemma Go_leading_bracket_keeps_boundary (order : turn_order) (h : handler)
    (re : string -> list Z) (st st1 st' : loop_state) (idx0 idx1 : Z)
    (rest : list Z) (raw : string) (m : parseMeta) (skip : bool) :
  Pattern h = Some re ->
  re (title st) = idx0 :: idx1 :: rest ->
  slice (title st) idx0 idx1 = Ok raw ->
  strings_Contains (before_title_FindString (title st)) raw = true ->
  Go.evaluate order h st = Ok (Survive st1 m skip) ->
  Go.step order h st = Ok st' ->
  skip = true /\
  endOfTitle st'
  = if (Remove h || remove m) && (mIndex m <? endOfTitle st)
    then wrap (endOfTitle st - slen (mValue m)) else endOfTitle st.
Proof.
  intros Hpat Hre Hraw Hin Hev Hstep.
  assert (Hskip : skip = true).
  { clear Hstep. unfold Go.evaluate in Hev. rewrite Hpat in Hev.
    unfold Go.match_pattern in Hev. rewrite Hre, index_head in Hev.
    destruct (bool_decide _ && _); [discriminate Hev|].
    destruct (_ =? 0); [discriminate Hev|].
    assert (Hvalid : exists v,
              match ValidateMatch h with
              | Some validate => validate (title st) (idx0 :: idx1 :: rest)
              | None => Ok true
              end = v) by eauto.
    destruct Hvalid as [[[|]|?] Hvalid]; rewrite Hvalid in Hev;
      try discriminate Hev.
    repeat (first [rewrite ebind_Ok in Hev | progress cbn [negb] in Hev]).
    destruct (_ && _); [discriminate Hev|].
    destruct (Go.skip_if_before _ _ _); [discriminate Hev|].
    destruct (Go.record_match h st (idx0 :: idx1 :: rest) idx0)
      as [[[[m0 r0] skip0]|]|] eqn:Hrec; try discriminate Hev.
    apply (Go_record_match_bracket _ _ _ _ _ _ _ _ _ Hraw Hin) in Hrec.
    subst skip0. rewrite ebind_Ok in Hev.
    exec_cases Hev; try discriminate Hev; by injection Hev as ? ? <-. }
  split; [done|]. subst skip.
  unfold Go.step in Hstep. rewrite Hev, ebind_Ok in Hstep.
  apply Go_evaluate_survive in Hev as [_ <-].
  by apply Go_commit_boundary in Hstep.
Qed.

(** C9, where the port departs from the claim. In "[720p] Movie" the match
    "720p" occurs in the leading bracketed segment. [ptt.go] treats it as
    skip-from-title: the boundary stays at the end of the title, moved by the
    four bytes removed. The port computes [shouldSkipFromTitle] and does not
    read it: the boundary shrinks to the offset of the match, 1. *)
Theorem port_ignores_leading_bracket :
  boundary_of (Go.run_rules example_orders "[720p] Movie" bracket_table)
  = Ok ("[] Movie", 8) /\
  boundary_of (Kt.run_rules example_order "[720p] Movie" bracket_table)
  = Ok ("[] Movie", 1).
Proof. split; reflexivity. Qed.

(** *** The port against [ptt.go] *)

(** C10, where the port departs from [ptt.go]. In "EN FR 2020" the cell of
    "languages" is at offset 0 and the year at offset 6 when the rule for
    "FR", marked skip-if-first, finds its candidate at offset 3. [ptt.go]
    reads the other fields only and discards the candidate; the port also
    reads the cell of "languages" itself and keeps it. *)
Theorem port_skip_if_first_reads_own_cell :
  read Languages
    (Go.parse example_orders example_clean "EN FR 2020" languages_table)
  = Some ["en"] /\
  read Languages
    (Kt.parse example_order example_clean "EN FR 2020" languages_table)
  = Some ["en"; "fr"] /\
  read Year
    (Go.parse example_orders example_clean "EN FR 2020" languages_table)
  = Some "2020" /\
  read Year
    (Kt.parse example_order example_clean "EN FR 2020" languages_table)
  = Some "2020".
Proof. repeat split; vm_compute; reflexivity. Qed.

(** *** Witnesses *)

Lemma skip_if_first_policy_witness :
  let h := mkHandler "region" (Some (literal_index "R5")) None None None
                     false false true [] false 0 0 in
  let st := mkState "R5 2020"
                    {[ "year" := mkMeta 3 "2020" (Str "2020") false true ]}
                    3 in
  (comes_first (result st) (Field h) 0 -> Go.step example_turn h st = Ok st)
  /\
  (~ comes_first (result st) (Field h) 0 ->
   Go.step example_turn h st
   = Go.step example_turn (clear_SkipIfFirst h) st) /\
  (result st !! Field h = None ->
   (comes_first (result st) (Field h) 0 ->
    Kt.step example_order h st = Ok st) /\
   (~ comes_first (result st) (Field h) 0 ->
    Kt.step example_order h st
    = Kt.step example_order (clear_SkipIfFirst h) st)).
Proof.
  intros h st.
  exact (skip_if_first_policy example_turn example_order h
           (literal_index "R5") st 0 [2] example_turn_valid eq_refl
           (conj eq_refl (conj (or_introl eq_refl) (conj eq_refl I)))).
Defined.

Lemma title_boundary_tracking_witness :
  Go.parse example_orders example_clean "Film" patternless_table
  = Returned
      (set_Title (example_clean (title (Go.init_state "Film"))) zero_Result).
Proof.
  pose proof (title_boundary_tracking example_orders example_order
                example_clean example_clean example_orders_valid)
    as (_ & _ & _ & _ & H & _).
  apply H. apply Forall_cons; split; [reflexivity|].
  apply Forall_forall. intros h Hh. apply patternless_rules_idle.
  repeat (apply elem_of_cons in Hh as [->|Hh]; [by eauto 10|]).
  by apply elem_of_nil in Hh.
Defined.

Lemma parse_recovers_rule_faults_witness :
  cell_of "year"
    (Go.run_rules example_orders "Film 2020 www" (take 1 faulty_table))
  = Ok (Some (5, Str "2020")) /\
  (exists r,
     Go.parse example_orders example_clean "Film 2020 www" faulty_table
     = Returned r /\
     err r = Some "index out of range" /\ Title r = "" /\
     is_normalized r = false /\ forall s, get s r = get s zero_Result) /\
  (exists r,
     Kt.parse example_order example_clean "Film 2020 www" faulty_table
     = Returned r /\
     err r = Some "index out of range" /\ Title r = "" /\
     is_normalized r = false /\ forall s, get s r = get s zero_Result) /\
  (exists r,
     Go.parse example_orders example_clean "Film 2020 www" faulty_table
     = Returned r /\
     forall p,
       Go.run_rules example_orders "Film 2020 www" faulty_table = Panic p ->
       err r <> None /\ Title r = "" /\
       forall s, get s r = get s zero_Result).
Proof.
  destruct (parse_recovers_rule_faults example_orders example_order
              example_clean example_clean "Film 2020 www" faulty_table)
    as (HG & HK & Hall).
  split; [reflexivity|]. split; [|split].
  - apply HG. vm_compute. reflexivity.
  - apply HK. vm_compute. reflexivity.
  - apply Hall. repeat constructor; intros; discriminate.
Defined.

(** *** Independence of the range order *)

Lemma skip_if_first_order (o1 o2 : range_order) (result : resmap)
    (field : string) (idx0 : Z) :
  valid_order o1 -> valid_order o2 ->
  Go.skip_if_first (o1 result) field idx0
  = Go.skip_if_first (o2 result) field idx0.
Proof.
  intros H1 H2. rewrite !skip_if_first_existsb.
  assert (Hp : o1 result ≡ₚ o2 result) by (by rewrite (H1 result), (H2 result)).
  by rewrite !(existsb_Permutation _ _ _ Hp).
Qed.

Lemma group_overlap_existsb (entries : list (string * parseMeta))
    (endIndex : Z) :
  group_overlap entries endIndex
  = existsb (fun kv => (0 <? mIndex (snd kv)) && (mIndex (snd kv) <? endIndex))
            entries.
Proof.
  induction entries as [|[k km] rest IH]; [done|].
  cbn [group_overlap existsb snd]. rewrite IH. by destruct (_ && _).
Qed.

Lemma group_processor_order (o1 o2 : range_order) (t : string)
    (m : parseMeta) (result : resmap) :
  valid_order o1 -> valid_order o2 ->
  group_processor o1 t m result = group_processor o2 t m result.
Proof.
  intros H1 H2. unfold group_processor. rewrite !group_overlap_existsb.
  assert (Hp : o1 result ≡ₚ o2 result) by (by rewrite (H1 result), (H2 result)).
  by rewrite (existsb_Permutation _ _ _ Hp).
Qed.

Lemma Go_match_pattern_order (o1 o2 : turn_order) (h : handler)
    (re : string -> list Z) (st : loop_state) :
  valid_turn o1 -> valid_turn o2 ->
  Go.match_pattern o1 h re st = Go.match_pattern o2 h re st.
Proof.
  intros H1 H2. unfold Go.match_pattern.
  destruct (bool_decide _ && _); [done|]. destruct (_ =? 0); [done|].
  destruct (match ValidateMatch h with Some _ => _ | None => _ end)
    as [[|]|p]; try done.
  rewrite !ebind_Ok. cbn [negb].
  destruct (index (re (title st)) 0) as [idx0|p]; [|done].
  rewrite !ebind_Ok.
  by rewrite (skip_if_first_order (o1 SkipIfFirstRange) (o2 SkipIfFirstRange)).
Qed.

Lemma Go_evaluate_order (o1 o2 : turn_order) (h : handler)
    (st : loop_state) :
  valid_turn o1 -> valid_turn o2 -> order_insensitive h ->
  Go.evaluate o1 h st = Go.evaluate o2 h st.
Proof.
  intros H1 H2 Hh. unfold Go.evaluate.
  assert (Hm : match Pattern h with
               | Some re =>
                   r ← Go.match_pattern o1 h re st;
                   Ok (match r with
                       | Some (m, result, skip) => Some (Some m, result, skip)
                       | None => None
                       end)
               | None =>
                   Ok (Some (result st !! Field h, result st, SkipFromTitle h))
               end
             = match Pattern h with
               | Some re =>
                   r ← Go.match_pattern o2 h re st;
                   Ok (match r with
                       | Some (m, result, skip) => Some (Some m, result, skip)
                       | None => None
                       end)
               | None =>
                   Ok (Some (result st !! Field h, result st, SkipFromTitle h))
               end).
  { destruct (Pattern h) as [re|]; [|done].
    by rewrite (Go_match_pattern_order o1 o2). }
  rewrite Hm.
  match goal with
  | |- (?c ≫= _) = _ => destruct c as [[[[m result] skip]|]|p]; try done
  end.
  rewrite !ebind_Ok. unfold order_insensitive in Hh.
  destruct (Process h) as [process|]; [|done].
  destruct m as [m|]; by rewrite (Hh (o1 ProcessorRange) (o2 ProcessorRange)).
Qed.

Lemma Go_step_order (o1 o2 : turn_order) (h : handler) (st : loop_state) :
  valid_turn o1 -> valid_turn o2 -> order_insensitive h ->
  Go.step o1 h st = Go.step o2 h st.
Proof.
  intros H1 H2 Hh. unfold Go.step. by rewrite (Go_evaluate_order o1 o2).
Qed.

Lemma Go_run_handlers_order (o1 o2 : parse_order) (i : nat)
    (handlers : list handler) (st : loop_state) :
  valid_orders o1 -> valid_orders o2 -> Forall order_insensitive handlers ->
  Go.run_handlers o1 i handlers st = Go.run_handlers o2 i handlers st.
Proof.
  intros [H1 _] [H2 _] Hall. revert i st.
  induction Hall as [|h rest Hh _ IH]; intros i st; [done|].
  cbn [Go.run_handlers].
  rewrite (Go_step_order (turn_ranges o1 i) (turn_ranges o2 i)) by done.
  destruct (Go.step (turn_ranges o2 i) h st) as [st'|p]; [|done].
  rewrite !ebind_Ok. apply IH.
Qed.

(** The cases of the [switch] and the fields they write. *)

Lemma slot_of_field_name (s : slot) : slot_of_field (slot_name s) = Some s.
Proof. by destruct s. Qed.

Lemma slot_of_field_inv (field : string) (s : slot) :
  slot_of_field field = Some s -> field = slot_name s.
Proof.
  unfold slot_of_field. intros H.
  repeat match type of H with
         | (if String.eqb ?f ?x then _ else _) = _ =>
             destruct (String.eqb_spec f x) as [->|_];
               [by injection H as <- |]
         end.
  discriminate H.
Qed.

Lemma slot_name_inj (s1 s2 : slot) : slot_name s1 = slot_name s2 -> s1 = s2.
Proof.
  intros H. pose proof (slot_of_field_name s1) as H1.
  rewrite H, slot_of_field_name in H1. by injection H1.
Qed.

Lemma assign_accepts (s : slot) (v : any) (r : Result) :
  accepts s v = true -> exists r', assign s v r = Ok r'.
Proof. destruct s, v; try discriminate; intros _; by eexists. Qed.

Lemma assign_rejects (s : slot) (v : any) (r : Result) :
  accepts s v = false -> assign s v r = conversion_panic.
Proof. by destruct s, v. Qed.

Lemma get_assign (s : slot) (v : any) (r r' : Result) :
  assign s v r = Ok r' -> get s r' = v.
Proof.
  destruct s, v; try discriminate; intros [= <-]; by destruct r.
Qed.

Lemma get_assign_other (s s' : slot) (v : any) (r r' : Result) :
  assign s v r = Ok r' -> s' <> s -> get s' r' = get s' r.
Proof.
  destruct s, v; try discriminate; intros [= <-] Hne; destruct r;
    by destruct s'.
Qed.

Lemma assign_rest (s : slot) (v : any) (r r' : Result) :
  assign s v r = Ok r' ->
  Title r' = Title r /\ err r' = err r /\ is_normalized r' = is_normalized r.
Proof.
  destruct s, v; try discriminate; intros [= <-]; by destruct r.
Qed.

Lemma Result_ext (r1 r2 : Result) :
  (forall s, get s r1 = get s r2) ->
  Title r1 = Title r2 -> err r1 = err r2 ->
  is_normalized r1 = is_normalized r2 -> r1 = r2.
Proof.
  intros Hget HT He Hn. destruct r1, r2. cbn in HT, He, Hn. subst.
  pose proof (Hget SAudio) as [= ->]. pose proof (Hget SBitDepth) as [= ->].
  pose proof (Hget SChannels) as [= ->]. pose proof (Hget SCodec) as [= ->].
  pose proof (Hget SCommentary) as [= ->].
  pose proof (Hget SComplete) as [= ->].
  pose proof (Hget SContainer) as [= ->]. pose proof (Hget SConvert) as [= ->].
  pose proof (Hget SDate) as [= ->].
  pose proof (Hget SDocumentary) as [= ->].
  pose proof (Hget SDubbed) as [= ->]. pose proof (Hget SEdition) as [= ->].
  pose proof (Hget SEpisodeCode) as [= ->].
  pose proof (Hget SEpisodes) as [= ->]. pose proof (Hget SExtended) as [= ->].
  pose proof (Hget SExtension) as [= ->]. pose proof (Hget SGroup) as [= ->].
  pose proof (Hget SHardcoded) as [= ->]. pose proof (Hget SHDR) as [= ->].
  pose proof (Hget SLanguages) as [= ->]. pose proof (Hget SNetwork) as [= ->].
  pose proof (Hget SProper) as [= ->]. pose proof (Hget SRegion) as [= ->].
  pose proof (Hget SRemastered) as [= ->]. pose proof (Hget SRepack) as [= ->].
  pose proof (Hget SResolution) as [= ->]. pose proof (Hget SRetail) as [= ->].
  pose proof (Hget SSeasons) as [= ->]. pose proof (Hget SSize) as [= ->].
  pose proof (Hget SSite) as [= ->]. pose proof (Hget SQuality) as [= ->].
  pose proof (Hget SReleaseTypes) as [= ->]. pose proof (Hget SSubbed) as [= ->].
  pose proof (Hget SThreeD) as [= ->].
  pose proof (Hget SUncensored) as [= ->].
  pose proof (Hget SUnrated) as [= ->]. pose proof (Hget SUpscaled) as [= ->].
  pose proof (Hget SVolumes) as [= ->]. pose proof (Hget SYear) as [= ->].
  reflexivity.
Qed.

(** Without a failed assertion the loop fills every field from the entry of
    its name, whatever the order of the entries. *)
Lemma assemble_typed (entries : list (string * parseMeta)) (r : Result) :
  NoDup (entries.*1) -> forallb typed_entry entries = true ->
  exists r',
    Go.assemble entries r = (r', None) /\
    (forall s,
       (forall m, (slot_name s, m) ∈ entries -> get s r' = value m) /\
       ((forall m, (slot_name s, m) ∉ entries) -> get s r' = get s r)) /\
    Title r' = Title r /\ err r' = err r /\
    is_normalized r' = is_normalized r.
Proof.
  revert r. induction entries as [|[f fm] rest IH]; intros r Hnd Hty.
  - exists r. split; [done|]. split; [|done]. intros s. split; [|done].
    intros m Hin. by apply elem_of_nil in Hin.
  - cbn [forallb] in Hty. apply andb_true_iff in Hty as [Hf Hrest].
    rewrite fmap_cons in Hnd. apply NoDup_cons in Hnd as [Hfresh Hnd].
    cbn [fst] in Hfresh. cbn [Go.assemble].
    unfold typed_entry in Hf. cbn [fst snd] in Hf.
    destruct (slot_of_field f) as [s0|] eqn:Hslot.
    + apply slot_of_field_inv in Hslot as ->.
      destruct (assign_accepts s0 (value fm) r Hf) as [r1 Hr1].
      rewrite Hr1. destruct (IH r1 Hnd Hrest) as (r' & Hr' & Hget & HT & He & Hn).
      pose proof (assign_rest _ _ _ _ Hr1) as (HT1 & He1 & Hn1).
      exists r'. split; [done|]. split; [|by rewrite HT, He, Hn].
      intros s. destruct (Hget s) as [Hin Hout]. split.
      * intros m Hm. apply elem_of_cons in Hm as [[= Hs <-]|Hm]; [|by apply Hin].
        apply slot_name_inj in Hs as ->.
        destruct (Hget s0) as [_ Hout0]. rewrite Hout0.
        -- by eapply get_assign.
        -- intros m' Hm'. apply Hfresh. apply list_elem_of_fmap.
           by exists (slot_name s0, m').
      * intros Hnone. rewrite Hout.
        -- eapply get_assign_other; [done|]. intros ->.
           apply (Hnone fm). by left.
        -- intros m' Hm'. apply (Hnone m'). by right.
    + destruct (IH r Hnd Hrest) as (r' & Hr' & Hget & Hrest').
      exists r'. split; [done|]. split; [|done].
      intros s. destruct (Hget s) as [Hin Hout]. split.
      * intros m Hm. apply elem_of_cons in Hm as [[= <- <-]|Hm]; [|by apply Hin].
        by rewrite slot_of_field_name in Hslot.
      * intros Hnone. apply Hout. intros m Hm. apply (Hnone m). by right.
Qed.

(** With a failed assertion the loop ends in a fault, whatever the order. *)
Lemma assemble_untyped (entries : list (string * parseMeta)) (r : Result) :
  forallb typed_entry entries = false ->
  exists r' msg, Go.assemble entries r = (r', Some (RuntimeError msg)).
Proof.
  revert r. induction entries as [|[f fm] rest IH]; intros r Hty; [done|].
  cbn [forallb] in Hty. cbn [Go.assemble].
  unfold typed_entry in Hty at 1. cbn [fst snd] in Hty.
  destruct (slot_of_field f) as [s0|].
  - destruct (accepts s0 (value fm)) eqn:Hacc.
    + destruct (assign_accepts s0 (value fm) r Hacc) as [r1 ->].
      by apply IH.
    + rewrite (assign_rejects s0 (value fm) r Hacc). by eauto.
  - by apply IH.
Qed.

Lemma forallb_Permutation {A : Type} (f : A -> bool) (l1 l2 : list A) :
  l1 ≡ₚ l2 -> forallb f l1 = forallb f l2.
Proof.
  induction 1 as [|x l1 l2 _ IH|x y l|l1 l2 l3 _ IH1 _ IH2]; simpl.
  - done.
  - by rewrite IH.
  - by rewrite !andb_assoc, (andb_comm (f y)).
  - by rewrite IH1.
Qed.

Lemma assemble_order (o1 o2 : range_order) (result : resmap) (r : Result) :
  valid_order o1 -> valid_order o2 -> typed_map result = true ->
  Go.assemble (o1 result) r = Go.assemble (o2 result) r
  /\ snd (Go.assemble (o1 result) r) = None.
Proof.
  intros H1 H2 Hty. unfold typed_map in Hty.
  assert (Hchar : forall o : range_order, valid_order o ->
    exists r', Go.assemble (o result) r = (r', None) /\
      (forall s, get s r' = match result !! slot_name s with
                            | Some m => value m
                            | None => get s r
                            end) /\
      Title r' = Title r /\ err r' = err r /\
      is_normalized r' = is_normalized r).
  { intros o Ho.
    destruct (assemble_typed (o result) r) as (r' & Hr' & Hget & Hrest).
    - rewrite (Ho result). apply NoDup_fst_map_to_list.
    - by rewrite (forallb_Permutation _ _ _ (Ho result)).
    - exists r'. split; [done|]. split; [|done]. intros s.
      destruct (Hget s) as [Hin Hout].
      destruct (result !! slot_name s) as [m|] eqn:Hlook.
      + apply Hin. rewrite (Ho result). by apply elem_of_map_to_list.
      + apply Hout. intros m Hm. rewrite (Ho result) in Hm.
        apply elem_of_map_to_list in Hm. congruence. }
  destruct (Hchar o1 H1) as (r1 & Hr1 & Hg1 & HT1 & He1 & Hn1).
  destruct (Hchar o2 H2) as (r2 & Hr2 & Hg2 & HT2 & He2 & Hn2).
  rewrite Hr1, Hr2. split; [|done]. f_equal.
  apply Result_ext; [|congruence..].
  intros s. by rewrite Hg1, Hg2.
Qed.

Lemma reverse_order_valid : valid_order reverse_order.
Proof. intros result. unfold reverse_order. by rewrite <- Permutation_rev. Qed.

Lemma mixed_orders_valid : valid_orders mixed_orders.
Proof.
  split; [|apply reverse_order_valid].
  intros i [|]; cbn [mixed_orders turn_ranges].
  - destruct (Nat.even i); [apply reverse_order_valid | apply example_order_valid].
  - apply reverse_order_valid.
Qed.

Lemma set_err_Some (msg : string) (r : Result) :
  err (set_err (Some msg) r) <> None.
Proof. by destruct r. Qed.

(** C5. Two calls of [Parse] on the same title range over the map in orders
    that may differ: in the skip-if-first test, in the processor of the last
    "group" rule (any processor that does not depend on the order), and when
    the record is filled. The rules leave the same state, whatever the
    orders; when every value has the type its field asserts, as the table
    ensures, the two calls return the same record; in any case both return
    an error or none does, and a call without error returns what the other
    returns. *)
Theorem Parse_deterministic (o1 o2 : parse_order)
    (clean_title : string -> string) (handlers : list handler)
    (input : string)
    (H1 : valid_orders o1) (H2 : valid_orders o2)
    (Hins : Forall order_insensitive handlers) :
  Go.run_rules o1 input handlers = Go.run_rules o2 input handlers /\
  ((forall st,
      Go.run_rules o1 input handlers = Ok st -> typed_map (result st) = true)
   -> Go.Parse o1 clean_title handlers input
      = Go.Parse o2 clean_title handlers input) /\
  (forall r1,
     Go.Parse o1 clean_title handlers input = Returned r1 ->
     exists r2,
       Go.Parse o2 clean_title handlers input = Returned r2 /\
       (err r1 = None <-> err r2 = None) /\
       (err r1 = None -> r1 = r2)).
Proof.
  assert (Hrun : Go.run_rules o1 input handlers
                 = Go.run_rules o2 input handlers)
    by (by apply Go_run_handlers_order).
  split; [exact Hrun|]. unfold Go.Parse, Go.parse. rewrite <- Hrun.
  destruct (Go.run_rules o1 input handlers) as [st|p]; [|by eauto].
  destruct H1 as [_ H1], H2 as [_ H2].
  split.
  - intros Hty. specialize (Hty st eq_refl).
    by destruct (assemble_order (assembly_range o1) (assembly_range o2)
                   (result st) zero_Result H1 H2 Hty) as [-> _].
  - intros r1. destruct (typed_map (result st)) eqn:Hty.
    + destruct (assemble_order (assembly_range o1) (assembly_range o2)
                  (result st) zero_Result H1 H2 Hty) as [<- _]. by eauto.
    + unfold typed_map in Hty.
      destruct (assemble_untyped (assembly_range o1 (result st)) zero_Result)
        as (r1' & msg1 & ->);
        [by rewrite (forallb_Permutation _ _ _ (H1 (result st)))|].
      destruct (assemble_untyped (assembly_range o2 (result st)) zero_Result)
        as (r2' & msg2 & ->);
        [by rewrite (forallb_Permutation _ _ _ (H2 (result st)))|].
      cbn [Go.recover]. intros [= <-]. eexists. split; [done|].
      split; [split|]; intros He; by apply set_err_Some in He.
Qed.

Lemma Parse_deterministic_witness :
  Go.Parse example_orders example_clean group_table "[2020 FR] Film"
  = Go.Parse mixed_orders example_clean group_table "[2020 FR] Film".
Proof.
  pose proof (Parse_deterministic example_orders mixed_orders example_clean
                group_table "[2020 FR] Film" example_orders_valid
                mixed_orders_valid) as H.
  destruct H as (_ & H & _).
  - repeat constructor. intros o1 o2 t m result Ho1 Ho2.
    by apply group_processor_order.
  - apply H. intros st Hst. vm_compute in Hst. injection Hst as <-.
    vm_compute. reflexivity.
Defined.

(** * Further properties *)

(** *** Value sets *)

Lemma existsb_eqb_elem_of (v : string) (values : list string) :
  existsb (String.eqb v) values = true <-> v ∈ values.
Proof.
  rewrite existsb_exists. split.
  - intros (x & Hin & Heq). apply String.eqb_eq in Heq as ->.
    by apply list_elem_of_In.
  - intros Hin. exists v. split; [by apply list_elem_of_In|].
    apply String.eqb_refl.
Qed.

(** X1. [append] keeps a value set free of duplicates: the value is added at
    the end when it is not yet in the set, the values already there keep
    their places, and appending a value twice is appending it once. *)
Theorem value_set_append (values : list string) (v : string) :
  NoDup values ->
  NoDup (vs_append values v) /\
  (forall x, x ∈ vs_append values v <-> x ∈ values \/ x = v) /\
  values `prefix_of` vs_append values v /\
  vs_exists (vs_append values v) v = true /\
  vs_append (vs_append values v) v = vs_append values v.
Proof.
  intros Hnd. unfold vs_append, vs_exists.
  destruct (existsb (String.eqb v) values) eqn:Hex.
  - pose proof Hex as Hin. apply existsb_eqb_elem_of in Hin.
    rewrite Hex. repeat split; try done.
    + by left.
    + by intros [?| ->].
  - assert (Hnotin : v ∉ values).
    { intros Hin. apply existsb_eqb_elem_of in Hin. congruence. }
    assert (Hex' : existsb (String.eqb v) (values ++ [v]) = true).
    { apply existsb_eqb_elem_of. apply elem_of_app. right. by left. }
    rewrite Hex'. repeat split; try done.
    + apply NoDup_app. repeat split; [done| |apply NoDup_singleton].
      intros x Hx Hx'. apply list_elem_of_singleton in Hx' as ->. done.
    + intros Hx. apply elem_of_app in Hx as [Hx|Hx]; [by left|].
      apply list_elem_of_singleton in Hx. by right.
    + intros [Hx| ->]; apply elem_of_app; [by left|]. right. by left.
    + by exists [v].
Qed.

Lemma value_set_append_witness : NoDup (vs_append ["en"; "fr"] "es").
Proof.
  apply (value_set_append ["en"; "fr"] "es").
  apply NoDup_cons. split; [|apply NoDup_singleton].
  intros H. apply list_elem_of_singleton in H. discriminate H.
Defined.

(** *** The normalizer, field by field *)

Lemma elem_of_dedupe (audio seenMap : list string) (x : string) :
  x ∈ dedupe audio seenMap <-> x ∈ audio /\ x ∉ seenMap.
Proof.
  revert seenMap. induction audio as [|item rest IH]; intros seenMap.
  - cbn [dedupe]. split; [by intros H%elem_of_nil|].
    by intros [H%elem_of_nil _].
  - cbn [dedupe]. destruct (existsb (String.eqb item) seenMap) eqn:Hseen.
    + apply existsb_eqb_elem_of in Hseen. rewrite IH, elem_of_cons.
      split; [by intros [? ?]; auto|].
      intros [[->|?] Hn]; [done|]. done.
    + assert (Hnot : item ∉ seenMap).
      { intros Hin. apply existsb_eqb_elem_of in Hin. congruence. }
      rewrite !elem_of_cons, IH, elem_of_cons. split.
      * intros [->|[Hin Hn]]; [by auto|]. split; [by right|]. tauto.
      * intros [[->|Hin] Hn]; [by left|].
        destruct (decide (x = item)) as [->|Hne]; [by left|].
        right. split; [done|]. tauto.
Qed.

Lemma NoDup_dedupe (audio seenMap : list string) :
  NoDup (dedupe audio seenMap).
Proof.
  revert seenMap. induction audio as [|item rest IH]; intros seenMap.
  - apply NoDup_nil_2.
  - cbn [dedupe]. destruct (existsb (String.eqb item) seenMap); [apply IH|].
    apply NoDup_cons. split; [|apply IH].
    intros Hin. apply elem_of_dedupe in Hin as [_ Hn]. apply Hn. by left.
Qed.

Lemma dedupe_NoDup_id (audio seenMap : list string) :
  NoDup audio -> (forall x, x ∈ audio -> x ∉ seenMap) ->
  dedupe audio seenMap = audio.
Proof.
  revert seenMap. induction audio as [|item rest IH]; intros seenMap Hnd Hdis.
  - done.
  - apply NoDup_cons in Hnd as [Hfresh Hnd]. cbn [dedupe].
    destruct (existsb (String.eqb item) seenMap) eqn:Hseen.
    + apply existsb_eqb_elem_of in Hseen. exfalso.
      apply (Hdis item); [by left | done].
    + f_equal. apply IH; [done|]. intros x Hx Hin.
      apply elem_of_cons in Hin as [->|Hin]; [done|].
      apply (Hdis x); [by right | done].
Qed.

Lemma normalize_audio_item_neq (y : string) :
  normalize_audio_item y <> "AC3" /\ normalize_audio_item y <> "EAC3".
Proof.
  unfold normalize_audio_item.
  destruct (String.eqb_spec y "AC3") as [->|H1]; [done|].
  destruct (String.eqb_spec y "EAC3") as [->|H2]; done.
Qed.

Lemma normalize_audio_unchanged (audio : list string) :
  existsb (fun item => String.eqb item "AC3" || String.eqb item "EAC3") audio
  = false ->
  List.map normalize_audio_item audio = audio.
Proof.
  induction audio as [|item rest IH]; [done|].
  cbn [existsb List.map]. intros H. apply orb_false_iff in H as [Hitem Hrest].
  apply orb_false_iff in Hitem as [H1 H2].
  unfold normalize_audio_item at 1. rewrite H1, H2. f_equal. by apply IH.
Qed.

Lemma elem_of_normalize_audio (audio : list string) (x : string) :
  x ∈ normalize_audio audio
  <-> exists y, y ∈ audio /\ x = normalize_audio_item y.
Proof.
  unfold normalize_audio.
  destruct (existsb _ audio); cbn [negb].
  - rewrite elem_of_dedupe, list_elem_of_fmap. split.
    + intros [(y & -> & Hy) _]. by exists y.
    + intros (y & Hy & ->). split; [by exists y|]. apply not_elem_of_nil.
  - rewrite list_elem_of_fmap. split.
    + intros (y & -> & Hy). by exists y.
    + intros (y & Hy & ->). by exists y.
Qed.

(** X2. What [normalize_audio] returns holds the normalized name of every
    item of its argument and nothing else; "AC3" and "EAC3" are never in it;
    a list without duplicates stays without duplicates, also when two items
    get the same name; and normalizing twice is normalizing once. *)
Theorem normalize_audio_names (audio : list string) :
  (forall x, x ∈ normalize_audio audio
             <-> exists y, y ∈ audio /\ x = normalize_audio_item y) /\
  ("AC3" ∉ normalize_audio audio) /\
  ("EAC3" ∉ normalize_audio audio) /\
  (NoDup audio -> NoDup (normalize_audio audio)) /\
  normalize_audio (normalize_audio audio) = normalize_audio audio.
Proof.
  assert (Hno : existsb (fun item => String.eqb item "AC3"
                                     || String.eqb item "EAC3")
                        (normalize_audio audio) = false).
  { apply not_true_iff_false. intros H.
    apply existsb_exists in H as (x & Hin & Hx).
    apply list_elem_of_In, elem_of_normalize_audio in Hin as (y & _ & ->).
    destruct (normalize_audio_item_neq y) as [H1 H2].
    apply orb_true_iff in Hx as [Hx|Hx]; apply String.eqb_eq in Hx; done. }
  split; [apply elem_of_normalize_audio|]. split; [|split; [|split]].
  - intros Hin. apply elem_of_normalize_audio in Hin as (y & _ & Hy).
    symmetry in Hy. by apply normalize_audio_item_neq in Hy.
  - intros Hin. apply elem_of_normalize_audio in Hin as (y & _ & Hy).
    symmetry in Hy. by apply normalize_audio_item_neq in Hy.
  - intros Hnd. unfold normalize_audio.
    destruct (existsb _ audio) eqn:Hch; cbn [negb].
    + apply NoDup_dedupe.
    + by rewrite normalize_audio_unchanged.
  - unfold normalize_audio at 1. rewrite Hno. cbn [negb].
    by apply normalize_audio_unchanged.
Qed.

Lemma normalize_audio_names_witness :
  NoDup (normalize_audio ["AC3"; "DD"; "EAC3"]).
Proof.
  apply (normalize_audio_names ["AC3"; "DD"; "EAC3"]).
  repeat (apply NoDup_cons; split;
          [intros H; repeat (apply elem_of_cons in H as [H|H];
                             [discriminate H|]);
           by apply elem_of_nil in H|]).
  apply NoDup_nil_2.
Defined.

(** X3. The normalizer of the port against [normalizer.go]: on a record
    without error that is not yet normalized the two return the same record
    exactly when the codec and the resolution are ones the normalizer
    rewrites or are already in lower case; otherwise [normalizer.go] returns
    them in lower case and the port keeps their spelling. *)
Theorem port_normalizer_spelling (ToLower : string -> string) (r : Result) :
  err r = None -> is_normalized r = false ->
  (normalized ToLower r = Normalize ToLower r
   <-> (known_codec (ToLower (Codec r)) = true \/ ToLower (Codec r) = Codec r)
       /\ (known_resolution (ToLower (Resolution r)) = true
           \/ ToLower (Resolution r) = Resolution r)) /\
  (known_codec (ToLower (Codec r)) = false ->
   Codec (Normalize ToLower r) = ToLower (Codec r) /\
   Codec (normalized ToLower r) = Codec r) /\
  (known_resolution (ToLower (Resolution r)) = false ->
   Resolution (Normalize ToLower r) = ToLower (Resolution r) /\
   Resolution (normalized ToLower r) = Resolution r).
Proof.
  intros He Hn.
  assert (HC : normalizeCodec ToLower (Codec r)
               = normalize_codec ToLower (Codec r)
               <-> known_codec (ToLower (Codec r)) = true
                   \/ ToLower (Codec r) = Codec r).
  { unfold normalizeCodec, normalize_codec, known_codec.
    repeat match goal with
           | |- context [String.eqb ?a ?b] =>
               destruct (String.eqb a b); cbn [orb];
               [split; [by left | done]|]
           end.
    split; [by right | by intros [?|?]]. }
  assert (HR : normalizeResolution ToLower (Resolution r)
               = normalize_resolution ToLower (Resolution r)
               <-> known_resolution (ToLower (Resolution r)) = true
                   \/ ToLower (Resolution r) = Resolution r).
  { unfold normalizeResolution, normalize_resolution, known_resolution.
    repeat match goal with
           | |- context [String.eqb ?a ?b] =>
               destruct (String.eqb a b); cbn [orb];
               [split; [by left | done]|]
           end.
    split; [by right | by intros [?|?]]. }
  rewrite <- HC, <- HR.
  destruct r as [a0 a1 a2 a3 a4 a5 a6 a7 a8 a9 a10 a11 a12 a13 a14 a15 a16
                 a17 a18 a19 a20 a21 a22 a23 a24 a25 a26 a27 a28 a29 a30 a31
                 a32 a33 a34 a35 a36 a37 a38 a39 e n].
  cbn in He, Hn. subst e n. unfold Normalize, normalized. cbn.
  split; [|split].
  - split.
    + intros [= -> ->]. done.
    + intros [-> ->]. done.
  - unfold known_codec, normalize_codec, normalizeCodec. intros Hk.
    repeat (apply orb_false_iff in Hk as [Hk ?]).
    by repeat match goal with H : String.eqb _ _ = false |- _ =>
                rewrite H; clear H end.
  - unfold known_resolution, normalize_resolution, normalizeResolution.
    intros Hk. repeat (apply orb_false_iff in Hk as [Hk ?]).
    by repeat match goal with H : String.eqb _ _ = false |- _ =>
                rewrite H; clear H end.
Qed.

Lemma port_normalizer_spelling_witness :
  Codec (Normalize ascii_lower (set_Codec "VP9" zero_Result)) = "vp9" /\
  Codec (normalized ascii_lower (set_Codec "VP9" zero_Result)) = "VP9".
Proof.
  apply (port_normalizer_spelling ascii_lower (set_Codec "VP9" zero_Result)
           eq_refl eq_refl).
  reflexivity.
Defined.

(** *** The partial parser, by the names requested *)

Lemma filter_all {A : Type} (f : A -> bool) (l : list A) :
  (forall x, x ∈ l -> f x = true) -> List.filter f l = l.
Proof.
  induction l as [|x l IH]; intros H; [done|]. cbn [List.filter].
  rewrite (H x) by (by left). f_equal. apply IH. intros y Hy. apply H.
  by right.
Qed.

Lemma filter_none {A : Type} (f : A -> bool) (l : list A) :
  (forall x, x ∈ l -> f x = false) -> List.filter f l = [].
Proof.
  induction l as [|x l IH]; intros H; [done|]. cbn [List.filter].
  rewrite (H x) by (by left). apply IH. intros y Hy. apply H. by right.
Qed.

Lemma Go_partial_parser_filter orders clean handlers names input :
  Go.GetPartialParser orders clean handlers names input
  = Go.parse orders clean input
      (List.filter (fun h => bool_decide (Field h ∈ names)) handlers).
Proof.
  unfold Go.GetPartialParser.
  by rewrite select_handlers_filter, filter_requested.
Qed.

Lemma Kt_partial_parser_filter korder clean handlers names input :
  Kt.getPartialParser korder clean handlers names input
  = Kt.parse korder clean input
      (List.filter (fun h => bool_decide (Field h ∈ names)) handlers).
Proof. unfold Kt.getPartialParser. by rewrite filter_requested. Qed.

(** X4. The parser that [GetPartialParser] returns depends on the names
    requested as a set only: neither their order nor their repetition
    matters. Requesting the field of every rule of the table gives [Parse];
    requesting names that no rule has gives a parser that returns the
    cleanup of the whole working title and no other field. The same holds
    for [getPartialParser] of the port. *)
Theorem partial_parser_by_names (orders : parse_order) (korder : range_order)
    (clean : string -> string) (handlers : list handler) :
  (forall names1 names2 input,
     (forall f, f ∈ names1 <-> f ∈ names2) ->
     Go.GetPartialParser orders clean handlers names1 input
     = Go.GetPartialParser orders clean handlers names2 input /\
     Kt.getPartialParser korder clean handlers names1 input
     = Kt.getPartialParser korder clean handlers names2 input) /\
  (forall names input,
     (forall h, h ∈ handlers -> Field h ∈ names) ->
     Go.GetPartialParser orders clean handlers names input
     = Go.Parse orders clean handlers input /\
     Kt.getPartialParser korder clean handlers names input
     = Kt.parse korder clean input handlers) /\
  (forall names input,
     valid_order (assembly_range orders) ->
     (forall h, h ∈ handlers -> Field h ∉ names) ->
     Go.GetPartialParser orders clean handlers names input
     = Returned
         (set_Title (clean (title (Go.init_state input))) zero_Result) /\
     Kt.getPartialParser korder clean handlers names input
     = Returned
         (set_Title (clean (title (Kt.init_state input))) zero_Result)).
Proof.
  split; [|split].
  - intros names1 names2 input Hsame.
    rewrite !Go_partial_parser_filter, !Kt_partial_parser_filter.
    assert (Hf : List.filter (fun h => bool_decide (Field h ∈ names1)) handlers
                 = List.filter (fun h => bool_decide (Field h ∈ names2))
                     handlers).
    { apply filter_ext. intros h. apply bool_decide_ext. apply Hsame. }
    by rewrite Hf.
  - intros names input Hall.
    rewrite Go_partial_parser_filter, Kt_partial_parser_filter.
    rewrite filter_all; [done|].
    intros h Hh. apply bool_decide_eq_true. by apply Hall.
  - intros names input Hord Hnone.
    rewrite Go_partial_parser_filter, Kt_partial_parser_filter.
    rewrite filter_none.
    2:{ intros h Hh. apply bool_decide_eq_false. by apply Hnone. }
    split.
    + unfold Go.parse, Go.run_rules. cbn [Go.run_handlers].
      cbn [Go.init_state result]. rewrite order_empty by done.
      cbn [Go.assemble endOfTitle title]. by rewrite slice_full.
    + unfold Kt.parse, Kt.run_rules. cbn [Kt.run_handlers].
      rewrite ebind_Ok. cbn [Kt.init_state result endOfTitle title].
      by rewrite slice_full.
Qed.

Lemma partial_parser_by_names_witness :
  Go.GetPartialParser example_orders example_clean region_table
    ["region"; "year"; "region"] "2020 R5"
  = Go.Parse example_orders example_clean region_table "2020 R5".
Proof.
  apply (partial_parser_by_names example_orders example_order example_clean
           region_table).
  intros h Hh.
  repeat (apply elem_of_cons in Hh as [->|Hh];
          [cbn [Field literal_rule]; set_solver|]).
  by apply elem_of_nil in Hh.
Defined.

(** *** Skip-if-before *)

Lemma skip_if_before_recorded (result : resmap) (fields : list string)
    (idx0 : Z) :
  Go.skip_if_before result fields idx0 = true
  <-> recorded_after result fields idx0.
Proof.
  unfold recorded_after. induction fields as [|f rest IH].
  - cbn [Go.skip_if_before]. split; [done|].
    by intros (f & fm & H%elem_of_nil & _).
  - cbn [Go.skip_if_before]. destruct (result !! f) as [fm|] eqn:Hf.
    + destruct (Z.ltb_spec idx0 (mIndex fm)) as [Hlt|Hge].
      * split; [|done]. intros _. exists f, fm. split; [by left | done].
      * rewrite IH. split.
        -- intros (g & gm & Hin & Hg & Hlt). exists g, gm.
           split; [by right | done].
        -- intros (g & gm & Hin & Hg & Hlt).
           apply elem_of_cons in Hin as [->|Hin].
           ++ rewrite Hf in Hg. injection Hg as <-. lia.
           ++ by exists g, gm.
    + rewrite IH. split.
      * intros (g & gm & Hin & Hg & Hlt). exists g, gm.
        split; [by right | done].
      * intros (g & gm & Hin & Hg & Hlt).
        apply elem_of_cons in Hin as [->|Hin]; [congruence|].
        by exists g, gm.
Qed.

Lemma candidate_clear_before h re st idx0 rest :
  candidate h re st idx0 rest ->
  candidate (clear_SkipIfBefore h) re st idx0 rest.
Proof. done. Qed.

(** X5. For a rule with a skip-if-before list whose pattern yields a
    validated candidate at [idx0]: when one of the listed fields is recorded
    strictly after [idx0] the candidate is discarded and the state is left
    as it was; otherwise the rule goes on as it would without the list. A
    listed field that is not recorded, or is recorded at or before [idx0],
    does not count. The port does the same. *)
Theorem skip_if_before_policy (order : turn_order) (korder : range_order)
    (h : handler) (re : string -> list Z) (st : loop_state) (idx0 : Z)
    (rest : list Z) (Hcand : candidate h re st idx0 rest) :
  (recorded_after (result st) (SkipIfBefore h) idx0 ->
   Go.step order h st = Ok st /\ Kt.step korder h st = Ok st) /\
  (~ recorded_after (result st) (SkipIfBefore h) idx0 ->
   Go.step order h st = Go.step order (clear_SkipIfBefore h) st /\
   Kt.step korder h st = Kt.step korder (clear_SkipIfBefore h) st).
Proof.
  pose proof Hcand as (Hpat & _).
  pose proof (Go_match_pattern_candidate order _ _ _ _ _ Hcand) as HG.
  pose proof (Go_match_pattern_candidate order _ _ _ _ _
                (candidate_clear_before _ _ _ _ _ Hcand)) as HG'.
  pose proof (Kt_match_pattern_candidate _ _ _ _ _ Hcand) as HK.
  pose proof (Kt_match_pattern_candidate _ _ _ _ _
                (candidate_clear_before _ _ _ _ _ Hcand)) as HK'.
  cbn [clear_SkipIfBefore SkipIfFirst SkipIfBefore Field Go.skip_if_before]
    in HG', HK'.
  split.
  - intros Hafter. apply skip_if_before_recorded in Hafter.
    rewrite Hafter in HG, HK. split.
    + unfold Go.step, Go.evaluate. rewrite Hpat, HG.
      by destruct (SkipIfFirst h && Go.skip_if_first _ _ _).
    + unfold Kt.step, Kt.evaluate. rewrite Hpat, HK.
      by destruct (SkipIfFirst h && Kt.skip_if_first _ _ _).
  - intros Hnot.
    assert (Hskip : Go.skip_if_before (result st) (SkipIfBefore h) idx0
                    = false).
    { apply not_true_iff_false. intros H. apply Hnot.
      by apply skip_if_before_recorded. }
    rewrite Hskip in HG, HK. split.
    + unfold Go.step, Go.evaluate.
      change (Pattern (clear_SkipIfBefore h)) with (Pattern h).
      rewrite Hpat, HG, HG'. reflexivity.
    + unfold Kt.step, Kt.evaluate.
      change (Pattern (clear_SkipIfBefore h)) with (Pattern h).
      rewrite Hpat, HK, HK'. reflexivity.
Qed.

Lemma skip_if_before_policy_witness :
  let h := mkHandler "seasons" (Some (literal_index "1.01 - ")) None
                     (Some to_int_array) None
                     false false false ["year"; "source"; "resolution"]
                     false 0 0 in
  let st := mkState "1.01 - 2020"
                    {[ "year" := mkMeta 7 "2020" (Str "2020") false true ]}
                    7 in
  Go.step example_turn h st = Ok st /\ Kt.step example_order h st = Ok st.
Proof.
  intros h st.
  apply (skip_if_before_policy example_turn example_order h
           (literal_index "1.01 - ") st 0 [7]
           (conj eq_refl (conj (or_introl eq_refl) (conj eq_refl I)))).
  exists "year", (mkMeta 7 "2020" (Str "2020") false true).
  split; [by left|]. split; [reflexivity|]. cbn [mIndex]. lia.
Defined.

(** *** What the record holds *)

Lemma typed_map_lookup (result : resmap) (k : string) (m : parseMeta) :
  typed_map result = true -> result !! k = Some m ->
  typed_entry (k, m) = true.
Proof.
  unfold typed_map. rewrite forallb_forall. intros Hall Hk.
  apply Hall. by apply list_elem_of_In, elem_of_map_to_list.
Qed.

Lemma assemble_cells (order : range_order) (result : resmap) (r : Result) :
  valid_order order -> typed_map result = true ->
  exists r',
    Go.assemble (order result) r = (r', None) /\
    (forall s, get s r' = match result !! slot_name s with
                          | Some m => value m
                          | None => get s r
                          end) /\
    Title r' = Title r /\ err r' = err r /\
    is_normalized r' = is_normalized r.
Proof.
  intros Ho Hty. unfold typed_map in Hty.
  destruct (assemble_typed (order result) r) as (r' & Hr' & Hget & Hrest).
  - rewrite (Ho result). apply NoDup_fst_map_to_list.
  - by rewrite (forallb_Permutation _ _ _ (Ho result)).
  - exists r'. split; [done|]. split; [|done]. intros s.
    destruct (Hget s) as [Hin Hout].
    destruct (result !! slot_name s) as [m|] eqn:Hlook.
    + apply Hin. rewrite (Ho result). by apply elem_of_map_to_list.
    + apply Hout. intros m Hm. rewrite (Ho result) in Hm.
      apply elem_of_map_to_list in Hm. congruence.
Qed.

(** The loop that copies the map leaves in every field what the record held
    or the value of a cell of that name, also when it ends on a failed
    assertion. *)
Lemma assemble_partial (entries : list (string * parseMeta))
    (r r' : Result) (o : option panic_value) :
  Go.assemble entries r = (r', o) ->
  (forall s, get s r' = get s r
             \/ exists m, (slot_name s, m) ∈ entries /\ get s r' = value m) /\
  Title r' = Title r /\ err r' = err r /\
  is_normalized r' = is_normalized r.
Proof.
  revert r. induction entries as [|[f fm] rest IH]; intros r.
  - cbn [Go.assemble]. intros [= <- <-]. split; [|done]. intros s. by left.
  - cbn [Go.assemble]. destruct (slot_of_field f) as [s0|] eqn:Hslot.
    + destruct (assign s0 (value fm) r) as [r1|p] eqn:Has.
      * intros H. apply IH in H as (Hget & HT & He & Hn).
        pose proof (assign_rest _ _ _ _ Has) as (HT1 & He1 & Hn1).
        split; [|by rewrite HT, He, Hn].
        intros s. destruct (Hget s) as [Hs|(m & Hm & Hs)].
        -- destruct (decide (slot_name s = slot_name s0)) as [Heq|Hne].
           ++ apply slot_name_inj in Heq as ->. right. exists fm. split.
              ** apply slot_of_field_inv in Hslot as ->. by left.
              ** rewrite Hs. by eapply get_assign.
           ++ left. rewrite Hs. eapply get_assign_other; [done|].
              by intros ->.
        -- right. exists m. split; [by right | done].
      * intros [= <- <-]. split; [|done]. intros s. by left.
    + intros H. apply IH in H as (Hget & Hrest). split; [|done].
      intros s. destruct (Hget s) as [Hs|(m & Hm & Hs)]; [by left|].
      right. exists m. split; [by right | done].
Qed.

Lemma slice_title_prefix (st : loop_state) :
  slice (title st) 0 (Z.max (Z.min (endOfTitle st) (slen (title st))) 0)
  = Ok (title_prefix st).
Proof.
  unfold slice, title_prefix.
  assert (0 <= slen (title st)) by (unfold slen; lia).
  destruct (Z.leb_spec 0 0) as [_|?]; [|lia].
  destruct (Z.leb_spec 0 (Z.max (Z.min (endOfTitle st) (slen (title st))) 0))
    as [_|?]; [|lia].
  destruct (Z.leb_spec (Z.max (Z.min (endOfTitle st) (slen (title st))) 0)
                       (slen (title st))) as [_|?]; [|lia].
  cbn [andb]. by rewrite Z.sub_0_r.
Qed.

Lemma get_set_Title (s : slot) (t : string) (r : Result) :
  get s (set_Title t r) = get s r.
Proof. destruct r. by destruct s. Qed.

Lemma set_Title_rest (t : string) (r : Result) :
  Title (set_Title t r) = t /\ err (set_Title t r) = err r
  /\ is_normalized (set_Title t r) = is_normalized r.
Proof. by destruct r. Qed.

Lemma get_set_err (s : slot) (e : option string) (r : Result) :
  get s (set_err e r) = get s r.
Proof. destruct r. by destruct s. Qed.

Lemma set_err_rest (e : option string) (r : Result) :
  Title (set_err e r) = Title r /\ err (set_err e r) = e.
Proof. by destruct r. Qed.

(** X6. When the rule loop ends without fault in a map whose cells hold
    values of the types the fields assert, [parse] returns a record without
    error in which every field is the value of the cell of its name, or its
    zero value when the map has no such cell, and the title is the cleanup
    of the working title cut at the boundary (the boundary taken within the
    title). *)
Theorem Go_parse_reads_the_map (orders : parse_order)
    (clean : string -> string) (input : string) (handlers : list handler)
    (st : loop_state) :
  valid_order (assembly_range orders) ->
  Go.run_rules orders input handlers = Ok st ->
  typed_map (result st) = true ->
  exists r,
    Go.parse orders clean input handlers = Returned r /\
    err r = None /\ is_normalized r = false /\
    Title r = clean (title_prefix st) /\
    forall s, get s r = cell_value (result st) s.
Proof.
  intros Hord Hrun Hty. unfold Go.parse. rewrite Hrun.
  destruct (assemble_cells (assembly_range orders) (result st) zero_Result
              Hord Hty) as (r' & Hr' & Hget & HT & He & Hn).
  rewrite Hr', slice_title_prefix.
  eexists. split; [done|].
  destruct (set_Title_rest (clean (title_prefix st)) r') as (H1 & H2 & H3).
  rewrite H1, H2, H3, He, Hn. repeat split; try done.
  intros s. by rewrite get_set_Title, Hget.
Qed.

Lemma Go_parse_reads_the_map_witness :
  exists r,
    Go.parse example_orders example_clean "2020 R5" region_table
    = Returned r /\
    get SYear r = Str "2020" /\ get SRegion r = Str "R5"
    /\ get SSite r = Str "".
Proof.
  destruct (Go_parse_reads_the_map example_orders example_clean "2020 R5"
              region_table
              (mkState "2020 R5"
                 (<["region" := mkMeta 5 "R5" (Str "R5") false true]>
                    {["year" := mkMeta 0 "2020" (Str "2020") false true]})
                 5))
    as (r & Hr & _ & _ & _ & Hget).
  - apply example_order_valid.
  - reflexivity.
  - reflexivity.
  - exists r. split; [exact Hr|].
    rewrite (Hget SYear), (Hget SRegion), (Hget SSite). repeat split.
Defined.

(** X7. [parse] returns a record with an error in two cases only: the rule
    loop ended in a runtime fault, or it ended without fault in a map with a
    cell whose value has not the type its field asserts. In the second case
    the title is empty and every field is either at its zero value or the
    value of the cell of its name: what was copied before the failed
    assertion stays in the record. *)
Theorem Go_parse_error_provenance (orders : parse_order)
    (clean : string -> string) (input : string) (handlers : list handler)
    (r : Result) :
  valid_order (assembly_range orders) ->
  Go.parse orders clean input handlers = Returned r ->
  (err r = None
   <-> exists st, Go.run_rules orders input handlers = Ok st
                  /\ typed_map (result st) = true) /\
  (forall st,
     Go.run_rules orders input handlers = Ok st ->
     typed_map (result st) = false ->
     Title r = "" /\
     forall s, get s r = get s zero_Result
               \/ get s r = cell_value (result st) s).
Proof.
  intros Hord. unfold Go.parse.
  destruct (Go.run_rules orders input handlers) as [st|p] eqn:Hrun.
  - destruct (typed_map (result st)) eqn:Hty.
    + destruct (assemble_cells (assembly_range orders) (result st)
                  zero_Result Hord Hty) as (r' & Hr' & Hget & HT & He & Hn).
      rewrite Hr', slice_title_prefix. intros [= <-]. split.
      * split; [by eauto|]. intros _.
        destruct (set_Title_rest (clean (title_prefix st)) r')
          as (_ & -> & _). done.
      * intros st' [= <-] Hty'. congruence.
    + destruct (assemble_untyped (assembly_range orders (result st))
                  zero_Result) as (r' & msg & Hr').
      { unfold typed_map in Hty.
        by rewrite (forallb_Permutation _ _ _ (Hord (result st))). }
      rewrite Hr'. cbn [Go.recover]. intros [= <-].
      destruct (set_err_rest (Some msg) r') as [HT He].
      apply assemble_partial in Hr' as (Hget & HT' & _).
      split.
      * rewrite He. split; [done|]. intros (st' & [= <-] & Hty'). congruence.
      * intros st' [= <-] _. split; [by rewrite HT, HT'|].
        intros s. rewrite get_set_err.
        destruct (Hget s) as [Hs|(m & Hm & Hs)]; [by left|]. right.
        rewrite Hs. unfold cell_value.
        rewrite (Hord (result st)) in Hm.
        apply elem_of_map_to_list in Hm. by rewrite Hm.
  - destruct p as [msg|msg]; cbn [Go.recover]; [|discriminate].
    intros [= <-]. split.
    + cbn [err]. split; [done|]. by intros (st & Hst & _).
    + intros st Hst. discriminate Hst.
Qed.

Lemma Go_parse_error_provenance_witness :
  exists r,
    Go.parse example_orders example_clean "Film 2020 E01" mistyped_table
    = Returned r /\
    Title r = "" /\
    (get SYear r = get SYear zero_Result \/ get SYear r = Str "2020").
Proof.
  eexists. split; [vm_compute; reflexivity|].
  eassert (Hrun : Go.run_rules example_orders "Film 2020 E01" mistyped_table
                  = Ok _) by (vm_compute; reflexivity).
  destruct (Go_parse_error_provenance example_orders example_clean
              "Film 2020 E01" mistyped_table _ example_order_valid eq_refl)
    as [_ H].
  destruct (H _ Hrun eq_refl) as [HT Hget].
  split; [exact HT|]. exact (Hget SYear).
Defined.

(** *** The assembly of the port against [ptt.go] *)

Lemma Kt_fields_typed (result : resmap) (t : string) (s : slot) :
  typed_map result = true ->
  get s
    (mkResult
       (Kt.extractStringList (result !! "audio"))
       (Kt.extractString (result !! "bitDepth"))
       (Kt.extractStringList (result !! "channels"))
       (Kt.extractString (result !! "codec"))
       (Kt.extractBoolean (result !! "commentary"))
       (Kt.extractBoolean (result !! "complete"))
       (Kt.extractString (result !! "container"))
       (Kt.extractBoolean (result !! "convert"))
       (Kt.extractString (result !! "date"))
       (Kt.extractBoolean (result !! "documentary"))
       (Kt.extractBoolean (result !! "dubbed"))
       (Kt.extractString (result !! "edition"))
       (Kt.extractString (result !! "episodeCode"))
       (Kt.extractIntList (result !! "episodes"))
       (Kt.extractBoolean (result !! "extended"))
       (Kt.extractString (result !! "extension"))
       (Kt.extractString (result !! "group"))
       (Kt.extractStringList (result !! "hdr"))
       (Kt.extractBoolean (result !! "hardcoded"))
       (Kt.extractStringList (result !! "languages"))
       (Kt.extractString (result !! "network"))
       (Kt.extractBoolean (result !! "proper"))
       (Kt.extractString (result !! "quality"))
       (Kt.extractString (result !! "region"))
       (Kt.extractStringList (result !! "releaseTypes"))
       (Kt.extractBoolean (result !! "remastered"))
       (Kt.extractBoolean (result !! "repack"))
       (Kt.extractString (result !! "resolution"))
       (Kt.extractBoolean (result !! "retail"))
       (Kt.extractIntList (result !! "seasons"))
       (Kt.extractString (result !! "site"))
       (Kt.extractString (result !! "size"))
       (Kt.extractBoolean (result !! "subbed"))
       (Kt.extractString (result !! "threeD"))
       t
       (Kt.extractBoolean (result !! "uncensored"))
       (Kt.extractBoolean (result !! "unrated"))
       (Kt.extractBoolean (result !! "upscaled"))
       (Kt.extractIntList (result !! "volumes"))
       (Kt.extractString (result !! "year"))
       None false)
  = cell_value result s.
Proof.
  intros Hty. unfold cell_value.
  destruct (result !! slot_name s) as [[i v x rm pr]|] eqn:Hcell.
  - pose proof (typed_map_lookup _ _ _ Hty Hcell) as Hacc.
    unfold typed_entry in Hacc. cbn [fst snd value] in Hacc.
    rewrite slot_of_field_name in Hacc.
    destruct s; cbn [slot_name] in Hcell; cbn [get]; rewrite Hcell;
      destruct x; try discriminate Hacc; reflexivity.
  - destruct s; cbn [slot_name] in Hcell; cbn [get]; rewrite Hcell;
      reflexivity.
Qed.

(** X8. The assembly of the port against the assembly of [ptt.go], from the
    same state of the rule loop, each with its own title cleanup: when every
    cell holds a value of the type its field asserts, both return a record
    without error, the two records agree on every field but the title, and
    each title is the cleanup, by [clean_title] in the one and by
    [cleanTitle] in the other, of the same cut of the working title, so that
    the records are equal exactly when the two cleanups agree on it; when a
    cell does not, [ptt.go] returns a record with an error and the port
    returns a record without error. *)
Theorem port_assembly_agrees (orders : parse_order) (korder : range_order)
    (clean_title cleanTitle : string -> string) (input : string)
    (handlers : list handler) (st : loop_state) :
  valid_order (assembly_range orders) ->
  Go.run_rules orders input handlers = Ok st ->
  Kt.run_rules korder input handlers = Ok st ->
  (typed_map (result st) = true ->
   exists rg rk,
     Go.parse orders clean_title input handlers = Returned rg /\
     Kt.parse korder cleanTitle input handlers = Returned rk /\
     (forall s, get s rk = get s rg) /\
     err rg = None /\ err rk = None /\
     is_normalized rk = is_normalized rg /\
     Title rg = clean_title (title_prefix st) /\
     Title rk = cleanTitle (title_prefix st) /\
     (rk = rg
      <-> cleanTitle (title_prefix st) = clean_title (title_prefix st))) /\
  (typed_map (result st) = false ->
   (exists r, Kt.parse korder cleanTitle input handlers = Returned r
              /\ err r = None) /\
   (exists r, Go.parse orders clean_title input handlers = Returned r
              /\ err r <> None)).
Proof.
  intros Hord HG HK. split.
  - intros Hty.
    destruct (assemble_cells (assembly_range orders) (result st) zero_Result
                Hord Hty) as (r' & Hr' & Hget & HT & He & Hn).
    unfold Go.parse, Kt.parse. rewrite HG, HK, Hr', ebind_Ok.
    rewrite !slice_title_prefix, ebind_Ok.
    destruct (set_Title_rest (clean_title (title_prefix st)) r')
      as (H1 & H2 & H3).
    eexists _, _. split; [reflexivity|]. split; [reflexivity|].
    match goal with
    | |- (forall s, get s ?rk = get s ?rg) /\ _ =>
        assert (Hs : forall s, get s rk = get s rg)
    end.
    { intros s. rewrite Kt_fields_typed by done.
      by rewrite get_set_Title, Hget. }
    split; [exact Hs|]. split; [by rewrite H2, He|]. split; [done|].
    split; [by rewrite H3, Hn|]. split; [done|]. split; [done|]. split.
    + intros Heq. apply (f_equal Title) in Heq. cbn [Title] in Heq.
      by rewrite H1 in Heq.
    + intros Heq. apply Result_ext.
      * exact Hs.
      * by rewrite H1.
      * by rewrite H2, He.
      * by rewrite H3, Hn.
  - intros Hty. split.
    + unfold Kt.parse. rewrite HK, ebind_Ok, slice_title_prefix, ebind_Ok.
      by eexists.
    + unfold Go.parse. rewrite HG.
      destruct (assemble_untyped (assembly_range orders (result st))
                  zero_Result) as (r' & msg & Hr').
      { unfold typed_map in Hty.
        by rewrite (forallb_Permutation _ _ _ (Hord (result st))). }
      rewrite Hr'. cbn [Go.recover]. eexists. split; [done|].
      by destruct (set_err_rest (Some msg) r') as [_ ->].
Qed.

Lemma port_assembly_agrees_witness :
  exists rg rk,
    Go.parse example_orders example_clean "2020 R5" region_table
    = Returned rg /\
    Kt.parse example_order ascii_lower "2020 R5" region_table
    = Returned rk /\
    (forall s, get s rk = get s rg) /\ err rg = None /\ err rk = None.
Proof.
  eassert (HG : Go.run_rules example_orders "2020 R5" region_table = Ok _)
    by (vm_compute; reflexivity).
  eassert (HK : Kt.run_rules example_order "2020 R5" region_table = Ok _)
    by (vm_compute; reflexivity).
  match type of HG with
  | _ = Ok ?st =>
      assert (Hty : typed_map (result st) = true) by (vm_compute; reflexivity)
  end.
  destruct (proj1 (port_assembly_agrees example_orders example_order
                     example_clean ascii_lower "2020 R5" region_table _
                     example_order_valid HG HK) Hty)
    as (rg & rk & H1 & H2 & H3 & H4 & H5 & _).
  exists rg, rk. repeat split; assumption.
Defined.

(** *** The working title *)

Lemma bytes_app (a b : string) : bytes (a +:+ b) = (bytes a ++ bytes b)%list.
Proof.
  unfold bytes. induction a as [|c a IH]; [by rewrite append_nil_l|].
  rewrite append_cons. cbn [list_ascii_of_string]. by rewrite IH.
Qed.

Lemma bytes_substring (n k : nat) (s : string) :
  bytes (substring n k s) = take k (drop n (bytes s)).
Proof.
  unfold bytes. revert n k. induction s as [|c s IH]; intros n k.
  - destruct n, k; reflexivity.
  - destruct n as [|n].
    + destruct k as [|k]; [reflexivity|].
      cbn [substring list_ascii_of_string drop take]. by rewrite IH.
    + cbn [substring list_ascii_of_string drop]. apply IH.
Qed.

Lemma slen_bytes (s : string) : slen s = Z.of_nat (List.length (bytes s)).
Proof.
  unfold slen, bytes. f_equal. induction s as [|c s IH]; [done|].
  cbn. by rewrite IH.
Qed.

Lemma slice_inv (s x : string) (lo hi : Z) :
  slice s lo hi = Ok x ->
  0 <= lo <= hi /\ hi <= slen s
  /\ bytes x = take (Z.to_nat (hi - lo)) (drop (Z.to_nat lo) (bytes s)).
Proof.
  unfold slice.
  destruct (Z.leb_spec 0 lo); destruct (Z.leb_spec lo hi);
    destruct (Z.leb_spec hi (slen s)); cbn [andb]; intros Hx;
    try discriminate Hx.
  injection Hx as <-. rewrite bytes_substring. repeat split; done.
Qed.

Lemma slice_sized (s x : string) (lo hi : Z) :
  slice s lo hi = Ok x -> slen x <= slen s.
Proof.
  intros H. apply slice_inv in H as (Hlo & Hhi & Hx).
  rewrite !slen_bytes, Hx. rewrite length_take, length_drop. lia.
Qed.

Lemma wrap_sum (a b : Z) :
  0 <= a <= max_int -> 0 <= b <= max_int -> 0 <= wrap (a + b) ->
  wrap (a + b) = a + b.
Proof.
  intros Ha Hb Hw. destruct (Z_le_gt_dec (a + b) max_int) as [Hle|Hgt].
  - apply wrap_small. unfold min_int, max_int in *. lia.
  - exfalso. unfold wrap, max_int in *.
    assert (Hmod : (a + b + 2 ^ 63) mod 2 ^ 64 = a + b + 2 ^ 63 - 2 ^ 64).
    { symmetry. apply (Z.mod_unique _ _ 1); lia. }
    rewrite Hmod in Hw. lia.
Qed.

(** Cutting a window out of a list leaves a sublist. *)
Lemma cut_sublist {A : Type} (l : list A) (i j k : nat) :
  (i <= j)%nat -> (take i l ++ take k (drop j l))%list `sublist_of` l.
Proof.
  intros Hij. rewrite <- (take_drop i l) at 3.
  apply sublist_app; [done|].
  transitivity (drop j l); [apply sublist_take|].
  replace j with (i + (j - i))%nat by lia. rewrite <- drop_drop.
  apply sublist_drop.
Qed.

(** What [commit] leaves: the cell of the rule and, when the match is
    removed, the title without the window of the match. *)
Lemma Go_commit_inv (h : handler) (st st' : loop_state) (m : parseMeta)
    (skip : bool) :
  Go.commit h st m skip = Ok st' ->
  result st'
  = <[Field h := set_processed true (set_remove false m)]> (result st) /\
  (if Remove h || remove m then
     exists before after,
       slice (title st) 0 (mIndex m) = Ok before /\
       slice (title st) (wrap (mIndex m + slen (mValue m)))
             (slen (title st)) = Ok after /\
       title st' = before +:+ after
   else title st' = title st).
Proof.
  unfold Go.commit. intros H.
  destruct (Remove h || remove m) eqn:Hrem.
  - destruct (slice (title st) 0 (mIndex m)) as [before|] eqn:Hb;
      [|discriminate H].
    rewrite ebind_Ok in H.
    destruct (slice (title st) (wrap _) _) as [after|] eqn:Ha;
      [|discriminate H].
    injection H as <-. cbn [result title]. split; [by destruct m|].
    by exists before, after.
  - by injection H as <-.
Qed.

Lemma Kt_commit_inv (h : handler) (st st' : loop_state) (m : parseMeta)
    (skip : bool) :
  Kt.commit h st m skip = Ok st' ->
  result st'
  = <[Field h := set_processed true (set_remove false m)]> (result st) /\
  (if Remove h || remove m then
     exists before after,
       slice (title st) 0 (mIndex m) = Ok before /\
       slice (title st) (mIndex m + slen (mValue m)) (slen (title st))
       = Ok after /\
       title st' = before +:+ after
   else title st' = title st).
Proof.
  unfold Kt.commit. intros H.
  destruct (Remove h || remove m) eqn:Hrem.
  - destruct (slice (title st) 0 (mIndex m)) as [before|] eqn:Hb;
      [|discriminate H].
    rewrite ebind_Ok in H.
    destruct (slice (title st) (_ + _) _) as [after|] eqn:Ha;
      [|discriminate H].
    injection H as <-. cbn [result title]. split; [by destruct m|].
    by exists before, after.
  - by injection H as <-.
Qed.

Lemma cut_bytes (t before after : string) (i j : Z) :
  slice t 0 i = Ok before -> slice t j (slen t) = Ok after -> i <= j ->
  bytes (before +:+ after) `sublist_of` bytes t.
Proof.
  intros Hb Ha Hij.
  apply slice_inv in Hb as (Hi & _ & Hb).
  apply slice_inv in Ha as (Hj & _ & Ha).
  rewrite bytes_app, Hb, Ha. cbn [drop Z.to_nat].
  apply cut_sublist. lia.
Qed.

Lemma Go_commit_title (h : handler) (st st' : loop_state) (m : parseMeta)
    (skip : bool) :
  int_sized (title st) -> sized_cell m ->
  Go.commit h st m skip = Ok st' ->
  bytes (title st') `sublist_of` bytes (title st).
Proof.
  intros Ht Hm H. apply Go_commit_inv in H as [_ H].
  destruct (Remove h || remove m); [|by rewrite H].
  destruct H as (before & after & Hb & Ha & ->).
  eapply cut_bytes; [done..|].
  pose proof (slice_inv _ _ _ _ Hb) as (Hi & Hi' & _).
  pose proof (slice_inv _ _ _ _ Ha) as (Hj & _ & _).
  unfold int_sized, sized_cell, int_sized in *.
  rewrite wrap_sum; unfold slen in *; lia.
Qed.

Lemma Kt_commit_title (h : handler) (st st' : loop_state) (m : parseMeta)
    (skip : bool) :
  Kt.commit h st m skip = Ok st' ->
  bytes (title st') `sublist_of` bytes (title st).
Proof.
  intros H. apply Kt_commit_inv in H as [_ H].
  destruct (Remove h || remove m); [|by rewrite H].
  destruct H as (before & after & Hb & Ha & ->).
  eapply cut_bytes; [done..|]. unfold slen. lia.
Qed.

Lemma sublist_sized (t t' : string) :
  bytes t' `sublist_of` bytes t -> slen t' <= slen t.
Proof.
  intros H. apply sublist_length in H. rewrite !slen_bytes. lia.
Qed.

Lemma Go_evaluate_continue (order : turn_order) (h : handler)
    (st st' : loop_state) :
  Go.evaluate order h st = Ok (Continue st') ->
  title st' = title st /\ endOfTitle st' = endOfTitle st.
Proof.
  unfold Go.evaluate. intros H. exec_cases H.
  all: try discriminate H.
  all: by injection H as <-.
Qed.

Lemma Kt_evaluate_continue (order : range_order) (h : handler)
    (st st' : loop_state) :
  Kt.evaluate order h st = Ok (Continue st') ->
  title st' = title st /\ endOfTitle st' = endOfTitle st.
Proof.
  unfold Kt.evaluate. intros H. exec_cases H.
  all: try discriminate H.
  all: by injection H as <-.
Qed.

(** *** Invariants of the cells along the rule loop *)

(** Case analysis on the steps of a computation that returns, the innermost
    step first. *)
Ltac run_cases H :=
  repeat
    (unfold mbind, exec_bind, ebind, mret, exec_ret in H;
     match type of H with
     | Panic _ = Ok _ => discriminate H
     | Ok _ = Ok _ => fail 1
     | context [match ?c with _ => _ end] =>
         lazymatch c with
         | context [match _ with _ => _ end] => fail
         | _ => let E := fresh "E" in destruct c eqn:E
         end
     end).

Section CellInvariant.

(** [C] is a property of the cells that the engine's own writes keep, for a
    title that satisfies [T]. *)
Variable T : string -> Prop.
Variable C : parseMeta -> Prop.

Hypothesis C_blank : C blank.
Hypothesis C_empty_set : C (set_value (ValueSet []) blank).
Hypothesis C_mIndex : forall m i, C m -> C (set_mIndex i m).
Hypothesis C_remove : forall m b, C m -> C (set_remove b m).
Hypothesis C_processed : forall m b, C m -> C (set_processed b m).
Hypothesis C_Str : forall m s, C m -> C (set_value (Str s) m).
Hypothesis C_mValue :
  forall t lo hi part m,
    T t -> slice t lo hi = Ok part -> C m -> C (set_mValue part m).

Lemma cells_insert (result : resmap) (k : string) (m : parseMeta) :
  cells C result -> C m -> cells C (<[k := m]> result).
Proof.
  intros Hc Hm k' m' Hk. apply lookup_insert_Some in Hk as [[_ <-]|[_ Hk]].
  - done.
  - by eapply Hc.
Qed.

Lemma cells_delete (result : resmap) (k : string) :
  cells C result -> cells C (delete k result).
Proof.
  intros Hc k' m' Hk. apply lookup_delete_Some in Hk as [_ Hk]. by eapply Hc.
Qed.

Ltac solve_C :=
  repeat match goal with
         | |- C (set_mIndex _ _) => apply C_mIndex
         | |- C (set_remove _ _) => apply C_remove
         | |- C (set_processed _ _) => apply C_processed
         | |- C (set_value (Str _) _) => apply C_Str
         | |- C (set_value (ValueSet []) blank) => apply C_empty_set
         | |- C blank => apply C_blank
         | |- C (set_mValue _ _) =>
             eapply C_mValue; [eassumption | eassumption |]
         | Hc : cells C ?r, E : ?r !! _ = Some ?m |- C ?m => exact (Hc _ _ E)
         | |- cells C (<[_ := _]> _) => apply cells_insert
         | |- cells C (delete _ _) => apply cells_delete
         | |- _ /\ _ => split
         | |- _ => assumption
         end.

Lemma Go_record_match_cells h st idxs idx0 m r skip :
  T (title st) -> cells C (result st) ->
  Go.record_match h st idxs idx0 = Ok (Some (m, r, skip)) ->
  C m /\ cells C r.
Proof.
  intros HT Hc. unfold Go.record_match. intros H. run_cases H.
  all: injection H as <- <- <-.
  all: destruct (has_value_set (Field h));
    destruct (result st !! Field h) eqn:Hcell; solve_C.
Qed.

Lemma Go_match_pattern_cells order h re st m r skip :
  T (title st) -> cells C (result st) ->
  Go.match_pattern order h re st = Ok (Some (m, r, skip)) ->
  C m /\ cells C r.
Proof.
  intros HT Hc. unfold Go.match_pattern. intros H. run_cases H.
  all: try discriminate H.
  all: by eapply Go_record_match_cells.
Qed.

Ltac keep_closures Hk :=
  repeat match goal with
         | Ep : Process ?h = Some ?p, E : ?p _ ?t ?m ?r = Ok (?m', ?r') |- _ =>
             assert (C m' /\ cells C r') as [? ?]
               by (eapply (proj2 Hk); [exact Ep | .. | exact E]; solve_C);
             clear E
         | Et : Transform ?h = Some ?p, E : ?p ?t ?m ?r = Ok (?m', ?r') |- _ =>
             assert (C m' /\ cells C r') as [? ?]
               by (eapply (proj1 Hk); [exact Et | .. | exact E]; solve_C);
             clear E
         end.

Lemma Go_evaluate_cells order h st v :
  T (title st) -> cells C (result st) -> closures_keep T C h ->
  Go.evaluate order h st = Ok v ->
  match v with
  | Continue st' => cells C (result st')
  | Survive st' m _ => cells C (result st') /\ C m
  end.
Proof.
  intros HT Hc Hk. unfold Go.evaluate. intros H. run_cases H.
  all: try discriminate H.
  all: repeat match goal with
         | E : Go.match_pattern _ _ _ _ = Ok (Some (_, _, _)) |- _ =>
             eapply Go_match_pattern_cells in E as [? ?]; [|done..]
         | E : Ok _ = Ok _ |- _ => injection E as ? ?; subst
         end.
  all: keep_closures Hk.
  all: injection H as <-; cbn [result]; solve_C.
Qed.

Hypothesis T_commit :
  forall h st st' m skip,
    T (title st) -> C m -> Go.commit h st m skip = Ok st' -> T (title st').

Lemma Go_step_cells order h st st' :
  T (title st) -> cells C (result st) -> closures_keep T C h ->
  Go.step order h st = Ok st' ->
  T (title st') /\ cells C (result st').
Proof.
  intros HT Hc Hk. unfold Go.step. intros H.
  destruct (Go.evaluate order h st) as [[st1|st1 m skip]|p] eqn:Hev;
    [| |discriminate H]; rewrite ebind_Ok in H.
  - injection H as <-.
    pose proof (Go_evaluate_cells _ _ _ _ HT Hc Hk Hev) as Hc1.
    apply Go_evaluate_continue in Hev as [-> _]. done.
  - pose proof (Go_evaluate_cells _ _ _ _ HT Hc Hk Hev) as [Hc1 Hm].
    apply Go_evaluate_survive in Hev as [Ht1 _]. rewrite <- Ht1 in HT.
    split; [by eapply T_commit|].
    apply Go_commit_inv in H as [-> _]. apply cells_insert; [done|].
    by apply C_processed, C_remove.
Qed.

Lemma Go_run_handlers_cells orders i handlers st st' :
  T (title st) -> cells C (result st) ->
  Forall (closures_keep T C) handlers ->
  Go.run_handlers orders i handlers st = Ok st' ->
  T (title st') /\ cells C (result st').
Proof.
  intros HT Hc Hall. revert i st HT Hc.
  induction Hall as [|h rest Hh _ IH]; intros i st HT Hc.
  - by intros [= <-].
  - cbn [Go.run_handlers].
    destruct (Go.step (turn_ranges orders i) h st) as [st1|p] eqn:Hstep;
      [|discriminate].
    rewrite ebind_Ok. apply Go_step_cells in Hstep as [HT1 Hc1]; [|done..].
    by apply IH.
Qed.

End CellInvariant.

(** The two instances: the sizes of the matched texts, and the value sets. *)

Lemma sized_step order h st st' :
  int_sized (title st) -> cells sized_cell (result st) ->
  closures_keep int_sized sized_cell h ->
  Go.step order h st = Ok st' ->
  int_sized (title st') /\ cells sized_cell (result st').
Proof.
  apply (Go_step_cells int_sized sized_cell); try done.
  - intros t lo hi part m Ht Hs _. apply slice_sized in Hs.
    unfold sized_cell, int_sized in *. cbn [set_mValue mValue]. lia.
  - intros h0 st0 st0' m skip Ht Hm Hcommit.
    apply Go_commit_title in Hcommit; [|done..].
    apply sublist_sized in Hcommit. unfold int_sized in *. lia.
Qed.

Lemma sets_run orders i handlers st st' :
  cells set_without_duplicates (result st) ->
  Forall (closures_keep (fun _ => True) set_without_duplicates) handlers ->
  Go.run_handlers orders i handlers st = Ok st' ->
  cells set_without_duplicates (result st').
Proof.
  intros Hc Hall Hrun.
  eapply (Go_run_handlers_cells (fun _ => True) set_without_duplicates)
    in Hrun as [_ H]; try done.
  unfold set_without_duplicates. cbn. apply NoDup_nil_2.
Qed.

Lemma sized_evaluate order h st v :
  int_sized (title st) -> cells sized_cell (result st) ->
  closures_keep int_sized sized_cell h ->
  Go.evaluate order h st = Ok v ->
  match v with
  | Continue st' => cells sized_cell (result st')
  | Survive st' m _ => cells sized_cell (result st') /\ sized_cell m
  end.
Proof.
  apply (Go_evaluate_cells int_sized sized_cell); try done.
  intros t lo hi part m Ht Hs _. apply slice_sized in Hs.
  unfold sized_cell, int_sized in *. cbn [set_mValue mValue]. lia.
Qed.

(** One turn of the loop of [ptt.go] deletes bytes of the title and does not
    move the boundary to the right. *)
Lemma Go_step_shrinks order h st st' :
  int_sized (title st) -> cells sized_cell (result st) ->
  closures_keep int_sized sized_cell h ->
  Go.step order h st = Ok st' ->
  bytes (title st') `sublist_of` bytes (title st) /\
  (endOfTitle st <= max_int -> endOfTitle st' <= endOfTitle st).
Proof.
  intros HT Hc Hk. unfold Go.step. intros H.
  destruct (Go.evaluate order h st) as [[st1|st1 m skip]|p] eqn:Hev;
    [| |discriminate H]; rewrite ebind_Ok in H.
  - injection H as <-. apply Go_evaluate_continue in Hev as [-> ->].
    split; [done | lia].
  - pose proof (sized_evaluate _ _ _ _ HT Hc Hk Hev) as [_ Hm].
    apply Go_evaluate_survive in Hev as [Ht1 He1].
    rewrite <- Ht1, <- He1 in *. split.
    + by eapply Go_commit_title.
    + intros He. rewrite (Go_commit_boundary _ _ _ _ _ H).
      apply Go_commit_inv in H as [_ Hcut].
      destruct skip.
      * destruct (Remove h || remove m); cbn [andb]; [|lia].
        destruct (Z.ltb_spec (mIndex m) (endOfTitle st1)); [|lia].
        destruct Hcut as (before & after & Hb & _ & _).
        apply slice_inv in Hb as ([_ Hi0] & Hi & _).
        unfold sized_cell, int_sized in Hm.
        assert (0 <= slen (mValue m)) by (unfold slen; lia).
        rewrite wrap_small; unfold min_int, max_int in *; lia.
      * destruct (negb (mIndex m =? 0)); cbn [andb]; [|lia].
        destruct (Z.ltb_spec (mIndex m) (endOfTitle st1)); lia.
Qed.

Lemma Go_run_handlers_shrinks orders i handlers st st' :
  int_sized (title st) -> cells sized_cell (result st) ->
  Forall (closures_keep int_sized sized_cell) handlers ->
  Go.run_handlers orders i handlers st = Ok st' ->
  bytes (title st') `sublist_of` bytes (title st) /\
  (endOfTitle st <= max_int -> endOfTitle st' <= endOfTitle st).
Proof.
  intros HT Hc Hall. revert i st HT Hc.
  induction Hall as [|h rest Hh _ IH]; intros i st HT Hc.
  - intros [= <-]. split; [done | lia].
  - cbn [Go.run_handlers].
    destruct (Go.step (turn_ranges orders i) h st) as [st1|p] eqn:Hstep;
      [|discriminate].
    rewrite ebind_Ok. intros Hrun.
    pose proof (sized_step _ _ _ _ HT Hc Hh Hstep) as [HT1 Hc1].
    apply Go_step_shrinks in Hstep as [Hsub Hle]; [|done..].
    apply IH in Hrun as [Hsub' Hle']; [|done..]. split.
    + by transitivity (bytes (title st1)).
    + intros He. specialize (Hle He). lia.
Qed.

Lemma Kt_step_shrinks korder h st st' :
  Kt.step korder h st = Ok st' ->
  bytes (title st') `sublist_of` bytes (title st) /\
  endOfTitle st' <= endOfTitle st.
Proof.
  unfold Kt.step. intros H.
  destruct (Kt.evaluate korder h st) as [[st1|st1 m skip]|p] eqn:Hev;
    [| |discriminate H]; rewrite ebind_Ok in H.
  - injection H as <-. apply Kt_evaluate_continue in Hev as [-> ->].
    split; [done | lia].
  - apply Kt_evaluate_survive in Hev as (Ht1 & He1 & _).
    rewrite <- Ht1, <- He1. split.
    + by eapply Kt_commit_title.
    + rewrite (Kt_commit_boundary _ _ _ _ _ H).
      assert (0 <= slen (mValue m)) by (unfold slen; lia).
      destruct skip.
      * destruct (_ && _); lia.
      * destruct (negb (mIndex m =? 0)); cbn [andb]; [|lia].
        destruct (Z.ltb_spec (mIndex m) (endOfTitle st1)); lia.
Qed.

Lemma Kt_run_handlers_shrinks korder handlers st st' :
  Kt.run_handlers korder handlers st = Ok st' ->
  bytes (title st') `sublist_of` bytes (title st) /\
  endOfTitle st' <= endOfTitle st.
Proof.
  revert st. induction handlers as [|h rest IH]; intros st.
  - intros [= <-]. split; [done | lia].
  - cbn [Kt.run_handlers].
    destruct (Kt.step korder h st) as [st1|p] eqn:Hstep; [|discriminate].
    rewrite ebind_Ok. intros Hrun.
    apply Kt_step_shrinks in Hstep as [Hsub Hle].
    apply IH in Hrun as [Hsub' Hle']. split.
    + by transitivity (bytes (title st1)).
    + lia.
Qed.

(** The working title at the start of the loop. *)

Lemma slen_app (a b : string) : slen (a +:+ b) = slen a + slen b.
Proof. rewrite !slen_bytes, bytes_app, length_app. lia. Qed.

Lemma slen_replace_runs (sep : ascii -> bool) (s : string) (b : bool) :
  slen (replace_runs sep " " s b) <= slen s.
Proof.
  revert b. induction s as [|c s IH]; intros b; [done|].
  cbn [replace_runs]. destruct (sep c).
  - destruct b.
    + specialize (IH true). unfold slen in *. cbn [String.length]. lia.
    + rewrite slen_app. specialize (IH true). unfold slen in *.
      cbn [String.length] in *. lia.
  - specialize (IH false). unfold slen in *. cbn [String.length]. lia.
Qed.

Lemma elem_of_replace_runs (sep : ascii -> bool) (s : string) (b : bool)
    (c : ascii) :
  c ∈ bytes (replace_runs sep " " s b) ->
  c = " "%char \/ (c ∈ bytes s /\ sep c = false).
Proof.
  revert b. induction s as [|d s IH]; intros b.
  - cbn. by intros H%elem_of_nil.
  - cbn [replace_runs]. destruct (sep d) eqn:Hd.
    + destruct b.
      * intros H. apply IH in H as [->|[H ?]]; [by left|]. right.
        split; [|done]. unfold bytes. cbn. by right.
      * rewrite bytes_app. intros H. apply elem_of_app in H as [H|H].
        -- left. cbn in H. by apply list_elem_of_singleton in H.
        -- apply IH in H as [->|[H ?]]; [by left|]. right.
           split; [|done]. unfold bytes. cbn. by right.
    + unfold bytes at 1. cbn [list_ascii_of_string]. intros H.
      apply elem_of_cons in H as [->|H].
      * right. split; [|done]. unfold bytes. cbn. by left.
      * apply IH in H as [->|[H ?]]; [by left|]. right.
        split; [|done]. unfold bytes. cbn. by right.
Qed.

Lemma Go_init_state_sized (input : string) :
  int_sized input -> int_sized (title (Go.init_state input)).
Proof.
  unfold int_sized, Go.init_state, underscores_ReplaceAll,
    whitespaces_ReplaceAll. cbn [title]. intros H.
  pose proof (slen_replace_runs is_space input false).
  pose proof (slen_replace_runs is_underscore
                (replace_runs is_space " " input false) false).
  lia.
Qed.

Lemma cells_empty (C : parseMeta -> Prop) : cells C ∅.
Proof. intros k m Hk. by rewrite lookup_empty in Hk. Qed.

(** X9. The rule loop only deletes text from the working title: when it
    ends, the title is the working title it started from with some bytes
    taken out, the others in their order. This holds for [ptt.go] when the
    input and the texts the closures store fit an [int], and for the port. *)
Theorem working_title_only_loses_text (orders : parse_order)
    (korder : range_order) (input : string) (handlers : list handler)
    (st : loop_state) :
  (int_sized input ->
   Forall (closures_keep int_sized sized_cell) handlers ->
   Go.run_rules orders input handlers = Ok st ->
   bytes (title st) `sublist_of` bytes (title (Go.init_state input))) /\
  (Kt.run_rules korder input handlers = Ok st ->
   bytes (title st) `sublist_of` bytes (title (Kt.init_state input))).
Proof.
  split.
  - intros Hin Hall Hrun. unfold Go.run_rules in Hrun.
    by destruct (Go_run_handlers_shrinks _ _ _ _ _
                   (Go_init_state_sized input Hin) (cells_empty _) Hall Hrun).
  - intros Hrun. unfold Kt.run_rules in Hrun.
    by apply Kt_run_handlers_shrinks in Hrun as [H _].
Qed.

(** X10. The boundary of the title never moves to the right: when the rule
    loop ends it is at most the length of the working title the loop
    started from. *)
Theorem boundary_never_grows (orders : parse_order) (korder : range_order)
    (input : string) (handlers : list handler) (st : loop_state) :
  (int_sized input ->
   Forall (closures_keep int_sized sized_cell) handlers ->
   Go.run_rules orders input handlers = Ok st ->
   endOfTitle st <= slen (title (Go.init_state input))) /\
  (Kt.run_rules korder input handlers = Ok st ->
   endOfTitle st <= slen (title (Kt.init_state input))).
Proof.
  split.
  - intros Hin Hall Hrun. unfold Go.run_rules in Hrun.
    pose proof (Go_init_state_sized input Hin) as Hsized.
    destruct (Go_run_handlers_shrinks _ _ _ _ _ Hsized (cells_empty _)
                Hall Hrun) as [_ H].
    apply H. exact Hsized.
  - intros Hrun. unfold Kt.run_rules in Hrun.
    by apply Kt_run_handlers_shrinks in Hrun as [_ H].
Qed.

(** *** The transforms that the file of the rule table names *)

Lemma value_set_append_NoDup (values : list string) (v : string) :
  NoDup values -> NoDup (vs_append values v).
Proof.
  intros Hnd. unfold vs_append.
  destruct (existsb (String.eqb v) values) eqn:Hex; [done|].
  apply NoDup_app. repeat split; [done| |apply NoDup_singleton].
  intros x Hx Hx'. apply list_elem_of_singleton in Hx' as ->.
  apply existsb_eqb_elem_of in Hx. congruence.
Qed.

Lemma fold_append_NoDup (vs values : list string) :
  NoDup values -> NoDup (fold_left vs_append vs values).
Proof.
  revert values. induction vs as [|v vs IH]; intros values Hnd; [done|].
  cbn [fold_left]. by apply IH, value_set_append_NoDup.
Qed.

Ltac transform_cases H :=
  match type of H with
  | to_value _ _ _ _ = _ => unfold to_value in H
  | to_boolean _ _ _ = _ => unfold to_boolean in H
  | to_with_suffix _ _ _ _ = _ => unfold to_with_suffix in H
  | to_value_set _ _ _ _ = _ => unfold to_value_set in H
  | to_value_set_with_transform _ _ _ _ = _ =>
      unfold to_value_set_with_transform in H
  | to_value_set_multi_with_transform _ _ _ _ = _ =>
      unfold to_value_set_multi_with_transform in H
  | to_lowercase _ _ _ _ = _ =>
      unfold to_lowercase, to_string_function, conversion_panic in H
  | to_uppercase _ _ _ _ = _ =>
      unfold to_uppercase, to_string_function, conversion_panic in H
  | to_trimmed _ _ _ _ = _ =>
      unfold to_trimmed, to_string_function, conversion_panic in H
  | to_clean_date _ _ _ _ = _ => unfold to_clean_date in H
  | to_clean_month _ _ _ _ = _ => unfold to_clean_month in H
  | to_date _ _ _ _ = _ => unfold to_date in H
  | to_int_array _ _ _ = _ => unfold to_int_array in H
  | to_year _ _ _ = _ => unfold to_year in H
  | to_int_range _ _ _ = _ => unfold to_int_range in H
  end;
  run_cases H; try discriminate H; injection H as <- <-.

Lemma named_transform_frame (transform : hTransformer) :
  named_transform transform -> writes_value_only transform.
Proof.
  intros Hn t m res m' res' H. destruct Hn; transform_cases H; done.
Qed.

Lemma named_transform_sets (transform : hTransformer) t m res m' res' :
  named_transform transform ->
  transform t m res = Ok (m', res') ->
  set_without_duplicates m -> set_without_duplicates m'.
Proof.
  intros Hn H Hm. unfold set_without_duplicates in *.
  destruct Hn; transform_cases H; cbn [set_value value].
  all: repeat match goal with
         | E : value _ = _ |- _ => rewrite ?E; clear E
         end.
  all: try done.
  all: first [by apply value_set_append_NoDup | by apply fold_append_NoDup].
Qed.

(** X11. The transforms that the file of the rule table defines by name
    write the value of the cell only: the offset and the text of the match,
    the flags of the cell and the map are left as they were, whatever the
    value they find; and none of them leaves a value set with a value
    twice. *)
Theorem named_transforms_write_the_value_only (transform : hTransformer) :
  named_transform transform ->
  writes_value_only transform /\
  (forall t m res m' res',
     transform t m res = Ok (m', res') ->
     set_without_duplicates m -> set_without_duplicates m').
Proof.
  intros Hn. split; [by apply named_transform_frame|].
  intros t m res m' res'. by apply named_transform_sets.
Qed.

Lemma named_transforms_write_the_value_only_witness :
  writes_value_only to_int_range.
Proof.
  apply (named_transforms_write_the_value_only to_int_range).
  apply named_to_int_range.
Defined.

Lemma remove_from_value_frame f o t m res m' res' :
  remove_from_value f o t m res = Ok (m', res') ->
  res' = res /\ mIndex m' = mIndex m /\ mValue m' = mValue m
  /\ remove m' = remove m /\ processed m' = processed m
  /\ (set_without_duplicates m -> set_without_duplicates m').
Proof.
  unfold remove_from_value. intros H. run_cases H; injection H as <- <-; done.
Qed.

Lemma plain_rule_sized (h : handler) :
  plain_rule h -> closures_keep int_sized sized_cell h.
Proof.
  intros [Hp Ht]. split.
  - intros transform t m res m' res' Et _ Hm Hres H. rewrite Et in Ht.
    apply named_transform_frame in H as (-> & _ & Hv & _); [|done].
    split; [|done]. unfold sized_cell in *. by rewrite Hv.
  - intros process o t m res m' res' Ep _ Hm Hres H. rewrite Ep in Hp.
    destruct Hp as [f ->].
    apply remove_from_value_frame in H as (-> & _ & Hv & _).
    split; [|done]. unfold sized_cell in *. by rewrite Hv.
Qed.

Lemma plain_rule_sets (h : handler) :
  plain_rule h -> closures_keep (fun _ => True) set_without_duplicates h.
Proof.
  intros [Hp Ht]. split.
  - intros transform t m res m' res' Et _ Hm Hres H. rewrite Et in Ht.
    pose proof (named_transform_sets _ _ _ _ _ _ Ht H Hm).
    by apply named_transform_frame in H as (-> & _); [|done].
  - intros process o t m res m' res' Ep _ Hm Hres H. rewrite Ep in Hp.
    destruct Hp as [f ->].
    apply remove_from_value_frame in H as (-> & _ & _ & _ & _ & Hs).
    split; [by apply Hs | done].
Qed.

(** *** Consequences of the invariants *)

Lemma working_title_only_loses_text_witness :
  exists st,
    Go.run_rules example_orders "Film 2020 www" site_table = Ok st /\
    bytes (title st) `sublist_of` bytes "Film 2020 www".
Proof.
  eexists. split; [vm_compute; reflexivity|].
  apply (proj1 (working_title_only_loses_text example_orders example_order
                  "Film 2020 www" site_table _)).
  - unfold int_sized, slen, max_int. cbn. lia.
  - apply Forall_forall. intros h Hh. apply plain_rule_sized.
    repeat (apply elem_of_cons in Hh as [->|Hh];
            [split; cbn; by try constructor|]).
    by apply elem_of_nil in Hh.
  - vm_compute. reflexivity.
Defined.

Lemma boundary_never_grows_witness :
  exists st,
    Go.run_rules example_orders "Film 2020 www" site_table = Ok st /\
    endOfTitle st <= 13.
Proof.
  eexists. split; [vm_compute; reflexivity|].
  apply (proj1 (boundary_never_grows example_orders example_order
                  "Film 2020 www" site_table _)).
  - unfold int_sized, slen, max_int. cbn. lia.
  - apply Forall_forall. intros h Hh. apply plain_rule_sized.
    repeat (apply elem_of_cons in Hh as [->|Hh];
            [split; cbn; by try constructor|]).
    by apply elem_of_nil in Hh.
  - vm_compute. reflexivity.
Defined.

Lemma set_field_NoDup (result : resmap) (r : Result) (s : slot)
    (l : list string) :
  cells set_without_duplicates result ->
  get s r = get s zero_Result
  \/ (exists m, result !! slot_name s = Some m /\ get s r = value m) ->
  get s r = ValueSet l -> NoDup l.
Proof.
  intros Hc [Hz|(m & Hm & Hv)] Hl.
  - rewrite Hz in Hl. destruct s; try discriminate Hl;
      injection Hl as <-; apply NoDup_nil_2.
  - apply Hc in Hm. unfold set_without_duplicates in Hm.
    rewrite <- Hv, Hl in Hm. done.
Qed.

(** X12. The lists of the record that come from value sets (audio,
    channels, HDR, languages, release types) never hold a value twice,
    whatever the title, when the closures of the rules keep the value sets
    free of duplicates, as the transforms that the file names do. *)
Theorem value_set_fields_hold_no_duplicate (orders : parse_order)
    (clean : string -> string) (input : string) (handlers : list handler)
    (r : Result) :
  valid_order (assembly_range orders) ->
  Forall (closures_keep (fun _ => True) set_without_duplicates) handlers ->
  Go.parse orders clean input handlers = Returned r ->
  NoDup (Audio r) /\ NoDup (Channels r) /\ NoDup (HDR r)
  /\ NoDup (Languages r) /\ NoDup (ReleaseTypes r).
Proof.
  intros Hord Hall Hparse.
  assert (Hsets : exists result,
             cells set_without_duplicates result /\
             forall s, get s r = get s zero_Result
                       \/ exists m, result !! slot_name s = Some m
                                    /\ get s r = value m).
  { unfold Go.parse in Hparse.
    destruct (Go.run_rules orders input handlers) as [st|p] eqn:Hrun.
    - exists (result st). split.
      { unfold Go.run_rules in Hrun.
        eapply (sets_run _ _ _ (Go.init_state input));
          [exact (cells_empty _) | done | done]. }
      destruct (Go.assemble _ _) as [r' o] eqn:Has.
      apply assemble_partial in Has as (Hget & _).
      assert (Hr : forall s, get s r = get s r').
      { destruct o as [p|].
        - destruct p as [msg|msg]; cbn [Go.recover] in Hparse;
            [|discriminate Hparse].
          injection Hparse as <-. intros s. apply get_set_err.
        - rewrite slice_title_prefix in Hparse. injection Hparse as <-.
          intros s. apply get_set_Title. }
      intros s. rewrite Hr. destruct (Hget s) as [Hs|(m & Hm & Hs)];
        [by left|]. right. exists m. split; [|done].
      rewrite (Hord (result st)) in Hm. by apply elem_of_map_to_list in Hm.
    - exists ∅. split; [apply cells_empty|]. intros s. left.
      destruct p as [msg|msg]; cbn [Go.recover] in Hparse;
        [|discriminate Hparse].
      injection Hparse as <-. by destruct s. }
  destruct Hsets as (result & Hc & Hget).
  repeat split.
  - by apply (set_field_NoDup result r SAudio _ Hc (Hget SAudio)).
  - by apply (set_field_NoDup result r SChannels _ Hc (Hget SChannels)).
  - by apply (set_field_NoDup result r SHDR _ Hc (Hget SHDR)).
  - by apply (set_field_NoDup result r SLanguages _ Hc (Hget SLanguages)).
  - by apply (set_field_NoDup result r SReleaseTypes _ Hc
                (Hget SReleaseTypes)).
Qed.

Lemma value_set_fields_hold_no_duplicate_witness :
  exists r,
    Go.parse example_orders example_clean "EN FR EN 2020" languages_table
    = Returned r /\ NoDup (Languages r).
Proof.
  eexists. split; [vm_compute; reflexivity|].
  apply (value_set_fields_hold_no_duplicate example_orders example_clean
           "EN FR EN 2020" languages_table).
  - apply example_order_valid.
  - apply Forall_forall. intros h Hh. apply plain_rule_sets.
    repeat (apply elem_of_cons in Hh as [->|Hh];
            [split; cbn; by try constructor|]).
    by apply elem_of_nil in Hh.
  - vm_compute. reflexivity.
Defined.

(** X13. The text that [parse] hands to the title cleanup holds no
    underscore and no white space other than the space, whatever the rules
    removed: the loop only deletes bytes of a title in which the white space
    and the underscores were replaced. *)
Theorem title_prefix_alphabet (orders : parse_order) (korder : range_order)
    (input : string) (handlers : list handler) (st : loop_state) :
  (int_sized input ->
   Forall (closures_keep int_sized sized_cell) handlers ->
   Go.run_rules orders input handlers = Ok st ->
   Forall (title_byte is_space) (bytes (title_prefix st))) /\
  (Kt.run_rules korder input handlers = Ok st ->
   Forall (title_byte Kt.is_space) (bytes (title_prefix st))).
Proof.
  assert (Hinit : forall (space : ascii -> bool) c,
            c ∈ bytes (replace_runs is_underscore " "
                         (replace_runs space " " input false) false) ->
            title_byte space c).
  { intros space c Hc. apply elem_of_replace_runs in Hc as [->|[Hc Hu]].
    - split; [done|]. done.
    - split.
      + intros ->. discriminate Hu.
      + intros Hs. apply elem_of_replace_runs in Hc as [->|[_ Hn]];
          [done | congruence]. }
  assert (Hprefix : bytes (title_prefix st) `sublist_of` bytes (title st)).
  { unfold title_prefix. rewrite bytes_substring. cbn [drop].
    apply sublist_take. }
  split.
  - intros Hin Hall Hrun. apply Forall_forall. intros c Hc.
    apply (Hinit is_space).
    eapply elem_of_sublist; [exact Hc|].
    transitivity (bytes (title st)); [done|].
    unfold Go.run_rules in Hrun.
    by destruct (Go_run_handlers_shrinks _ _ _ _ _
                   (Go_init_state_sized input Hin) (cells_empty _) Hall Hrun).
  - intros Hrun. apply Forall_forall. intros c Hc.
    apply (Hinit Kt.is_space).
    eapply elem_of_sublist; [exact Hc|].
    transitivity (bytes (title st)); [done|].
    unfold Kt.run_rules in Hrun.
    by apply Kt_run_handlers_shrinks in Hrun as [H _].
Qed.

Lemma title_prefix_alphabet_witness :
  exists st,
    Go.run_rules example_orders tabbed_title site_table = Ok st /\
    Forall (title_byte is_space) (bytes (title_prefix st)).
Proof.
  eexists. split; [vm_compute; reflexivity|].
  apply (proj1 (title_prefix_alphabet example_orders example_order
                  tabbed_title site_table _)).
  - vm_compute. discriminate.
  - apply Forall_forall. intros h Hh. apply plain_rule_sized.
    repeat (apply elem_of_cons in Hh as [->|Hh];
            [split; cbn; by try constructor|]).
    by apply elem_of_nil in Hh.
  - vm_compute. reflexivity.
Defined.

(** *** A rule writes the cell of its field *)

Lemma Go_record_match_map h st idxs idx0 m r skip :
  Go.record_match h st idxs idx0 = Ok (Some (m, r, skip)) ->
  r = <[Field h := m]> (result st).
Proof.
  unfold Go.record_match. intros H. run_cases H.
  all: by injection H as <- <- <-.
Qed.

Lemma Go_match_pattern_map order h re st m r skip :
  Go.match_pattern order h re st = Ok (Some (m, r, skip)) ->
  r = <[Field h := m]> (result st).
Proof.
  unfold Go.match_pattern. intros H. run_cases H.
  all: try discriminate H.
  all: by eapply Go_record_match_map.
Qed.

Lemma Kt_record_match_map h st idxs idx0 m r :
  Kt.record_match h st idxs idx0 = Ok (Some (m, r)) ->
  r = <[Field h := m]> (result st).
Proof.
  unfold Kt.record_match. intros H. run_cases H.
  all: by injection H as <- <-.
Qed.

Lemma Kt_match_pattern_map h re st m r :
  Kt.match_pattern h re st = Ok (Some (m, r)) ->
  r = <[Field h := m]> (result st).
Proof.
  unfold Kt.match_pattern. intros H. run_cases H.
  all: try discriminate H.
  all: by eapply Kt_record_match_map.
Qed.

Ltac leave_map Hl :=
  repeat match goal with
         | Ep : Process ?h = Some ?p, E : ?p _ _ _ ?r = Ok (_, ?r') |- _ =>
             pose proof (proj2 Hl _ _ _ _ _ _ _ Ep E); subst r'; clear E
         | Et : Transform ?h = Some ?p, E : ?p _ _ ?r = Ok (_, ?r') |- _ =>
             pose proof (proj1 Hl _ _ _ _ _ _ Et E); subst r'; clear E
         end.

Lemma Go_evaluate_frame order h st v (k : string) :
  leaves_map h -> k <> Field h ->
  Go.evaluate order h st = Ok v ->
  match v with
  | Continue st' => result st' !! k = result st !! k
  | Survive st' _ _ => result st' !! k = result st !! k
  end.
Proof.
  intros Hl Hk. unfold Go.evaluate. intros H. run_cases H.
  all: try discriminate H.
  all: repeat match goal with
         | E : Go.match_pattern _ _ _ _ = Ok (Some (_, _, _)) |- _ =>
             apply Go_match_pattern_map in E
         | E : Ok _ = Ok _ |- _ => injection E as ? ?
         end; subst.
  all: leave_map Hl.
  all: injection H as <-; cbn [result].
  all: by rewrite ?lookup_delete_ne, ?lookup_insert_ne by done.
Qed.

Lemma Kt_evaluate_frame order h st v (k : string) :
  leaves_map h -> k <> Field h ->
  Kt.evaluate order h st = Ok v ->
  match v with
  | Continue st' => result st' !! k = result st !! k
  | Survive st' _ _ => result st' !! k = result st !! k
  end.
Proof.
  intros Hl Hk. unfold Kt.evaluate. intros H. run_cases H.
  all: try discriminate H.
  all: repeat match goal with
         | E : Kt.match_pattern _ _ _ = Ok (Some (_, _)) |- _ =>
             apply Kt_match_pattern_map in E
         | E : Ok _ = Ok _ |- _ => injection E as ? ?
         end; subst.
  all: leave_map Hl.
  all: injection H as <-; cbn [result].
  all: by rewrite ?lookup_delete_ne, ?lookup_insert_ne by done.
Qed.

Lemma Go_step_frame order h st st' (k : string) :
  leaves_map h -> k <> Field h ->
  Go.step order h st = Ok st' -> result st' !! k = result st !! k.
Proof.
  intros Hl Hk. unfold Go.step. intros H.
  destruct (Go.evaluate order h st) as [[st1|st1 m skip]|p] eqn:Hev;
    [| |discriminate H]; rewrite ebind_Ok in H.
  - injection H as <-. by apply (Go_evaluate_frame _ _ _ _ k Hl Hk) in Hev.
  - apply (Go_evaluate_frame _ _ _ _ k Hl Hk) in Hev.
    apply Go_commit_inv in H as [-> _]. by rewrite lookup_insert_ne.
Qed.

Lemma Kt_step_frame order h st st' (k : string) :
  leaves_map h -> k <> Field h ->
  Kt.step order h st = Ok st' -> result st' !! k = result st !! k.
Proof.
  intros Hl Hk. unfold Kt.step. intros H.
  destruct (Kt.evaluate order h st) as [[st1|st1 m skip]|p] eqn:Hev;
    [| |discriminate H]; rewrite ebind_Ok in H.
  - injection H as <-. by apply (Kt_evaluate_frame _ _ _ _ k Hl Hk) in Hev.
  - apply (Kt_evaluate_frame _ _ _ _ k Hl Hk) in Hev.
    apply Kt_commit_inv in H as [-> _]. by rewrite lookup_insert_ne.
Qed.

Lemma Go_step_found order h st re m :
  Pattern h = Some re -> result st !! Field h = Some m ->
  KeepMatching h = false -> Go.step order h st = Ok st.
Proof.
  intros Hp Hm Hkeep. unfold Go.step, Go.evaluate, Go.match_pattern.
  rewrite Hp, Hm, Hkeep.
  by rewrite bool_decide_eq_true_2 by (by eexists).
Qed.

Lemma Kt_step_found order h st re m :
  Pattern h = Some re -> result st !! Field h = Some m ->
  KeepMatching h = false -> Kt.step order h st = Ok st.
Proof.
  intros Hp Hm Hkeep. unfold Kt.step, Kt.evaluate, Kt.match_pattern.
  rewrite Hp, Hm, Hkeep.
  by rewrite bool_decide_eq_true_2 by (by eexists).
Qed.

Lemma Go_run_handlers_keeps orders i handlers st st' f m :
  Forall leaves_map handlers -> Forall (matches_once f) handlers ->
  result st !! f = Some m ->
  Go.run_handlers orders i handlers st = Ok st' ->
  result st' !! f = Some m.
Proof.
  intros Hl Ho. revert i st.
  induction handlers as [|h rest IH]; intros i st Hm.
  - by intros [= <-].
  - apply Forall_cons in Hl as [Hlh Hl]. apply Forall_cons in Ho as [Hoh Ho].
    cbn [Go.run_handlers].
    destruct (Go.step (turn_ranges orders i) h st) as [st1|p] eqn:Hstep;
      [|discriminate].
    rewrite ebind_Ok. apply IH; [done..|].
    destruct (decide (Field h = f)) as [Hf|Hf].
    + destruct (Hoh Hf) as [Hp Hkeep].
      destruct (Pattern h) as [re|] eqn:Hre; [|done].
      rewrite <- Hf in Hm.
      rewrite (Go_step_found _ _ _ _ _ Hre Hm Hkeep) in Hstep.
      injection Hstep as <-. by rewrite <- Hf.
    + erewrite Go_step_frame; [done | done | | done]. congruence.
Qed.

Lemma Kt_run_handlers_keeps korder handlers st st' f m :
  Forall leaves_map handlers -> Forall (matches_once f) handlers ->
  result st !! f = Some m ->
  Kt.run_handlers korder handlers st = Ok st' ->
  result st' !! f = Some m.
Proof.
  intros Hl Ho. revert st.
  induction handlers as [|h rest IH]; intros st Hm.
  - by intros [= <-].
  - apply Forall_cons in Hl as [Hlh Hl]. apply Forall_cons in Ho as [Hoh Ho].
    cbn [Kt.run_handlers].
    destruct (Kt.step korder h st) as [st1|p] eqn:Hstep; [|discriminate].
    rewrite ebind_Ok. apply IH; [done..|].
    destruct (decide (Field h = f)) as [Hf|Hf].
    + destruct (Hoh Hf) as [Hp Hkeep].
      destruct (Pattern h) as [re|] eqn:Hre; [|done].
      rewrite <- Hf in Hm.
      rewrite (Kt_step_found _ _ _ _ _ Hre Hm Hkeep) in Hstep.
      injection Hstep as <-. by rewrite <- Hf.
    + erewrite Kt_step_frame; [done | done | | done]. congruence.
Qed.

Lemma Go_run_handlers_app orders i hs1 hs2 st :
  Go.run_handlers orders i (hs1 ++ hs2) st
  = st1 ← Go.run_handlers orders i hs1 st;
    Go.run_handlers orders (i + List.length hs1) hs2 st1.
Proof.
  revert i st. induction hs1 as [|h hs1 IH]; intros i st.
  - cbn [app Go.run_handlers List.length]. rewrite ebind_Ok.
    by rewrite Nat.add_0_r.
  - cbn [app Go.run_handlers List.length].
    destruct (Go.step (turn_ranges orders i) h st) as [st1|p]; [|done].
    rewrite !ebind_Ok, IH. by rewrite Nat.add_succ_r.
Qed.

Lemma Kt_run_handlers_app korder hs1 hs2 st :
  Kt.run_handlers korder (hs1 ++ hs2) st
  = st1 ← Kt.run_handlers korder hs1 st; Kt.run_handlers korder hs2 st1.
Proof.
  revert st. induction hs1 as [|h hs1 IH]; intros st.
  - cbn [app Kt.run_handlers]. by rewrite ebind_Ok.
  - cbn [app Kt.run_handlers].
    destruct (Kt.step korder h st) as [st1|p]; [|done].
    by rewrite !ebind_Ok, IH.
Qed.

Lemma plain_rule_leaves_map (h : handler) : plain_rule h -> leaves_map h.
Proof.
  intros [Hp Ht]. split.
  - intros transform t m res m' res' Et H. rewrite Et in Ht.
    by apply named_transform_frame in H as (-> & _).
  - intros process o t m res m' res' Ep H. rewrite Ep in Hp.
    destruct Hp as [f ->]. by apply remove_from_value_frame in H as (-> & _).
Qed.

(** X14. The first match of a field wins: once a field has a cell, the
    rules that follow leave that cell as it is, when the rules of that field
    have a pattern and do not keep matching and the closures of the rules
    leave the map as it is (as the transforms that the file names do). A rule
    of another field changes no cell but that of its own field. The port
    does the same. *)
Theorem first_match_wins (orders : parse_order) (korder : range_order)
    (input : string) (before after : list handler) (f : string)
    (m : parseMeta) :
  Forall leaves_map after -> Forall (matches_once f) after ->
  (forall st st',
     Go.run_rules orders input before = Ok st ->
     result st !! f = Some m ->
     Go.run_rules orders input (before ++ after) = Ok st' ->
     result st' !! f = Some m) /\
  (forall st st',
     Kt.run_rules korder input before = Ok st ->
     result st !! f = Some m ->
     Kt.run_rules korder input (before ++ after) = Ok st' ->
     result st' !! f = Some m).
Proof.
  intros Hl Ho. split.
  - intros st st' Hb Hm. unfold Go.run_rules in *.
    rewrite Go_run_handlers_app, Hb, ebind_Ok.
    by apply Go_run_handlers_keeps.
  - intros st st' Hb Hm. unfold Kt.run_rules in *.
    rewrite Kt_run_handlers_app, Hb, ebind_Ok.
    by apply Kt_run_handlers_keeps.
Qed.

Lemma first_match_wins_witness :
  exists st',
    Go.run_rules example_orders "Film 720p 1080p 2020"
      (first_rules ++ next_rules) = Ok st' /\
    result st' !! "resolution"
    = Some (mkMeta 5 "720p" (Str "720p") false true).
Proof.
  assert (Hl : Forall leaves_map next_rules).
  { apply Forall_forall. intros h Hh. apply plain_rule_leaves_map.
    repeat (apply elem_of_cons in Hh as [->|Hh];
            [split; cbn; by try constructor|]).
    by apply elem_of_nil in Hh. }
  assert (Ho : Forall (matches_once "resolution") next_rules).
  { apply Forall_forall. intros h Hh.
    repeat (apply elem_of_cons in Hh as [->|Hh]; [by intros _; split|]).
    by apply elem_of_nil in Hh. }
  eexists. split; [vm_compute; reflexivity|].
  eapply (proj1 (first_match_wins example_orders example_order
                   "Film 720p 1080p 2020" first_rules next_rules
                   "resolution" _ Hl Ho)).
  - vm_compute. reflexivity.
  - vm_compute. reflexivity.
  - vm_compute. reflexivity.
Defined.

(** *** Validators *)

Lemma validate_and_app (vs1 vs2 : list hMatchValidator) (input : string)
    (idxs : list Z) :
  validate_and (vs1 ++ vs2) input idxs
  = validate_and vs1 input idxs
    ≫= (fun ok : bool =>
          if ok then validate_and vs2 input idxs else Ok false).
Proof.
  induction vs1 as [|v vs1 IH]; cbn [app validate_and].
  - by rewrite ebind_Ok.
  - destruct (v input idxs) as [[|]|p]; [|done..].
    rewrite !ebind_Ok. cbn [negb]. apply IH.
Qed.

(** X15. [validate_and] accepts a match exactly when every validator
    accepts it, provided none faults; the validators run in order and stop
    at the first that rejects, so that the validators after it cannot
    fault; and validating with two lists in a row is validating with the
    first list, then with the second if the first accepts. *)
Theorem validate_and_all (validators : list hMatchValidator) (input : string)
    (idxs : list Z) :
  ((forall v, v ∈ validators -> exists b, v input idxs = Ok b) ->
   validate_and validators input idxs
   = Ok (forallb (fun v => accepted (v input idxs)) validators))
  /\
  (forall vs1 v vs2,
     validators = (vs1 ++ v :: vs2)%list ->
     (forall u, u ∈ vs1 -> u input idxs = Ok true) ->
     v input idxs = Ok false ->
     validate_and validators input idxs = Ok false) /\
  (forall vs1 vs2,
     validators = (vs1 ++ vs2)%list ->
     validate_and validators input idxs
     = validate_and vs1 input idxs
       ≫= (fun ok : bool =>
             if ok then validate_and vs2 input idxs else Ok false)).
Proof.
  split; [|split].
  - induction validators as [|v vs IH]; intros Hall; [done|].
    cbn [validate_and forallb].
    destruct (Hall v) as [b Hb]; [by left|]. rewrite Hb, ebind_Ok.
    destruct b; cbn [negb accepted andb]; [|done].
    apply IH. intros u Hu. apply Hall. by right.
  - intros vs1 v vs2 -> Hacc Hrej. rewrite validate_and_app.
    assert (H1 : validate_and vs1 input idxs = Ok true).
    { clear Hrej. induction vs1 as [|u vs1 IH]; [done|].
      cbn [validate_and]. rewrite (Hacc u) by (by left).
      rewrite ebind_Ok. cbn [negb]. apply IH. intros w Hw. apply Hacc.
      by right. }
    rewrite H1, ebind_Ok. cbn [validate_and]. by rewrite Hrej, ebind_Ok.
  - intros vs1 vs2 ->. apply validate_and_app.
Qed.

Lemma validate_and_all_witness :
  validate_and [validate_not_at_start; validate_not_at_end]
    "[01] Film" [0; 4]
  = Ok false.
Proof.
  apply (proj1 (proj2 (validate_and_all
                         [validate_not_at_start; validate_not_at_end]
                         "[01] Film" [0; 4]))
           [] validate_not_at_start [validate_not_at_end] eq_refl).
  - intros u Hu. by apply elem_of_nil in Hu.
  - reflexivity.
Defined.

Lemma groups_same_loop_true (input : string) (match_ : list Z)
    (first : string) (indices : list Z) :
  groups_same_loop input match_ first indices = Ok true
  <-> forall i, i ∈ indices -> group_text input match_ i = Ok first.
Proof.
  induction indices as [|i rest IH]; cbn [groups_same_loop].
  - split; [|done]. intros _ i Hi. by apply elem_of_nil in Hi.
  - destruct (group_text input match_ i) as [other|p] eqn:Hi.
    + rewrite ebind_Ok. destruct (String.eqb_spec other first) as [->|Hne];
        cbn [negb].
      * rewrite IH. split.
        -- intros H j Hj. apply elem_of_cons in Hj as [->|Hj]; auto.
        -- intros H j Hj. apply H. by right.
      * split; [done|]. intros H. specialize (H i ltac:(by left)).
        congruence.
    + split; [done|]. intros H. specialize (H i ltac:(by left)).
      congruence.
Qed.

Lemma groups_same_loop_false (input : string) (match_ : list Z)
    (first : string) (indices : list Z) :
  groups_same_loop input match_ first indices = Ok false ->
  exists i other, i ∈ indices /\ group_text input match_ i = Ok other
                  /\ other <> first.
Proof.
  induction indices as [|i rest IH]; cbn [groups_same_loop]; [done|].
  destruct (group_text input match_ i) as [other|p] eqn:Hi; [|done].
  rewrite ebind_Ok. destruct (String.eqb_spec other first) as [->|Hne];
    cbn [negb].
  - intros H. apply IH in H as (j & o & Hj & Ho & Hne).
    exists j, o. split; [by right | done].
  - intros _. exists i, other. split; [by left | done].
Qed.

(** X16. [validate_matched_groups_are_same] accepts a match exactly when
    the groups it lists all have the same text; it rejects only when a
    listed group has a text other than that of the first; and a listed group
    that has no text in the match (it did not take part, its offsets are
    -1) is a fault when the loop reaches it, not a rejection. *)
Theorem validate_matched_groups (indices : list Z) (input : string)
    (match_ : list Z) :
  indices <> [] ->
  (validate_matched_groups_are_same indices input match_ = Ok true
   <-> exists first,
         forall i, i ∈ indices -> group_text input match_ i = Ok first) /\
  (validate_matched_groups_are_same indices input match_ = Ok false ->
   exists i j a b,
     i ∈ indices /\ j ∈ indices /\ group_text input match_ i = Ok a
     /\ group_text input match_ j = Ok b /\ a <> b) /\
  (forall i lo hi,
     index match_ (wrap (i * 2)) = Ok lo ->
     index match_ (wrap (wrap (i * 2) + 1)) = Ok hi ->
     lo < 0 ->
     exists msg, group_text input match_ i = Panic (RuntimeError msg)).
Proof.
  intros Hne. destruct indices as [|i0 rest]; [done|].
  cbn [validate_matched_groups_are_same]. split; [|split].
  - destruct (group_text input match_ i0) as [first|p] eqn:H0.
    + rewrite ebind_Ok, groups_same_loop_true. split.
      * intros H. exists first. intros i Hi.
        apply elem_of_cons in Hi as [->|Hi]; auto.
      * intros (f & Hf). pose proof (Hf i0 ltac:(by left)) as Hf0.
        rewrite H0 in Hf0. injection Hf0 as <-.
        intros i Hi. apply Hf. by right.
    + split; [done|]. intros (f & Hf). specialize (Hf i0 ltac:(by left)).
      congruence.
  - destruct (group_text input match_ i0) as [first|p] eqn:H0; [|done].
    rewrite ebind_Ok. intros H.
    apply groups_same_loop_false in H as (j & other & Hj & Ho & Hd).
    exists j, i0, other, first. repeat split; try done.
    + by right.
    + by left.
  - intros i lo hi Hlo Hhi Hneg. unfold group_text.
    rewrite Hlo, ebind_Ok, Hhi, ebind_Ok. unfold slice.
    destruct (Z.leb_spec 0 lo); [lia|]. cbn [andb]. by eexists.
Qed.

Lemma validate_matched_groups_witness :
  validate_matched_groups_are_same [3; 4] "2020-01-02"
    [0; 10; 0; 10; 0; 10; 4; 5; 7; 8]
  = Ok true.
Proof.
  apply (proj1 (validate_matched_groups [3; 4] "2020-01-02"
                  [0; 10; 0; 10; 0; 10; 4; 5; 7; 8] ltac:(done))).
  exists "-". intros i Hi.
  repeat (apply elem_of_cons in Hi as [->|Hi]; [reflexivity|]).
  by apply elem_of_nil in Hi.
Defined.

(** *** The transforms of the port against those of [ptt.go] *)

Lemma kt_wrap_small (z : Z) : kt_min_int <= z <= kt_max_int -> kt_wrap z = z.
Proof.
  unfold kt_wrap, kt_min_int, kt_max_int. intros H.
  rewrite Z.mod_small; lia.
Qed.

Lemma toIntOrNull_Atoi (p : string) (n : Z) :
  all_digits p = true -> Atoi p = Some n -> n <= kt_max_int ->
  toIntOrNull p = Some n.
Proof.
  intros Hd Hn Hle. unfold toIntOrNull. rewrite Hn.
  apply Atoi_digits in Hn as [H0 _]; [|done].
  destruct (Z.leb_spec kt_min_int n); [|unfold kt_min_int in *; lia].
  destruct (Z.leb_spec n kt_max_int); [done | lia].
Qed.

Lemma toIntOrNull_None (p : string) : Atoi p = None -> toIntOrNull p = None.
Proof. intros H. unfold toIntOrNull. by rewrite H. Qed.

(** X17. [toYear] of the port against [to_year]: on a string value in which
    every number is at most 2^31 - 101 the two leave the same value; the
    port reads the numbers as [Int], [ptt.go] as 64-bit [int]. *)
Theorem port_to_year_agrees (t : string) (m : parseMeta) (res : resmap)
    (v : string) :
  value m = Str v ->
  (forall p n, p ∈ non_digits_Split v -> Atoi p = Some n ->
               n <= kt_max_int - 100) ->
  toYear t m res = to_year t m res.
Proof.
  intros Hv Hbound. unfold toYear, to_year. rewrite Hv.
  pose proof (split_runs_digits v "" false eq_refl) as Hdigits.
  fold (non_digits_Split v) in Hdigits.
  destruct (non_digits_Split v) as [|start [|end_ rest]] eqn:Hsplit;
    [by apply split_runs_not_nil in Hsplit | done |].
  apply Forall_cons in Hdigits as [Hs Hdigits].
  apply Forall_cons in Hdigits as [He _].
  destruct (Atoi end_) as [endYear|] eqn:Hend.
  2:{ by rewrite (toIntOrNull_None _ Hend). }
  pose proof (Hbound end_ endYear ltac:(set_solver) Hend) as Hle.
  rewrite (toIntOrNull_Atoi _ _ He Hend) by (unfold kt_max_int in *; lia).
  destruct (Atoi start) as [startYear|] eqn:Hstart.
  2:{ by rewrite (toIntOrNull_None _ Hstart). }
  pose proof (Hbound start startYear ltac:(set_solver) Hstart) as Hls.
  rewrite (toIntOrNull_Atoi _ _ Hs Hstart) by (unfold kt_max_int in *; lia).
  apply Atoi_digits in Hend as [He0 _]; [|done].
  apply Atoi_digits in Hstart as [Hs0 _]; [|done].
  destruct (Z.ltb_spec endYear 100) as [Hlt|_]; [|done].
  assert (Hrem : 0 <= Z.rem startYear 100 <= startYear).
  { split; [by apply Z.rem_nonneg|]. apply Z.rem_le; lia. }
  rewrite (kt_wrap_small (endYear + startYear))
    by (unfold kt_min_int, kt_max_int in *; lia).
  rewrite kt_wrap_small by (unfold kt_min_int, kt_max_int in *; lia).
  rewrite (wrap_small (endYear + startYear))
    by (unfold min_int, max_int, kt_max_int in *; lia).
  rewrite wrap_small by (unfold min_int, max_int, kt_max_int in *; lia).
  done.
Qed.

Lemma port_to_year_agrees_witness :
  toYear "" (set_value (Str "2010-15") blank) ∅
  = to_year "" (set_value (Str "2010-15") blank) ∅.
Proof.
  apply (port_to_year_agrees "" (set_value (Str "2010-15") blank) ∅
           "2010-15" eq_refl).
  intros p n Hp.
  repeat (apply elem_of_cons in Hp as [->|Hp];
          [intros [= <-]; vm_compute; discriminate|]).
  by apply elem_of_nil in Hp.
Defined.

Lemma trimStart_spaces (s : string) :
  digits_or_spaces s = true -> trimStart s = trim_left " " s.
Proof.
  induction s as [|c r IH]; [done|].
  rewrite digits_or_spaces_cons, trim_left_cons. cbn [trimStart].
  intros H. apply andb_true_iff in H as [Hc Hr].
  destruct (Ascii.eqb_spec c " ") as [->|Hne].
  - cbn. by apply IH.
  - rewrite orb_false_r in Hc.
    assert (Hw : isWhitespace c = false).
    { unfold is_digit in Hc. unfold isWhitespace.
      apply andb_true_iff in Hc as [H1 H2].
      apply Z.leb_le in H1. apply Z.leb_le in H2.
      repeat match goal with
             | |- context [(?a <=? ?b)%nat] =>
                 destruct (Nat.leb_spec a b); try lia
             end; done. }
    by rewrite Hw.
Qed.

Lemma trim_spaces (s : string) :
  digits_or_spaces s = true -> trim s = strings_Trim s " ".
Proof.
  intros H. unfold trim, strings_Trim.
  rewrite (trimStart_spaces s H). rewrite trimStart_spaces; [done|].
  apply digits_or_spaces_rev; [|done]. by apply digits_or_spaces_trim_left.
Qed.

Lemma isSequential_in_sequence (nums : list Z) :
  Forall (fun x => 0 <= x <= kt_max_int) nums ->
  isSequential nums = in_sequence nums.
Proof.
  induction nums as [|a l IH]; [done|]. destruct l as [|b r]; [done|].
  intros H. apply Forall_cons in H as [Ha Hl]. specialize (IH Hl).
  apply Forall_cons in Hl as [Hb _].
  change (isSequential (a :: b :: r))
    with ((b =? kt_wrap (a + 1)) && isSequential (b :: r)).
  change (in_sequence (a :: b :: r))
    with (if wrap (a + 1) =? b then in_sequence (b :: r) else false).
  rewrite (wrap_small (a + 1))
    by (unfold min_int, max_int, kt_max_int in *; lia).
  destruct (Z.eq_dec a kt_max_int) as [->|Hne].
  - replace (kt_wrap (kt_max_int + 1)) with kt_min_int by reflexivity.
    destruct (Z.eqb_spec b kt_min_int); [unfold kt_min_int in *; lia|].
    destruct (Z.eqb_spec (kt_max_int + 1) b); [lia | done].
  - rewrite kt_wrap_small by (unfold kt_min_int, kt_max_int in *; lia).
    rewrite IH. rewrite (Z.eqb_sym b). by destruct (a + 1 =? b).
Qed.

Lemma replace_runs_no_digit (s : string) (b : bool) :
  no_digit s = true ->
  replace_runs non_digit " " s b
  = if b then "" else match s with "" => "" | _ => " " end.
Proof.
  revert b. induction s as [|c r IH]; intros b; [by destruct b|].
  cbn [no_digit replace_runs]. intros H. apply andb_true_iff in H as [Hc Hr].
  rewrite Hc, (IH true Hr). by destruct b.
Qed.

(** X18. [toIntRange] of the port against [to_int_range]: on a string value
    whose pieces are all numbers that fit an [Int] the two leave the same
    value (the list of the port taken to fit the heap). They part on a piece
    that is not a number: [ptt.go] reads it as 0, the port drops it; so on a
    value without a digit [ptt.go] leaves the list [0] and the port the
    empty list. *)
Theorem port_to_int_range_agrees (t : string) (m : parseMeta) (res : resmap)
    (v : string) :
  value m = Str v ->
  (Forall (fun p => exists n, Atoi p = Some n /\ n <= kt_max_int)
          (range_parts v) ->
   toIntRange t m res = to_int_range t m res) /\
  (no_digit v = true ->
   to_int_range t m res = Ok (set_value (Ints [0]) m, res) /\
   toIntRange t m res = Ok (set_value (Ints []) m, res)).
Proof.
  intros Hv. split.
  - intros Hall. rewrite (to_int_range_unfold t m res v Hv).
    unfold toIntRange. rewrite Hv.
    rewrite trim_spaces by apply digits_or_spaces_replace.
    fold (range_parts v).
    pose proof (range_parts_digits v) as Hdigits.
    assert (Hnums : omap toIntOrNull (range_parts v)
                    = List.map atoi_or_zero (range_parts v)
                    /\ Forall (fun x => 0 <= x <= kt_max_int)
                         (List.map atoi_or_zero (range_parts v))).
    { induction Hall as [|p l (n & Hn & Hle) _ IH]; [done|].
      apply Forall_cons in Hdigits as [Hp Hdigits].
      destruct (IH Hdigits) as [IH1 IH2].
      cbn [omap list_omap List.map]. unfold atoi_or_zero at 1 3.
      rewrite (toIntOrNull_Atoi p n Hp Hn Hle), Hn. cbn.
      rewrite <- IH1. split; [done|]. apply Forall_cons. split; [|by rewrite IH1].
      apply Atoi_digits in Hn; [lia | done]. }
    destruct Hnums as [-> Hbounds].
    destruct (List.map atoi_or_zero (range_parts v)) as [|a [|b [|c r]]]
      eqn:Hlist.
    + done.
    + done.
    + apply Forall_cons in Hbounds as [Ha Hb].
      apply Forall_cons in Hb as [Hb _].
      destruct (Z.ltb_spec a b) as [Hab|Hab].
      * rewrite make_run_inclusive;
          [|lia | lia | unfold max_int, kt_max_int in *; lia
           |unfold max_slice_len, kt_max_int in *; lia].
        rewrite ebind_Ok.
        assert (Hrun : Forall (fun x => 0 <= x <= kt_max_int)
                              (inclusive_run a b)).
        { apply Forall_forall. intros x Hx.
          apply elem_of_inclusive_run in Hx; lia. }
        rewrite (isSequential_in_sequence _ Hrun).
        rewrite in_sequence_inclusive_run
          by (unfold max_int, kt_max_int in *; lia).
        done.
      * rewrite ebind_Ok. rewrite isSequential_in_sequence; [done|].
        apply Forall_cons; split; [done|].
        apply Forall_cons; split; [done|]. apply Forall_nil_2.
    + rewrite ebind_Ok. by rewrite isSequential_in_sequence.
  - intros Hno.
    assert (Hparts : range_parts v = [""]).
    { unfold range_parts, non_digits_ReplaceAll.
      rewrite (replace_runs_no_digit v false Hno). by destruct v. }
    split.
    + rewrite (to_int_range_unfold t m res v Hv), Hparts. reflexivity.
    + unfold toIntRange. rewrite Hv.
      rewrite trim_spaces by apply digits_or_spaces_replace.
      fold (range_parts v). rewrite Hparts. reflexivity.
Qed.

Lemma port_to_int_range_agrees_witness :
  toIntRange "" (set_value (Str "E01-E03") blank) ∅
  = to_int_range "" (set_value (Str "E01-E03") blank) ∅.
Proof.
  apply (port_to_int_range_agrees "" (set_value (Str "E01-E03") blank) ∅
           "E01-E03" eq_refl).
  repeat constructor; eexists; (split; [vm_compute; reflexivity|]);
    vm_compute; discriminate.
Defined.

(** *** Closures of the rule table that write other fields *)

Lemma contains_dash (a b : string) :
  strings_Contains (a +:+ "-" +:+ b) "-" = true.
Proof.
  induction a as [|c a IH].
  - rewrite append_nil_l, append_cons, append_nil_l. by destruct b.
  - rewrite append_cons. cbn [strings_Contains]. rewrite IH.
    by destruct (String.prefix _ _).
Qed.

Lemma digits_no_dash (p : string) :
  all_digits p = true -> strings_Contains p "-" = false.
Proof.
  induction p as [|c p IH]; [done|]. cbn [all_digits]. intros H.
  apply andb_true_iff in H as [Hc Hp]. cbn [strings_Contains].
  rewrite (IH Hp).
  destruct c as [[] [] [] [] [] [] [] []]; try discriminate Hc; reflexivity.
Qed.

Lemma contains_dash_digits (a b : string) :
  all_digits (a +:+ "-" +:+ b) = false.
Proof.
  apply not_true_iff_false. intros H. apply digits_no_dash in H.
  by rewrite contains_dash in H.
Qed.

(** What [to_year] leaves on a string: a piece made of digits, or a range. *)
Lemma to_year_shape (t : string) (m m' : parseMeta) (res res' : resmap)
    (v : string) :
  value m = Str v -> to_year t m res = Ok (m', res') ->
  res' = res /\
  (year_range (value m') \/ exists p, value m' = Str p /\ all_digits p = true).
Proof.
  intros Hv. unfold to_year. rewrite Hv.
  pose proof (split_runs_digits v "" false eq_refl) as Hdigits.
  fold (non_digits_Split v) in Hdigits.
  destruct (non_digits_Split v) as [|start [|end_ rest]]; [done| |].
  - apply Forall_cons in Hdigits as [Hs _]. intros [= <- <-].
    split; [done|]. right. by exists start.
  - apply Forall_cons in Hdigits as [Hs Hdigits].
    apply Forall_cons in Hdigits as [He _].
    destruct (Atoi end_) as [endYear|].
    2:{ intros [= <- <-]. split; [done|]. right. by exists start. }
    destruct (Atoi start) as [startYear|].
    2:{ intros [= <- <-]. split; [done|]. right. by exists "". }
    match goal with
    | |- context [if ?c <=? startYear then _ else _] =>
        destruct (Z.leb_spec c startYear) as [Hle|Hgt]
    end.
    + intros [= <- <-]. split; [done|]. right. by exists "".
    + intros [= <- <-]. split; [done|]. left. by eexists _, _.
Qed.

(** X19. The transform of the "year" rules for ranges: the value of the
    year is what [to_year] leaves; when it is a range of years and
    "complete" has no cell, a cell of "complete" with the value [true] is
    added, otherwise the map is left as it is. In [ptt.go] the new cell is a
    copy of the cell of the year (its offset, its text); in the port, for
    the same year, it is a blank cell, at offset 0 and without text. *)
Theorem year_range_flags_complete (t : string) (m m' : parseMeta)
    (res res' : resmap) (v : string) :
  value m = Str v ->
  year_range_transform t m res = Ok (m', res') ->
  to_year t m res = Ok (m', res) /\
  (year_range (value m') -> res !! "complete" = None ->
   res' = <["complete" := set_value (Bool true) m']> res /\
   (toYear t m res = to_year t m res ->
    yearRangeTransform t m res
    = Ok (m', <["complete" := set_value (Bool true) blank]> res))) /\
  (~ year_range (value m') \/ is_Some (res !! "complete") -> res' = res).
Proof.
  intros Hv. unfold year_range_transform.
  destruct (to_year t m res) as [[m1 res1]|p] eqn:Hy; [|done].
  rewrite ebind_Ok.
  destruct (to_year_shape _ _ _ _ _ _ Hv Hy) as [-> Hshape].
  destruct (res !! "complete") as [cm|] eqn:Hc.
  - rewrite bool_decide_eq_true_2 by (by eexists).
    intros [= <- <-]. split; [done|]. split; [done|]. done.
  - rewrite bool_decide_eq_false_2 by (by intros [? ?]).
    destruct Hshape as [(a & b & Hab & Hval)|(p & Hval & Hp)].
    + rewrite Hval, contains_dash. intros [= <- <-].
      split; [done|]. split.
      * intros _ _. split; [done|]. intros Hsame.
        unfold yearRangeTransform. rewrite Hsame, ebind_Ok, Hc.
        rewrite bool_decide_eq_false_2 by (by intros [? ?]).
        by rewrite Hval, contains_dash.
      * intros [Hno|[? ?]]; [|done]. exfalso. apply Hno. by exists a, b.
    + rewrite Hval, (digits_no_dash p Hp). intros [= <- <-].
      split; [done|]. split; [|done].
      intros (a & b & _ & Hrange). rewrite Hval in Hrange.
      injection Hrange as ->. rewrite contains_dash_digits in Hp. done.
Qed.

Lemma year_range_flags_complete_witness :
  let m := mkMeta 5 "2010-15" (Str "2010-15") false false in
  to_year "" m ∅ = Ok (set_value (Str "2010-2015") m, ∅).
Proof.
  intros m.
  apply (year_range_flags_complete "" m (set_value (Str "2010-2015") m) ∅
           (<["complete" := set_value (Bool true)
                              (set_value (Str "2010-2015") m)]> ∅)
           "2010-15" eq_refl).
  vm_compute. reflexivity.
Defined.

Lemma state_eta (st : loop_state) :
  mkState (title st) (result st) (endOfTitle st) = st.
Proof. by destruct st. Qed.

(** X20. The "edition" rule without pattern: when the edition recorded is
    "Remastered" and "remastered" has no cell, a cell of "remastered" with
    the value [true] is added, at the offset and with the text of the
    edition; a cell of "remastered" that exists is left as it is; for any
    other edition, and without a cell of "edition", nothing changes. The
    title and the boundary stay as they are in every case. *)
Theorem remastered_follows_edition (order : turn_order) (st : loop_state) :
  (forall m,
     result st !! "edition" = Some m -> processed m = true ->
     value m = Str "Remastered" ->
     (result st !! "remastered" = None ->
      Go.step order edition_rule st
      = Ok (mkState (title st)
              (<["remastered" :=
                   mkMeta (mIndex m) (mValue m) (Bool true) false false]>
                 (result st))
              (endOfTitle st))) /\
     (is_Some (result st !! "remastered") ->
      Go.step order edition_rule st = Ok st)) /\
  (forall m v,
     result st !! "edition" = Some m -> processed m = true ->
     value m = Str v -> v <> "Remastered" ->
     Go.step order edition_rule st = Ok st) /\
  (result st !! "edition" = None -> Go.step order edition_rule st = Ok st).
Proof.
  assert (Hfield : has_value_set "edition" = false) by reflexivity.
  split; [|split].
  - intros m Hm Hp Hv. split.
    + intros Hr. unfold Go.step, Go.evaluate, edition_rule, edition_processor.
      cbn [Pattern Field Process Transform SkipFromTitle KeepMatching].
      repeat first [ rewrite ebind_Ok | rewrite Hm | rewrite Hv | rewrite Hr
                   | rewrite Hp | rewrite Hfield
                   | progress cbn [String.eqb Ascii.eqb Bool.eqb negb is_nil
                                   orb andb] ].
      do 2 f_equal.
      rewrite insert_insert_ne by done. by rewrite (insert_id _ _ _ Hm).
    + intros [cm Hr].
      unfold Go.step, Go.evaluate, edition_rule, edition_processor.
      cbn [Pattern Field Process Transform SkipFromTitle KeepMatching].
      repeat first [ rewrite ebind_Ok | rewrite Hm | rewrite Hv | rewrite Hr
                   | rewrite Hp | rewrite Hfield
                   | progress cbn [String.eqb Ascii.eqb Bool.eqb negb is_nil
                                   orb andb] ].
      rewrite (insert_id _ _ _ Hm). by rewrite state_eta.
  - intros m v Hm Hp Hv Hne. apply String.eqb_neq in Hne.
    unfold Go.step, Go.evaluate, edition_rule, edition_processor.
    cbn [Pattern Field Process Transform SkipFromTitle KeepMatching].
    repeat first [ rewrite ebind_Ok | rewrite Hm | rewrite Hv | rewrite Hne
                 | rewrite Hp | rewrite Hfield
                 | progress cbn [negb is_nil orb andb] ].
    rewrite (insert_id _ _ _ Hm). by rewrite state_eta.
  - intros Hm.
    unfold Go.step, Go.evaluate, edition_rule, edition_processor.
    cbn [Pattern Field Process Transform SkipFromTitle KeepMatching].
    repeat first [ rewrite ebind_Ok | rewrite Hm
                 | progress cbn [negb is_nil orb andb blank value] ].
    rewrite (delete_id _ _ Hm). by rewrite state_eta.
Qed.

Lemma remastered_follows_edition_witness :
  let st := mkState "Film Remastered"
              {[ "edition" := mkMeta 5 "Remastered" (Str "Remastered")
                                false true ]} 5 in
  Go.step example_turn edition_rule st
  = Ok (mkState "Film Remastered"
          (<["remastered" := mkMeta 5 "Remastered" (Bool true) false false]>
             (result st))
          5).
Proof.
  intros st.
  exact (proj1 (proj1 (remastered_follows_edition example_turn st)
                  (mkMeta 5 "Remastered" (Str "Remastered") false true)
                  eq_refl eq_refl eq_refl) eq_refl).
Defined.

Lemma subbed_processor_languages (o : range_order) (t : string)
    (m : parseMeta) (result : resmap) :
  subbed_processor o t m result
  = Ok (if languages_hold result "multi subs"
        then set_value (Bool true) m else m, result).
Proof.
  unfold subbed_processor, languages_hold.
  destruct (result !! "languages") as [lm|]; [|done].
  destruct (value lm); try done. by destruct (vs_exists _ _).
Qed.

Lemma dubbed_processor_languages (o : range_order) (t : string)
    (m : parseMeta) (result : resmap) :
  dubbed_processor o t m result
  = Ok (if languages_hold result "multi audio"
           || languages_hold result "dual audio"
        then set_value (Bool true) m else m, result).
Proof.
  unfold dubbed_processor, languages_hold.
  destruct (result !! "languages") as [lm|]; [|done].
  destruct (value lm); try done. by destruct (_ || _).
Qed.

(** X21. The "subbed" and "dubbed" rules without pattern, for a title that
    has no cell of that field yet: "subbed" gets a cell with the value
    [true] when the languages recorded hold "multi subs", "dubbed" when they
    hold "multi audio" or "dual audio"; the new cell is at offset 0 without
    text, and the title and the boundary stay as they are. Otherwise, also
    when "languages" has no cell, the state is left as it was. *)
Theorem languages_flag_subbed_and_dubbed (order : turn_order)
    (st : loop_state) :
  (result st !! "subbed" = None ->
   Go.step order subbed_rule st
   = if languages_hold (result st) "multi subs"
     then Ok (mkState (title st)
                (<["subbed" := mkMeta 0 "" (Bool true) false true]>
                   (result st))
                (endOfTitle st))
     else Ok st) /\
  (result st !! "dubbed" = None ->
   Go.step order dubbed_rule st
   = if languages_hold (result st) "multi audio"
        || languages_hold (result st) "dual audio"
     then Ok (mkState (title st)
                (<["dubbed" := mkMeta 0 "" (Bool true) false true]>
                   (result st))
                (endOfTitle st))
     else Ok st).
Proof.
  split; intros Hcell.
  - unfold Go.step, Go.evaluate, subbed_rule.
    cbn [Pattern Field Process Transform SkipFromTitle KeepMatching].
    rewrite !ebind_Ok, Hcell, subbed_processor_languages.
    destruct (languages_hold (result st) "multi subs").
    + repeat first [ rewrite ebind_Ok
                   | progress cbn [set_value blank value negb is_nil orb andb
                                   processed] ].
      unfold Go.commit, Go.track_boundary.
      cbn [Remove remove orb title result endOfTitle Field mIndex mValue
           value processed set_value set_remove set_processed blank].
      rewrite ebind_Ok. cbn [Z.eqb negb andb].
      by rewrite insert_insert_eq.
    + repeat first [ rewrite ebind_Ok
                   | progress cbn [blank value negb is_nil orb andb] ].
      rewrite (delete_id _ _ Hcell). by rewrite state_eta.
  - unfold Go.step, Go.evaluate, dubbed_rule.
    cbn [Pattern Field Process Transform SkipFromTitle KeepMatching].
    rewrite !ebind_Ok, Hcell, dubbed_processor_languages.
    destruct (languages_hold (result st) "multi audio"
              || languages_hold (result st) "dual audio").
    + repeat first [ rewrite ebind_Ok
                   | progress cbn [set_value blank value negb is_nil orb andb
                                   processed] ].
      unfold Go.commit, Go.track_boundary.
      cbn [Remove remove orb title result endOfTitle Field mIndex mValue
           value processed set_value set_remove set_processed blank].
      rewrite ebind_Ok. cbn [Z.eqb negb andb].
      by rewrite insert_insert_eq.
    + repeat first [ rewrite ebind_Ok
                   | progress cbn [blank value negb is_nil orb andb] ].
      rewrite (delete_id _ _ Hcell). by rewrite state_eta.
Qed.

Lemma languages_flag_subbed_and_dubbed_witness :
  let st := mkState "Film"
              {[ "languages" := mkMeta 0 "" (ValueSet ["multi subs"])
                                  false true ]} 4 in
  Go.step example_turn subbed_rule st
  = Ok (mkState "Film"
          (<["subbed" := mkMeta 0 "" (Bool true) false true]> (result st))
          4).
Proof.
  intros st.
  exact (proj1 (languages_flag_subbed_and_dubbed example_turn st) eq_refl).
Defined.

(** *** The port against [ptt.go], turn by turn *)

Lemma replace_runs_ext (f g : ascii -> bool) (by_ s : string) (b : bool) :
  (forall c, c ∈ bytes s -> f c = g c) ->
  replace_runs f by_ s b = replace_runs g by_ s b.
Proof.
  revert b. induction s as [|c s IH]; intros b Hfg; [done|].
  cbn [replace_runs]. rewrite <- (Hfg c) by (unfold bytes; cbn; by left).
  assert (Hs : forall d, d ∈ bytes s -> f d = g d).
  { intros d Hd. apply Hfg. unfold bytes. cbn. by right. }
  destruct (f c); [destruct b|]; by rewrite IH.
Qed.

Lemma replace_runs_keeps (sep : ascii -> bool) (by_ s : string) (b : bool)
    (c : ascii) :
  c ∈ bytes s -> sep c = false -> c ∈ bytes (replace_runs sep by_ s b).
Proof.
  revert b. induction s as [|d s IH]; intros b Hc Hsep.
  - by apply elem_of_nil in Hc.
  - unfold bytes in Hc. cbn in Hc. apply elem_of_cons in Hc as [->|Hc].
    + cbn [replace_runs]. rewrite Hsep. unfold bytes. cbn. by left.
    + cbn [replace_runs]. destruct (sep d).
      * destruct b; [by apply IH|]. rewrite bytes_app. apply elem_of_app.
        right. by apply IH.
      * unfold bytes. cbn. right. by apply IH.
Qed.

Lemma is_space_port (c : ascii) :
  c <> vertical_tab -> Kt.is_space c = is_space c.
Proof.
  intros Hc. destruct c as [[] [] [] [] [] [] [] []]; try reflexivity.
  by destruct Hc.
Qed.

(** X22. The port takes the vertical tab for white space and [ptt.go] does
    not: on an input in ASCII the two start the rule loop in the same state
    exactly when the input has no vertical tab. *)
Theorem port_white_space (input : string) :
  ascii_text input = true ->
  (Kt.init_state input = Go.init_state input
   <-> vertical_tab ∉ bytes input).
Proof.
  intros _. split.
  - intros Heq Hin.
    assert (Hgo : vertical_tab ∈ bytes (title (Go.init_state input))).
    { cbn [Go.init_state title].
      unfold underscores_ReplaceAll, whitespaces_ReplaceAll.
      apply replace_runs_keeps; [|done]. by apply replace_runs_keeps. }
    rewrite <- Heq in Hgo. cbn [Kt.init_state title] in Hgo.
    unfold underscores_ReplaceAll, Kt.whitespaces_replace in Hgo.
    apply elem_of_replace_runs in Hgo as [Hgo|[Hgo _]]; [done|].
    by apply elem_of_replace_runs in Hgo as [Hgo|[_ Hgo]].
  - intros Hin. unfold Kt.init_state, Go.init_state.
    unfold Kt.whitespaces_replace, whitespaces_ReplaceAll.
    rewrite (replace_runs_ext Kt.is_space is_space); [done|].
    intros c Hc. apply is_space_port. by intros ->.
Qed.

Lemma port_white_space_witness :
  Kt.init_state "Film 2020" = Go.init_state "Film 2020" /\
  Kt.init_state (String vertical_tab "Film")
  <> Go.init_state (String vertical_tab "Film").
Proof.
  split.
  - apply (port_white_space "Film 2020" eq_refl).
    unfold bytes. cbn. intros H.
    repeat (apply elem_of_cons in H as [H|H]; [discriminate H|]).
    by apply elem_of_nil in H.
  - intros H.
    apply (port_white_space (String vertical_tab "Film") eq_refl) in H.
    apply H. unfold bytes. cbn. by left.
Defined.


















(** *** The false positives of the group *)

Lemma group_overlap_holds (order : range_order) (result : resmap)
    (m : parseMeta) :
  valid_order order ->
  group_overlap (order result) (wrap (mIndex m + slen (mValue m))) = true
  <-> holds_another_match result m.
Proof.
  intros Hord. rewrite group_overlap_existsb, existsb_order by done.
  unfold holds_another_match. split.
  - intros (k & km & Hk & Hin). exists k, km. split; [done|]. cbn in Hin.
    apply andb_true_iff in Hin as [H1 H2].
    apply Z.ltb_lt in H1, H2. lia.
  - intros (k & km & Hk & Hin). exists k, km. split; [done|]. cbn.
    apply andb_true_iff. split; apply Z.ltb_lt; lia.
Qed.

(** X25. The last "group" rule, on a group that an earlier rule recorded:
    the value of the group is emptied when the matched text is bracketed and
    the cell of some field starts inside it, past its first byte; otherwise
    the value stays and the cell forgets where it matched. In both cases the
    working title and the boundary are left as they are. *)
Theorem group_false_positive (order : turn_order) (st : loop_state)
    (m : parseMeta) :
  valid_turn order ->
  result st !! "group" = Some m ->
  is_nil (value m) = false -> processed m = true ->
  (mValue m <> "" -> bracketed_MatchString (mValue m) = true ->
   holds_another_match (result st) m ->
   Go.step order group_rule st
   = Ok (mkState (title st)
                 (<["group" := set_value (Str "") m]> (result st))
                 (endOfTitle st))) /\
  (~ (mValue m <> "" /\ bracketed_MatchString (mValue m) = true
      /\ holds_another_match (result st) m) ->
   Go.step order group_rule st
   = Ok (mkState (title st)
                 (<["group" := set_mValue "" (set_mIndex 0 m)]> (result st))
                 (endOfTitle st))).
Proof.
  intros Hord Hcell Hnil Hproc.
  pose proof (group_overlap_holds (order ProcessorRange) (result st) m
                (Hord ProcessorRange)) as Hover.
  unfold Go.step, Go.evaluate.
  cbn [group_rule Pattern Process Transform Field KeepMatching SkipFromTitle].
  rewrite Hcell, !ebind_Ok. unfold group_processor. split.
  - intros Hne Hbr Hin. apply Hover in Hin. rewrite Hbr, Hin.
    apply String.eqb_neq in Hne. rewrite Hne. cbn [negb andb].
    rewrite !ebind_Ok. cbn [value set_value is_nil processed negb orb andb].
    by rewrite Hproc.
  - intros Hnot.
    destruct (negb (String.eqb (mValue m) "")
              && bracketed_MatchString (mValue m)
              && group_overlap _ _) eqn:Hc.
    + destruct Hnot. apply andb_true_iff in Hc as [Hc Hin].
      apply andb_true_iff in Hc as [Hne Hbr]. apply negb_true_iff in Hne.
      apply String.eqb_neq in Hne. split; [done|]. split; [done|].
      by apply Hover.
    + rewrite !ebind_Ok.
      cbn [value set_mValue set_mIndex is_nil processed negb orb andb].
      by rewrite Hnil, Hproc.
Qed.

Lemma group_false_positive_witness :
  Go.step example_turn group_rule bracketed_group_state
  = Ok (mkState "[2020 FR] Film"
          (<["group" := mkMeta 0 "[2020 FR]" (Str "") false true]>
             (result bracketed_group_state))
          14).
Proof.
  apply (proj1 (group_false_positive example_turn bracketed_group_state
                  (mkMeta 0 "[2020 FR]" (Str "2020 FR") false true)
                  example_turn_valid eq_refl eq_refl eq_refl)).
  - done.
  - reflexivity.
  - exists "year", (mkMeta 1 "2020" (Str "2020") false true).
    split; [reflexivity|]. vm_compute. split; reflexivity.
Defined.
